(** * Range: a shallow embedding of [src/type/Range.js]

    The Range type of math.js stores a [start], a [step] and an [end] and
    derives everything else (size, traversal, conversion to an array, text
    form) from these three fields.  JavaScript numbers are IEEE 754 binary64
    values; they are modelled by the Standard Library's [spec_float] with
    precision 53 and maximal exponent 1024, so that rounding, signed zeros,
    infinities and NaN behave as they do on the platform.  The data of
    [spec_float] that are numbers are the valid ones ([Num.valid]); what is
    proved of every datum holds of every number, and the numbers of the
    integers below 2^53 are valid, as are the fields of the ranges on which
    a property is shown to fail.

    The loops of [forEach] need not terminate, so they run under a bound on
    the number of iterations; the operations built on [forEach] return a
    value when the loop returns within the bound. *)

From Stdlib Require Import ZArith Bool List String Ascii Lia.
From Stdlib Require Import SpecFloat DecimalString.
Import ListNotations.

#[local] Open Scope string_scope.
#[local] Open Scope Z_scope.

(** ** JavaScript numbers *)

Definition number : Type := spec_float.

Definition prec : Z := 53.
Definition emax : Z := 1024.

Module Num.

Definition zero : number := S754_zero false.
Definition nan : number := S754_nan.
Definition infinity : number := S754_infinity false.

(** The number denoted by an integer literal, rounded to nearest even. *)
Definition ofZ (z : Z) : number := binary_normalize prec emax z 0 false.

Definition one : number := Eval cbv in ofZ 1.
Definition neg_one : number := Eval cbv in ofZ (-1).

(** [a + b], [a - b], [a / b] *)
Definition add : number -> number -> number := SFadd prec emax.
Definition sub : number -> number -> number := SFsub prec emax.
Definition div : number -> number -> number := SFdiv prec emax.

(** [a == b], [a != b], [a < b], [a <= b], [a > b], [a >= b] on numbers *)
Definition eqb (a b : number) : bool := SFeqb a b.
Definition neqb (a b : number) : bool := negb (SFeqb a b).
Definition ltb (a b : number) : bool := SFltb a b.
Definition leb (a b : number) : bool := SFleb a b.
Definition gtb (a b : number) : bool := SFltb b a.
Definition geb (a b : number) : bool := SFleb b a.

(** The well-formed binary64 data: canonical mantissa and exponent. *)
Definition valid (x : number) : bool := valid_binary prec emax x.

(** The integer a number denotes, when it denotes one. *)
Definition toZ (x : number) : option Z :=
  match x with
  | S754_zero _ => Some 0
  | S754_finite s m e =>
      if 0 <=? e then Some (cond_Zopp s (Zpos m * 2 ^ e))
      else if Zpos m mod 2 ^ (- e) =? 0
           then Some (cond_Zopp s (Zpos m / 2 ^ (- e)))
           else None
  | _ => None
  end.

End Num.

(** The global [isNaN] applied to a number. *)
Definition isNaN (x : number) : bool :=
  match x with
  | S754_nan => true
  | _ => false
  end.

(** [Math.floor]: the largest integer not above [x]; zeros, infinities and
    NaN are returned as they are, and a negative fraction above -1 gives -1.
    A finite number with a negative exponent has fewer than 53 integer bits,
    so the integer part is converted back without rounding. *)
Module Math.

Definition floor (x : number) : number :=
  match x with
  | S754_finite s m e =>
      if 0 <=? e then x
      else binary_normalize prec emax
             (Z.shiftr (cond_Zopp s (Zpos m)) (- e)) 0 s
  | _ => x
  end.

End Math.

(** Modelled from the spec: [math.sign] is a collaborator defined outside
    [Range.js]; the spec gives it as "+1 for positive, -1 for negative, 0 for
    exactly zero".  NaN is neither positive nor negative and falls in the last
    case, as in the library's [if (x > 0) .. else if (x < 0) .. else 0]. *)
Module math.

Definition sign (x : number) : number :=
  if Num.gtb x Num.zero then Num.one
  else if Num.ltb x Num.zero then Num.neg_one
  else Num.zero.

End math.

(** ** JavaScript values

    The primitive values a caller can hand to the constructor and to
    [Range.parse].  Strings are sequences of code units below 256. *)

Inductive value : Type :=
  | VUndefined
  | VNull
  | VBoolean (b : bool)
  | VNumber (n : number)
  | VString (s : string).

(** Modelled from the spec: [isNumber] and [isString] are utilities defined
    outside [Range.js]; the spec names their arguments "a numeric value" and
    "non-string input". *)
Definition isNumber (v : value) : bool :=
  match v with
  | VNumber _ => true
  | _ => false
  end.

Definition isString (v : value) : bool :=
  match v with
  | VString _ => true
  | _ => false
  end.

(** [v != null]: only [null] and [undefined] are loosely equal to [null]. *)
Definition neq_null (v : value) : bool :=
  match v with
  | VUndefined | VNull => false
  | _ => true
  end.

(** ** Conversion of text to a number: [Number(string)]

    The platform's conversion: white space is trimmed, the empty text is [+0],
    [Infinity] may carry a sign, a binary, octal or hexadecimal literal may
    not, a decimal literal may have a fraction and an exponent, and everything
    else is NaN.  The decimal value is rounded to the nearest number, ties to
    even. *)
Module StringNumericLiteral.

Definition isWhiteSpace (c : ascii) : bool :=
  match N_of_ascii c with
  | 9 | 10 | 11 | 12 | 13 | 32 | 160 => true
  | _ => false
  end%N.

Fixpoint trimStart (s : string) : string :=
  match s with
  | String c s' => if isWhiteSpace c then trimStart s' else s
  | EmptyString => EmptyString
  end.

Fixpoint trimEnd (s : string) : string :=
  match s with
  | EmptyString => EmptyString
  | String c s' =>
      match trimEnd s' with
      | EmptyString =>
          if isWhiteSpace c then EmptyString else String c EmptyString
      | t => String c t
      end
  end.

Definition trim (s : string) : string := trimEnd (trimStart s).

Definition digitValue (c : ascii) : option Z :=
  let n := Z.of_N (N_of_ascii c) in
  if (48 <=? n) && (n <=? 57) then Some (n - 48)
  else if (97 <=? n) && (n <=? 102) then Some (n - 87)
  else if (65 <=? n) && (n <=? 70) then Some (n - 55)
  else None.

Definition digitIn (base : Z) (c : ascii) : option Z :=
  match digitValue c with
  | Some d => if d <? base then Some d else None
  | None => None
  end.

(** Reads the longest run of digits: the value read after [acc], the number
    of digits read after [count], and the text that follows. *)
Fixpoint digits (base : Z) (s : string) (acc count : Z) : Z * Z * string :=
  match s with
  | String c s' =>
      match digitIn base c with
      | Some d => digits base s' (acc * base + d) (count + 1)
      | None => (acc, count, s)
      end
  | EmptyString => (acc, count, s)
  end.

Definition isEmpty (s : string) : bool :=
  match s with
  | EmptyString => true
  | _ => false
  end.

Definition radixOf (c : ascii) : option Z :=
  match c with
  | "x" | "X" => Some 16
  | "o" | "O" => Some 8
  | "b" | "B" => Some 2
  | _ => None
  end%char.

Definition nonDecimalLiteral (t : string) : option Z :=
  match t with
  | String "0"%char (String p r) =>
      match radixOf p with
      | Some base =>
          let '(v, n, rest) := digits base r 0 0 in
          if (0 <? n) && isEmpty rest then Some v else None
      | None => None
      end
  | _ => None
  end.

Definition splitSign (t : string) : bool * string :=
  match t with
  | String "+"%char u => (false, u)
  | String "-"%char u => (true, u)
  | _ => (false, t)
  end.

Definition exponentPart (s : string) : option Z :=
  match s with
  | EmptyString => Some 0
  | String c r =>
      if Ascii.eqb c "e" || Ascii.eqb c "E" then
        let '(neg, r') := splitSign r in
        let '(v, n, rest) := digits 10 r' 0 0 in
        if (0 <? n) && isEmpty rest then Some (cond_Zopp neg v) else None
      else None
  end.

(** A decimal literal as a mantissa [m] and a decimal exponent [k]: the
    value is [m * 10 ^ k]. *)
Definition unsignedDecimalLiteral (u : string) : option (Z * Z) :=
  let '(ip, n1, r1) := digits 10 u 0 0 in
  match r1 with
  | String "."%char r2 =>
      let '(m, n2, r3) := digits 10 r2 ip 0 in
      if 0 <? n1 + n2 then
        match exponentPart r3 with
        | Some e => Some (m, e - n2)
        | None => None
        end
      else None
  | _ =>
      if 0 <? n1 then
        match exponentPart r1 with
        | Some e => Some (ip, e)
        | None => None
        end
      else None
  end.

Definition decimalValue (neg : bool) (m k : Z) : number :=
  if m =? 0 then S754_zero neg
  else if 0 <=? k then
    binary_normalize prec emax (cond_Zopp neg (m * 10 ^ k)) 0 neg
  else
    SFdiv prec emax (S754_finite neg (Z.to_pos m) 0)
                    (S754_finite false (Z.to_pos (10 ^ (- k))) 0).

Definition StringToNumber (s : string) : number :=
  match trim s with
  | EmptyString => Num.zero
  | t =>
      match nonDecimalLiteral t with
      | Some v => Num.ofZ v
      | None =>
          let '(neg, u) := splitSign t in
          if String.eqb u "Infinity" then S754_infinity neg
          else
            match unsignedDecimalLiteral u with
            | Some (m, k) => decimalValue neg m k
            | None => Num.nan
            end
      end
  end.

End StringNumericLiteral.

(** [Number(v)]: the conversion of a primitive value to a number. *)
Definition Number (v : value) : number :=
  match v with
  | VUndefined => Num.nan
  | VNull => Num.zero
  | VBoolean true => Num.one
  | VBoolean false => Num.zero
  | VNumber n => n
  | VString s => StringNumericLiteral.StringToNumber s
  end.

(** [str.split(':')]: the first token and the tokens after it; the result
    always has a first token, so the array is never empty. *)
Fixpoint split_tokens (sep : ascii) (s : string) : string * list string :=
  match s with
  | EmptyString => (EmptyString, [])
  | String c s' =>
      let '(tok, toks) := split_tokens sep s' in
      if Ascii.eqb c sep then (EmptyString, tok :: toks)
      else (String c tok, toks)
  end.

Definition split (sep : ascii) (s : string) : list string :=
  let '(tok, toks) := split_tokens sep s in tok :: toks.

(** ** Exceptions *)

Inductive exn : Type :=
  | SyntaxError (message : string)
  | TypeError (message : string).

Inductive result (A : Type) : Type :=
  | Ok (a : A)
  | Throw (e : exn).

Arguments Ok {A} a.
Arguments Throw {A} e.

Definition bind {A B : Type} (r : result A) (k : A -> result B) : result B :=
  match r with
  | Ok a => k a
  | Throw e => Throw e
  end.

Notation "x <- r ;; k" := (bind r (fun x => k))
  (at level 61, r at next level, right associativity).

(** ** Arrays

    An array is the list of its elements; [None] is a hole.  An assignment
    [array[index] = v] writes an element when [index] is an array index (an
    integer from 0 to 2^32 - 2), filling the gap with holes when it lies
    beyond the length; with any other key it sets a property that is not an
    element and leaves the length alone. *)

Definition array (A : Type) : Type := list (option A).

Definition array_index (index : number) : option nat :=
  match Num.toZ index with
  | Some z => if (0 <=? z) && (z <? 2 ^ 32 - 1) then Some (Z.to_nat z) else None
  | None => None
  end.

Fixpoint list_set {A : Type} (a : array A) (n : nat) (v : A) : array A :=
  match n, a with
  | O, [] => [Some v]
  | O, _ :: a' => Some v :: a'
  | S n', [] => None :: list_set [] n' v
  | S n', x :: a' => x :: list_set a' n' v
  end.

Definition array_set {A : Type} (a : array A) (index : number) (v : A) : array A :=
  match array_index index with
  | Some n => list_set a n v
  | None => a
  end.

(** ** The Range object *)

Record Range : Type := mkRange {
  start : value;
  step : value;
  end_ : value
}.

(** [new Range(start, step, end)]; [with_new] is [this instanceof Range],
    false when the constructor is called as a plain function. *)
Definition Range_new (with_new : bool) (start step end_ : value) : result Range :=
  if negb with_new then
    Throw (SyntaxError "Range constructor must be called with the new operator")
  else if neq_null start && negb (isNumber start) then
    Throw (TypeError "Parameter start must be a number")
  else if neq_null end_ && negb (isNumber end_) then
    Throw (TypeError "Parameter end must be a number")
  else if neq_null step && negb (isNumber step) then
    Throw (TypeError "Parameter step must be a number")
  else
    Ok {| start := if neq_null start then start else VNumber Num.zero;
          end_ := if neq_null end_ then end_ else VNumber Num.zero;
          step := if neq_null step then step else VNumber Num.one |}.

(** The text of a value that [isString] accepts. *)
Definition string_of (v : value) : string :=
  match v with
  | VString s => s
  | _ => EmptyString
  end.

(** [Range.parse(str)]; [None] is [null]. *)
Definition Range_parse (str : value) : result (option Range) :=
  if negb (isString str) then Ok None
  else
    let args := split ":" (string_of str) in
    let nums := List.map (fun arg => Number (VString arg)) args in
    let invalid := existsb isNaN nums in
    if invalid then Ok None
    else
      match nums with
      | [n0; n1] =>
          r <- Range_new true (VNumber n0) (VNumber Num.one) (VNumber n1) ;;
          Ok (Some r)
      | [n0; n1; n2] =>
          r <- Range_new true (VNumber n0) (VNumber n1) (VNumber n2) ;;
          Ok (Some r)
      | _ => Ok None
      end.

Definition Range_clone (this : Range) : result Range :=
  Range_new true (start this) (step this) (end_ this).

(** [size()]: the one-element array [[len]]. *)
Definition Range_size (this : Range) : list number :=
  let len := Num.zero in
  let start := Number (start this) in
  let step := Number (step this) in
  let end_ := Number (end_ this) in
  let diff := Num.sub end_ start in
  let len :=
    if Num.eqb (math.sign step) (math.sign diff) then
      Num.add (Math.floor (Num.div diff step)) Num.one
    else if Num.eqb diff Num.zero then Num.one
    else len in
  let len := if isNaN len then Num.zero else len in
  [len].

(** ** Traversal

    A [while] loop of the source runs under a bound on the number of
    iterations: [Returned s] is the state on leaving the loop, [Running s] the
    state reached when the bound is used up and the guard still holds. *)

Inductive outcome (S : Type) : Type :=
  | Returned (s : S)
  | Running (s : S).

Arguments Returned {S} s.
Arguments Running {S} s.

Definition returned {S : Type} (o : outcome S) : option S :=
  match o with
  | Returned s => Some s
  | Running _ => None
  end.

Section ForEach.

Context {S : Type}.

(** The callback receives the value, the index and the range, and changes
    the state of the caller. *)
Variable callback : number -> number -> Range -> S -> S.

(** [while (guard x) { callback(x, i, this); x += step; i++; }] *)
Fixpoint Range_while (guard : number -> bool) (this : Range) (step : number)
    (fuel : nat) (x i : number) (s : S) : outcome S :=
  match fuel with
  | O => if guard x then Running s else Returned s
  | Datatypes.S fuel' =>
      if guard x then
        Range_while guard this step fuel'
          (Num.add x step) (Num.add i Num.one) (callback x i this s)
      else Returned s
  end.

Definition Range_forEach (fuel : nat) (this : Range) (s : S) : outcome S :=
  let x := Number (start this) in
  let step := Number (step this) in
  let end_ := Number (end_ this) in
  let i := Num.zero in
  if Num.gtb step Num.zero then
    Range_while (fun x => Num.leb x end_) this step fuel x i s
  else if Num.ltb step Num.zero then
    Range_while (fun x => Num.geb x end_) this step fuel x i s
  else Returned s.

End ForEach.

(** [map(callback)]: [array[index] = callback(value, index, obj)]. *)
Definition Range_map {A : Type} (callback : number -> number -> Range -> A)
    (fuel : nat) (this : Range) : option (array A) :=
  returned
    (Range_forEach
       (fun value index obj array => array_set array index (callback value index obj))
       fuel this []).

(** [toArray()]: [array[index] = value]. *)
Definition Range_toArray (fuel : nat) (this : Range) : option (array number) :=
  returned
    (Range_forEach (fun value index _ array => array_set array index value)
       fuel this []).

(** [toVector] is [toArray] under another name.  [toMatrix] hands the array
    of [toArray()] to the Matrix type, which is defined outside [Range.js]. *)
Definition Range_toVector := Range_toArray.

Definition Range_isVector (this : Range) : bool := true.

(** [toScalar()]: [array[0]] when the array has one element, else [null]; a
    hole reads as [undefined]. *)
Definition Range_toScalar (fuel : nat) (this : Range) : option value :=
  match Range_toArray fuel this with
  | Some array =>
      if (List.length array =? 1)%nat then
        match array with
        | Some x :: _ => Some (VNumber x)
        | _ => Some VUndefined
        end
      else Some VNull
  | None => None
  end.

(** [isScalar()]: [this.size()[0] == 1]. *)
Definition Range_isScalar (this : Range) : bool :=
  match Range_size this with
  | len :: _ => Num.eqb len Num.one
  | [] => false
  end.

Definition Range_valueOf (fuel : nat) (this : Range) : option (array number) :=
  Range_toArray fuel this.

(** [v != n] for a number [n]: a string or a boolean is converted first,
    [null] and [undefined] differ from every number. *)
Definition neq_number (v : value) (n : number) : bool :=
  match v with
  | VUndefined | VNull => true
  | _ => Num.neqb (Number v) n
  end.

Section ToString.

(** [math.format] is a collaborator defined outside [Range.js]: the text
    form of a number. *)
Variable format : number -> string.

Definition Range_toString (this : Range) : string :=
  let str := format (Number (start this)) in
  let str :=
    if neq_number (step this) Num.one then
      str ++ ":" ++ format (Number (step this))
    else str in
  str ++ ":" ++ format (Number (end_ this)).

End ToString.

(** A range whose three fields are numbers, as the constructor builds it. *)
Definition numRange (a s e : number) : Range :=
  {| start := VNumber a; step := VNumber s; end_ := VNumber e |}.

(** * The vocabulary of the properties *)

(** ** Ranges of numbers and of integers *)

(** A range of integers: its three fields are the numbers of [a], [s]
    and [e]. *)
Definition intRange (a s e : Z) : Range :=
  numRange (Num.ofZ a) (Num.ofZ s) (Num.ofZ e).

(** The bounds under which arithmetic on integers is exact. *)
Definition two52 : Z := 2 ^ 52.
Definition two53 : Z := 2 ^ 53.

(** The canonical mantissa and exponent of a positive integer below 2^53:
    the integer shifted to the left until it has 53 bits. *)
Definition mantissa_of (z : positive) : positive :=
  Z.to_pos (Zpos z * 2 ^ (53 - Zpos (digits2_pos z))).

Definition exponent_of (z : positive) : Z := Zpos (digits2_pos z) - 53.

(** The mantissa, the round and sticky bits and the exponent that rounding
    starts from: the mantissa aligned to the exponent [E] of the result,
    to the left without loss, or to the right with the bits shifted out
    recorded. *)
Definition aligned (m : positive) (e E : Z) : shr_record * Z :=
  if E <=? e then
    ({| shr_m := Zpos m * 2 ^ (e - E); shr_r := false; shr_s := false |}, E)
  else
    (Nat.iter (Z.to_nat (E - e)) shr_1
       {| shr_m := Zpos m; shr_r := false; shr_s := false |}, E).

(** What rounding does after the alignment. *)
Definition finish (sx : bool) (st : shr_record * Z) : number :=
  let '(mrs', e') := st in
  let '(mrs'', e'') :=
    shr_fexp prec emax
      (round_nearest_even (shr_m mrs') (loc_of_shr_record mrs')) e' loc_Exact in
  match shr_m mrs'' with
  | 0 => S754_zero sx
  | Zpos m => if e'' <=? emax - prec then S754_finite sx m e'' else S754_infinity sx
  | Zneg _ => S754_nan
  end.

(** The global [isFinite] applied to a number. *)
Definition isFinite (x : number) : bool :=
  match x with
  | S754_zero _ | S754_finite _ _ _ => true
  | _ => false
  end.

(** ** Construction *)

(** An argument that is provided and is not a number. *)
Definition offending (v : value) : bool := neq_null v && negb (isNumber v).

Definition parameter_message (p : string) : string :=
  "Parameter " ++ p ++ " must be a number".

(** A field: the argument, or [d] when the argument is omitted. *)
Definition default (v : value) (d : number) : value :=
  if neq_null v then v else VNumber d.

(** ** Parsing and text form *)

Definition tokens (s : string) : list string := split ":" s.

(** The number a token converts to. *)
Definition token_number (tok : string) : number := Number (VString tok).

(** An empty token stands for 0. *)
Definition empty_as_zero (tok : string) : number :=
  match tok with
  | EmptyString => Num.zero
  | _ => token_number tok
  end.

Fixpoint no_colon (s : string) : bool :=
  match s with
  | EmptyString => true
  | String c s' => negb (Ascii.eqb c ":") && no_colon s'
  end.

(** The text of [x] is one token, and a numeral that converts back
    to [x]. *)
Definition reparses (format : number -> string) (x : number) : Prop :=
  no_colon (format x) = true /\
  token_number (format x) = x /\
  isNaN x = false.

(** The text of an integer, by its decimal digits; this is how [math.format]
    prints an integer of moderate size. *)
Definition format_integer (x : number) : string :=
  match Num.toZ x with
  | Some z => NilZero.string_of_int (Z.to_int z)
  | None => "NaN"
  end.

(** ** Size *)

(** What [size()] does with a length that is not a number. *)
Definition NaN_to_zero (len : number) : number :=
  if isNaN len then Num.zero else len.

(** The number of values from [a] to [e] in steps of [s]. *)
Definition count (a s e : Z) : Z :=
  if (0 <? s) && (a <=? e) || (s <? 0) && (e <=? a) then (e - a) / s + 1
  else 0.

(** The largest length of an array. *)
Definition max_array_length : Z := 2 ^ 32 - 1.

(** ** Traversal *)

(** The value and the index of the invocation number [k] (from 0): [k]
    additions of [step] to [start], and [k] increments of 0. *)
Definition value_at (a s : number) (k : nat) : number :=
  Nat.iter k (fun x => Num.add x s) a.

Definition index_at (k : nat) : number :=
  Nat.iter k (fun i => Num.add i Num.one) Num.zero.

(** The first [n] invocations, and the state they leave. *)
Definition invocations (a s : number) (n : nat) : list (number * number) :=
  List.map (fun k => (value_at a s k, index_at k)) (seq 0 n).

Definition invoke {S : Type} (callback : number -> number -> Range -> S -> S)
    (this : Range) (l : list (number * number)) (s0 : S) : S :=
  fold_left (fun st xi => callback (fst xi) (snd xi) this st) l s0.

(** The guard of the loop the traversal runs, by the direction of the
    step. *)
Definition continues (s e x : number) : bool :=
  if Num.gtb s Num.zero then Num.leb x e else Num.geb x e.


(** ** Texts *)

(** The number of colons of a text. *)
Fixpoint colons (s : string) : nat :=
  match s with
  | EmptyString => 0%nat
  | String c s' => if Ascii.eqb c ":" then S (colons s') else colons s'
  end.

(** Every token of the text converts to a number that is not NaN. *)
Definition numeric_tokens (s : string) : bool :=
  forallb (fun tok => negb (isNaN (token_number tok))) (tokens s).

(** ** Arrays and traversals *)

(** The array of the images of the elements; a hole stays a hole. *)
Definition array_map {A B : Type} (g : A -> B) (arr : array A) : array B :=
  List.map (option_map g) arr.

(** The state in which a traversal is, returned or still running. *)
Definition state_of {S : Type} (o : outcome S) : S :=
  match o with
  | Returned s => s
  | Running s => s
  end.

(** A value on the way to the end [e] in the direction of the step [s]. *)
Definition towards (s e x : number) : Prop :=
  (Num.gtb s Num.zero = true /\ Num.leb x e = true) \/
  (Num.ltb s Num.zero = true /\ Num.geb x e = true).

(** ** The values of a range of integers *)

(** The values of a range of integers, in the order of the traversal. *)
Definition values (a s e : Z) : list Z :=
  List.map (fun k => a + Z.of_nat k * s) (seq 0 (Z.to_nat (count a s e))).

(** The array of the numbers of a list of integers. *)
Definition array_of (l : list Z) : array number :=
  List.map (fun z => Some (Num.ofZ z)) l.

(** ** Signs and finite numbers *)

(** A number that is not NaN and carries the sign [sx]. *)
Definition has_sign (sx : bool) (x : number) : Prop :=
  match x with
  | S754_zero s | S754_infinity s | S754_finite s _ _ => s = sx
  | S754_nan => False
  end.

(** A number that is neither NaN nor a zero and carries the sign [sx]. *)
Definition strictly (sx : bool) (x : number) : Prop :=
  match x with
  | S754_infinity s | S754_finite s _ _ => s = sx
  | _ => False
  end.

(** A finite number in the canonical form. *)
Definition finite_number (x : number) : bool := Num.valid x && isFinite x.

(** The smallest exponent of a number. *)
Definition min_exponent : Z := 3 - emax - prec.

(** ** Decimal digits *)

(** A decimal digit, by its code. *)
Definition isDigit (c : ascii) : bool :=
  (48 <=? Z.of_N (N_of_ascii c)) && (Z.of_N (N_of_ascii c) <=? 57).

(** A text of decimal digits only. *)
Fixpoint all_digits (s : string) : bool :=
  match s with
  | EmptyString => true
  | String c s' => isDigit c && all_digits s'
  end.

(** A text of one decimal digit or more. *)
Definition numeral (s : string) : bool :=
  negb (String.eqb s "") && all_digits s.

(** The integer that the digits spell after [acc]. *)
Fixpoint numeral_value_from (acc : Z) (s : string) : Z :=
  match s with
  | EmptyString => acc
  | String c s' =>
      numeral_value_from (acc * 10 + (Z.of_N (N_of_ascii c) - 48)) s'
  end.

Definition numeral_value (s : string) : Z := numeral_value_from 0 s.

(** The text of an integer: its digits, after a minus sign when [neg]. *)
Definition integer_token (neg : bool) (ds : string) : string :=
  if neg then String "-" ds else ds.

(** The number of that integer: the nearest number, and the zero of the sign
    written when the digits spell 0. *)
Definition integer_number (neg : bool) (ds : string) : number :=
  if numeral_value ds =? 0 then S754_zero neg
  else Num.ofZ (cond_Zopp neg (numeral_value ds)).

(** ** Binary fractions *)

(** The number [z / 2 ^ k]. *)
Definition scaled (z k : Z) : number :=
  binary_normalize prec emax z (- k) false.

(** The number [x / 2 ^ k], for a number whose exponent can be lowered
    by [k]. *)
Definition shifted (k : Z) (x : number) : number :=
  match x with
  | S754_finite s m e => S754_finite s m (e - k)
  | _ => x
  end.

(** The range of the fractions [a / 2 ^ k], [s / 2 ^ k] and [e / 2 ^ k]. *)
Definition scaledRange (a s e k : Z) : Range :=
  numRange (scaled a k) (scaled s k) (scaled e k).

(** The largest [k] with which every integer below 2^53, divided by
    [2 ^ k], is a number in the canonical form. *)
Definition max_scale : Z := 1022.

Definition two51 : Z := 2 ^ 51.

(** * Properties *)

(** ** Construction *)

(** C6: a provided argument that is not a number makes the constructor raise
    a type error naming a parameter that is at fault; otherwise the
    constructor returns the range of its arguments, with 0, 1 and 0 in place
    of an omitted start, step and end. *)
Theorem Range_new_validates (a s e : value) :
  (offending a || offending s || offending e = true ->
   exists p v,
     Range_new true a s e = Throw (TypeError (parameter_message p)) /\
     In (p, v) [("start", a); ("end", e); ("step", s)] /\
     offending v = true) /\
  (offending a || offending s || offending e = false ->
   Range_new true a s e =
     Ok {| start := default a Num.zero;
           step := default s Num.one;
           end_ := default e Num.zero |}).
Proof.
  unfold Range_new, default. fold (offending a) (offending s) (offending e).
  split; intros H.
  - destruct (offending a) eqn:Ha.
    { exists "start", a. simpl. auto. }
    destruct (offending e) eqn:He.
    { exists "end", e. simpl. auto. }
    destruct (offending s) eqn:Hs.
    { exists "step", s. simpl. auto 6. }
    discriminate H.
  - apply orb_false_elim in H as [H He].
    apply orb_false_elim in H as [Ha Hs].
    rewrite Ha, He, Hs. reflexivity.
Qed.

Lemma Range_new_validates_witness :
  (exists p v,
     Range_new true VNull (VString "a") VUndefined
       = Throw (TypeError (parameter_message p)) /\
     In (p, v) [("start", VNull); ("end", VUndefined); ("step", VString "a")] /\
     offending v = true) /\
  Range_new true VNull VUndefined (VNumber (Num.ofZ 5)) =
    Ok (numRange Num.zero Num.one (Num.ofZ 5)).
Proof.
  split.
  - apply (proj1 (Range_new_validates VNull (VString "a") VUndefined)).
    reflexivity.
  - apply (proj2 (Range_new_validates VNull VUndefined (VNumber (Num.ofZ 5)))).
    reflexivity.
Defined.

Lemma Range_new_numbers (a s e : number) :
  Range_new true (VNumber a) (VNumber s) (VNumber e) = Ok (numRange a s e).
Proof. reflexivity. Qed.

(** ** Parsing *)

Lemma split_not_nil (sep : ascii) (s : string) : split sep s <> [].
Proof. unfold split. destruct (split_tokens sep s). discriminate. Qed.

Lemma Range_parse_string (s : string) :
  Range_parse (VString s) =
    if existsb isNaN (List.map token_number (tokens s)) then Ok None
    else
      match List.map token_number (tokens s) with
      | [n0; n1] => Ok (Some (numRange n0 Num.one n1))
      | [n0; n1; n2] => Ok (Some (numRange n0 n1 n2))
      | _ => Ok None
      end.
Proof.
  unfold Range_parse, tokens, token_number. cbn [isString negb string_of].
  destruct (existsb _ _); [reflexivity|].
  destruct (List.map _ _) as [|n0 [|n1 [|n2 [|n3 l]]]]; reflexivity.
Qed.

(** C4: [Range.parse] gives [null] for an input that is not a string; a
    string of two numeric tokens gives the range of the first and the second
    with step 1, one of three numeric tokens the range of the three, and any
    other number of tokens gives [null]. *)
Theorem Range_parse_by_token_count :
  (forall v, isString v = false -> Range_parse v = Ok None) /\
  (forall s t0 t1,
     tokens s = [t0; t1] ->
     isNaN (token_number t0) = false -> isNaN (token_number t1) = false ->
     Range_parse (VString s) =
       Ok (Some (numRange (token_number t0) Num.one (token_number t1)))) /\
  (forall s t0 t1 t2,
     tokens s = [t0; t1; t2] ->
     isNaN (token_number t0) = false -> isNaN (token_number t1) = false ->
     isNaN (token_number t2) = false ->
     Range_parse (VString s) =
       Ok (Some (numRange (token_number t0) (token_number t1) (token_number t2)))) /\
  (forall s,
     List.length (tokens s) <> 2%nat -> List.length (tokens s) <> 3%nat ->
     Range_parse (VString s) = Ok None).
Proof.
  repeat split.
  - intros v H. unfold Range_parse. rewrite H. reflexivity.
  - intros s t0 t1 Ht H0 H1. rewrite Range_parse_string, Ht. simpl.
    rewrite H0, H1. reflexivity.
  - intros s t0 t1 t2 Ht H0 H1 H2. rewrite Range_parse_string, Ht. simpl.
    rewrite H0, H1, H2. reflexivity.
  - intros s H2 H3. rewrite Range_parse_string.
    destruct (existsb _ _); [reflexivity|].
    rewrite <- (length_map token_number) in H2, H3.
    destruct (List.map _ _) as [|n0 [|n1 [|n2 [|n3 l]]]];
      try reflexivity; simpl in *; congruence.
Qed.

Lemma Range_parse_by_token_count_witness :
  Range_parse (VNumber (Num.ofZ 42)) = Ok None /\
  Range_parse (VString "2:5") =
    Ok (Some (numRange (Num.ofZ 2) Num.one (Num.ofZ 5))) /\
  Range_parse (VString "2:-1:-2") =
    Ok (Some (numRange (Num.ofZ 2) (Num.ofZ (-1)) (Num.ofZ (-2)))) /\
  Range_parse (VString "1:2:3:4") = Ok None.
Proof.
  destruct Range_parse_by_token_count as (Hv & H2 & H3 & Hn).
  split; [|split; [|split]].
  - apply Hv. reflexivity.
  - apply (H2 "2:5" "2" "5"); reflexivity.
  - apply (H3 "2:-1:-2" "2" "-1" "-2"); reflexivity.
  - apply Hn; vm_compute; discriminate.
Defined.

Lemma existsb_isNaN_In (l : list string) (tok : string) :
  In tok l -> isNaN (token_number tok) = true ->
  existsb isNaN (List.map token_number l) = true.
Proof.
  intros Hin Hnan. apply existsb_exists. exists (token_number tok).
  split; [apply in_map, Hin | exact Hnan].
Qed.

(** C5, as amended: a token that converts to NaN makes [Range.parse] give
    [null]. *)
Theorem Range_parse_NaN_token (s tok : string) :
  In tok (tokens s) -> isNaN (token_number tok) = true ->
  Range_parse (VString s) = Ok None.
Proof.
  intros Hin Hnan. rewrite Range_parse_string.
  rewrite (existsb_isNaN_In _ _ Hin Hnan). reflexivity.
Qed.

Lemma Range_parse_NaN_token_witness :
  Range_parse (VString "abc:5") = Ok None.
Proof.
  apply (Range_parse_NaN_token "abc:5" "abc").
  - simpl. left. reflexivity.
  - reflexivity.
Defined.

(** C5, as stated, fails: the tokens [Infinity] and [1e999] convert to
    infinity, which is not NaN, and the text is parsed to a range. *)
Lemma Range_parse_accepts_infinite_token :
  (In "Infinity" (tokens "Infinity:1") /\
   isFinite (token_number "Infinity") = false /\
   Range_parse (VString "Infinity:1") =
     Ok (Some (numRange Num.infinity Num.one Num.one))) /\
  (In "1e999" (tokens "1e999:2") /\
   isFinite (token_number "1e999") = false /\
   Range_parse (VString "1e999:2") =
     Ok (Some (numRange Num.infinity Num.one (Num.ofZ 2)))) /\
  ~ (forall s tok,
       In tok (tokens s) -> isFinite (token_number tok) = false ->
       Range_parse (VString s) = Ok None).
Proof.
  split; [|split].
  - split; [left; reflexivity | split; reflexivity].
  - split; [left; reflexivity | split; vm_compute; reflexivity].
  - intros H. specialize (H "Infinity:1" "Infinity").
    discriminate H; [left|]; reflexivity.
Qed.

Lemma empty_as_zero_number (tok : string) :
  empty_as_zero tok = token_number tok.
Proof. destruct tok; reflexivity. Qed.

Lemma empty_or_numeric (tok : string) :
  tok = "" \/ isNaN (token_number tok) = false ->
  isNaN (token_number tok) = false.
Proof. intros [-> | H]; [reflexivity | exact H]. Qed.

(** C10: an empty token converts to 0 and does not make [Range.parse] give
    [null]; [parse("2:")] is the range 2, 1, 0 and [parse(":")] the range
    0, 1, 0. *)
Theorem Range_parse_empty_tokens :
  token_number "" = Num.zero /\
  Range_parse (VString "2:") = Ok (Some (numRange (Num.ofZ 2) Num.one Num.zero)) /\
  Range_parse (VString ":") = Ok (Some (numRange Num.zero Num.one Num.zero)) /\
  (forall s t0 t1,
     tokens s = [t0; t1] ->
     (t0 = "" \/ isNaN (token_number t0) = false) ->
     (t1 = "" \/ isNaN (token_number t1) = false) ->
     Range_parse (VString s) =
       Ok (Some (numRange (empty_as_zero t0) Num.one (empty_as_zero t1)))) /\
  (forall s t0 t1 t2,
     tokens s = [t0; t1; t2] ->
     (t0 = "" \/ isNaN (token_number t0) = false) ->
     (t1 = "" \/ isNaN (token_number t1) = false) ->
     (t2 = "" \/ isNaN (token_number t2) = false) ->
     Range_parse (VString s) =
       Ok (Some (numRange (empty_as_zero t0) (empty_as_zero t1) (empty_as_zero t2)))).
Proof.
  split; [reflexivity|]. split; [reflexivity|]. split; [reflexivity|].
  split.
  - intros s t0 t1 Ht H0 H1. apply empty_or_numeric in H0, H1.
    rewrite !empty_as_zero_number, Range_parse_string, Ht. simpl.
    rewrite H0, H1. reflexivity.
  - intros s t0 t1 t2 Ht H0 H1 H2. apply empty_or_numeric in H0, H1, H2.
    rewrite !empty_as_zero_number, Range_parse_string, Ht. simpl.
    rewrite H0, H1, H2. reflexivity.
Qed.

Lemma Range_parse_empty_tokens_witness :
  Range_parse (VString ":3:") =
    Ok (Some (numRange Num.zero (Num.ofZ 3) Num.zero)).
Proof.
  destruct Range_parse_empty_tokens as (_ & _ & _ & _ & H3).
  apply (H3 ":3:" "" "3" ""); [reflexivity | left | right | left]; reflexivity.
Defined.

(** ** Size *)

Lemma eqb_zero_inv (x : number) :
  Num.eqb x Num.zero = true -> exists b, x = S754_zero b.
Proof.
  destruct x as [b|b| |b m e]; try discriminate.
  - intros _. exists b. reflexivity.
  - destruct b; discriminate.
  - destruct b; discriminate.
Qed.

Lemma eqb_one_inv (x : number) : Num.eqb x Num.one = true -> x = Num.one.
Proof.
  destruct x as [b|b| |b m e]; try discriminate.
  - destruct b; discriminate.
  - unfold Num.eqb, SFeqb, SFcompare, Num.one. destruct b; [discriminate|].
    destruct (Z.compare_spec e (-52)) as [He| |]; try discriminate.
    destruct (Pos.compare_cont Eq m 4503599627370496) eqn:Hm; try discriminate.
    apply Pos.compare_eq in Hm. subst. reflexivity.
Qed.

Lemma eqb_finite_inv (s1 s2 : bool) (m1 m2 : positive) (e1 e2 : Z) :
  Num.eqb (S754_finite s1 m1 e1) (S754_finite s2 m2 e2) = true ->
  s1 = s2 /\ m1 = m2 /\ e1 = e2.
Proof.
  unfold Num.eqb, SFeqb, SFcompare.
  destruct s1, s2; try discriminate;
    destruct (Z.compare_spec e1 e2); try discriminate;
    destruct (Pos.compare_cont Eq m1 m2) eqn:Hm; try discriminate;
    apply Pos.compare_eq in Hm; subst; auto.
Qed.

(** The difference of two equal numbers is a zero, or NaN for two equal
    infinities. *)
Lemma sub_eqb (a e : number) :
  Num.eqb a e = true ->
  (exists b, Num.sub e a = S754_zero b) \/ Num.sub e a = Num.nan.
Proof.
  destruct a as [sa|sa| |sa ma ea], e as [se|se| |se me ee]; intros H;
    try discriminate H;
    try (destruct sa; discriminate H);
    try (destruct se; discriminate H).
  - left. destruct sa, se; simpl; eauto.
  - right. destruct sa, se; try discriminate; reflexivity.
  - apply eqb_finite_inv in H as (-> & -> & ->). left. exists false.
    unfold Num.sub, SFsub. rewrite Z.sub_diag. reflexivity.
Qed.

Lemma Range_size_zero_step (a e : number) (b : bool) :
  Range_size (numRange a (S754_zero b) e) = [Num.zero].
Proof.
  unfold Range_size, numRange; simpl.
  destruct (Num.sub e a) as [sd|sd| |sd md ed], b; try destruct sd; reflexivity.
Qed.

(** C1, as amended: with [diff = end - start], the length is
    [floor(diff / step) + 1] when the signs of [step] and [diff] agree, else 1
    when [diff == 0], which needs a step that is not zero, else 0; a length
    that is not a number becomes 0, and this is what happens with a step of 0
    and [start == end]. *)
Theorem Range_size_cases (a s e : number) :
  let diff := Num.sub e a in
  (Num.eqb (math.sign s) (math.sign diff) = true ->
   Range_size (numRange a s e) =
     [NaN_to_zero (Num.add (Math.floor (Num.div diff s)) Num.one)]) /\
  (Num.eqb (math.sign s) (math.sign diff) = false ->
   Num.eqb diff Num.zero = true ->
   Range_size (numRange a s e) = [Num.one] /\ Num.eqb s Num.zero = false) /\
  (Num.eqb (math.sign s) (math.sign diff) = false ->
   Num.eqb diff Num.zero = false ->
   Range_size (numRange a s e) = [Num.zero]) /\
  (Num.eqb s Num.zero = true -> Num.eqb a e = true ->
   Num.eqb (math.sign s) (math.sign diff) = true /\
   Range_size (numRange a s e) = [Num.zero]).
Proof.
  intros diff. unfold Range_size, numRange; simpl. fold diff.
  split; [|split; [|split]].
  - intros ->. reflexivity.
  - intros Hs Hd. rewrite Hs, Hd. split; [reflexivity|].
    destruct (Num.eqb s Num.zero) eqn:Hz; [|reflexivity].
    apply eqb_zero_inv in Hz as [b ->]. apply eqb_zero_inv in Hd as [b' Hd].
    rewrite Hd in Hs. destruct b; discriminate Hs.
  - intros Hs Hd. rewrite Hs, Hd. reflexivity.
  - intros Hz Hae. apply eqb_zero_inv in Hz as [b ->].
    pose proof (Range_size_zero_step a e b) as Hsz.
    unfold Range_size, numRange in Hsz; simpl in Hsz. fold diff in Hsz.
    split; [|exact Hsz].
    destruct (sub_eqb a e Hae) as [[b' Hd] | Hd]; fold diff in Hd; rewrite Hd;
      destruct b; reflexivity.
Qed.

Lemma Range_size_cases_witness :
  Range_size (numRange (Num.ofZ 2) Num.one (Num.ofZ 5)) = [Num.ofZ 4] /\
  Range_size (numRange (Num.ofZ 3) Num.one (Num.ofZ 3)) = [Num.one] /\
  Range_size (numRange (Num.ofZ 5) Num.one (Num.ofZ 2)) = [Num.zero] /\
  Range_size (numRange (Num.ofZ 3) Num.zero (Num.ofZ 3)) = [Num.zero].
Proof.
  split; [|split; [|split]].
  - apply (proj1 (Range_size_cases (Num.ofZ 2) Num.one (Num.ofZ 5))).
    reflexivity.
  - apply (proj1 (proj2 (Range_size_cases (Num.ofZ 3) Num.one (Num.ofZ 3))));
      reflexivity.
  - apply (proj1 (proj2 (proj2 (Range_size_cases (Num.ofZ 5) Num.one (Num.ofZ 2)))));
      reflexivity.
  - apply (proj2 (proj2 (proj2 (Range_size_cases (Num.ofZ 3) Num.zero (Num.ofZ 3)))));
      reflexivity.
Defined.

(** C1, as stated, fails: with a step of 0 and [start == end] the signs of
    [step] and [diff] agree, the length [floor(0 / 0) + 1] is not a number,
    and [size()] is [[0]], not [[1]]. *)
Lemma Range_size_zero_step_same_ends :
  let r := numRange Num.zero Num.zero Num.zero in
  Num.eqb (Number (step r)) Num.zero = true /\
  Num.eqb (Number (start r)) (Number (end_ r)) = true /\
  isNaN (Num.add (Math.floor (Num.div Num.zero Num.zero)) Num.one) = true /\
  Range_size r = [Num.zero] /\
  Range_size r <> [Num.one].
Proof.
  cbv zeta. repeat (split; [reflexivity|]). discriminate.
Qed.

(** ** Traversal *)

Section WhileLoop.

Context {S : Type}.
Variable callback : number -> number -> Range -> S -> S.
Variable guard : number -> bool.
Variable this : Range.
Variables a s : number.

Lemma Range_while_O (x i : number) (st : S) :
  Range_while callback guard this s 0 x i st =
    if guard x then Running st else Returned st.
Proof. reflexivity. Qed.

Lemma Range_while_S (fuel : nat) (x i : number) (st : S) :
  Range_while callback guard this s (Datatypes.S fuel) x i st =
    if guard x then
      Range_while callback guard this s fuel
        (Num.add x s) (Num.add i Num.one) (callback x i this st)
    else Returned st.
Proof. reflexivity. Qed.

Lemma value_at_S (k : nat) : value_at a s (Datatypes.S k) = Num.add (value_at a s k) s.
Proof. reflexivity. Qed.

Lemma index_at_S (k : nat) : index_at (Datatypes.S k) = Num.add (index_at k) Num.one.
Proof. reflexivity. Qed.

Lemma invocations_S (n : nat) :
  invocations a s (Datatypes.S n) =
    (invocations a s n ++ [(value_at a s n, index_at n)])%list.
Proof.
  unfold invocations. rewrite seq_S, map_app. reflexivity.
Qed.

Lemma invoke_snoc (l : list (number * number)) (x i : number) (st : S) :
  invoke callback this (l ++ [(x, i)])%list st =
    callback x i this (invoke callback this l st).
Proof. unfold invoke. rewrite fold_left_app. reflexivity. Qed.

(** The loop entered after [j] invocations, with the guard true for the
    next [n] values and false for the one after, leaves after [j + n]
    invocations. *)
Lemma Range_while_returns (n : nat) :
  forall (j fuel : nat) (s0 : S),
    (forall k, (j <= k < j + n)%nat -> guard (value_at a s k) = true) ->
    guard (value_at a s (j + n)) = false ->
    (n <= fuel)%nat ->
    Range_while callback guard this s fuel (value_at a s j) (index_at j)
      (invoke callback this (invocations a s j) s0) =
    Returned (invoke callback this (invocations a s (j + n)) s0).
Proof.
  induction n as [|n IH]; intros j fuel s0 Hin Hout Hfuel.
  - rewrite Nat.add_0_r in *. destruct fuel; simpl; rewrite Hout; reflexivity.
  - destruct fuel as [|fuel]; [lia|].
    rewrite Range_while_S, Hin by lia.
    rewrite <- value_at_S, <- index_at_S, <- invoke_snoc, <- invocations_S.
    replace (j + Datatypes.S n)%nat with (Datatypes.S j + n)%nat in * by lia.
    apply IH; [intros k Hk; apply Hin; lia | exact Hout | lia].
Qed.

(** With the guard true for the next [fuel + 1] values, the loop is still
    running after [fuel] more invocations. *)
Lemma Range_while_running (fuel : nat) :
  forall (j : nat) (s0 : S),
    (forall k, (j <= k <= j + fuel)%nat -> guard (value_at a s k) = true) ->
    Range_while callback guard this s fuel (value_at a s j) (index_at j)
      (invoke callback this (invocations a s j) s0) =
    Running (invoke callback this (invocations a s (j + fuel)) s0).
Proof.
  induction fuel as [|fuel IH]; intros j s0 Hin.
  - rewrite Nat.add_0_r, Range_while_O, Hin by lia. reflexivity.
  - rewrite Range_while_S, Hin by lia.
    rewrite <- value_at_S, <- index_at_S, <- invoke_snoc, <- invocations_S.
    replace (j + Datatypes.S fuel)%nat with (Datatypes.S j + fuel)%nat in * by lia.
    apply IH. intros k Hk. apply Hin. lia.
Qed.

End WhileLoop.

Lemma gtb_ltb_zero (s : number) :
  Num.gtb s Num.zero = true -> Num.ltb s Num.zero = false.
Proof. destruct s as [b|b| |b m e]; try destruct b; cbv; congruence. Qed.

Lemma eqb_zero_no_direction (s : number) :
  Num.eqb s Num.zero = true ->
  Num.gtb s Num.zero = false /\ Num.ltb s Num.zero = false.
Proof. intros H. apply eqb_zero_inv in H as [b ->]. split; reflexivity. Qed.

Section ForEachProperties.

Context {S : Type}.
Variable callback : number -> number -> Range -> S -> S.
Variables a s e : number.

Let r : Range := numRange a s e.

Lemma Range_forEach_up :
  Num.gtb s Num.zero = true ->
  forall fuel s0,
    Range_forEach callback fuel r s0 =
      Range_while callback (fun x => Num.leb x e) r s fuel a Num.zero s0.
Proof. intros H fuel s0. unfold Range_forEach; simpl. rewrite H. reflexivity. Qed.

Lemma Range_forEach_down :
  Num.ltb s Num.zero = true ->
  forall fuel s0,
    Range_forEach callback fuel r s0 =
      Range_while callback (fun x => Num.geb x e) r s fuel a Num.zero s0.
Proof.
  intros H fuel s0. unfold Range_forEach; simpl. rewrite H.
  destruct (Num.gtb s Num.zero) eqn:Hg; [|reflexivity].
  apply gtb_ltb_zero in Hg. congruence.
Qed.

Lemma Range_forEach_no_direction :
  Num.gtb s Num.zero = false -> Num.ltb s Num.zero = false ->
  forall fuel s0, Range_forEach callback fuel r s0 = Returned s0.
Proof.
  intros Hg Hl fuel s0. unfold Range_forEach; simpl. rewrite Hg, Hl.
  reflexivity.
Qed.

Lemma Range_forEach_returns (n : nat) :
  Num.gtb s Num.zero = true \/ Num.ltb s Num.zero = true ->
  (forall k, (k < n)%nat -> continues s e (value_at a s k) = true) ->
  continues s e (value_at a s n) = false ->
  forall fuel s0, (n <= fuel)%nat ->
    Range_forEach callback fuel r s0 =
      Returned (invoke callback r (invocations a s n) s0).
Proof.
  unfold continues. intros Hdir Hin Hout fuel s0 Hfuel.
  destruct (Num.gtb s Num.zero) eqn:Hg.
  - rewrite Range_forEach_up by exact Hg.
    apply (Range_while_returns callback _ r a s n 0 fuel s0); auto.
    intros k Hk. apply Hin. lia.
  - destruct Hdir as [Hdir | Hl]; [discriminate|].
    rewrite Range_forEach_down by exact Hl.
    apply (Range_while_returns callback _ r a s n 0 fuel s0); auto.
    intros k Hk. apply Hin. lia.
Qed.

Lemma Range_forEach_running (fuel : nat) :
  Num.gtb s Num.zero = true \/ Num.ltb s Num.zero = true ->
  (forall k, (k <= fuel)%nat -> continues s e (value_at a s k) = true) ->
  forall s0,
    Range_forEach callback fuel r s0 =
      Running (invoke callback r (invocations a s fuel) s0).
Proof.
  unfold continues. intros Hdir Hin s0.
  destruct (Num.gtb s Num.zero) eqn:Hg.
  - rewrite Range_forEach_up by exact Hg.
    apply (Range_while_running callback _ r a s fuel 0 s0).
    intros k Hk. apply Hin. lia.
  - destruct Hdir as [Hdir | Hl]; [discriminate|].
    rewrite Range_forEach_down by exact Hl.
    apply (Range_while_running callback _ r a s fuel 0 s0).
    intros k Hk. apply Hin. lia.
Qed.

End ForEachProperties.

(** ** Exact arithmetic on integers

    An integer below 2^53 in magnitude is a number; sums, differences and
    comparisons of such integers are exact as long as the result stays below
    2^53. *)

Lemma two53_double : two53 = 2 * two52.
Proof. reflexivity. Qed.

Section Digits.

Lemma digits2_pos_size (m : positive) : digits2_pos m = Pos.size m.
Proof. induction m; simpl; congruence. Qed.

Lemma digits2_pos_log2 (m : positive) :
  Zpos (digits2_pos m) = Z.log2 (Zpos m) + 1.
Proof.
  rewrite digits2_pos_size.
  destruct m; simpl; rewrite ?Pos2Z.inj_succ; lia.
Qed.

Lemma digits2_pos_bounds (m : positive) :
  2 ^ (Zpos (digits2_pos m) - 1) <= Zpos m < 2 ^ Zpos (digits2_pos m).
Proof.
  rewrite digits2_pos_log2.
  replace (Z.log2 (Zpos m) + 1 - 1) with (Z.log2 (Zpos m)) by lia.
  apply Z.log2_spec. lia.
Qed.

Lemma digits2_pos_unique (m : positive) (d : Z) :
  2 ^ (d - 1) <= Zpos m < 2 ^ d -> Zpos (digits2_pos m) = d.
Proof.
  intros H. rewrite digits2_pos_log2.
  assert (0 < d).
  { destruct (Z_lt_le_dec 0 d) as [|Hd]; [assumption|].
    destruct (Z.eq_dec d 0) as [->|].
    - simpl in H. lia.
    - rewrite (Z.pow_neg_r 2 d) in H by lia. lia. }
  rewrite (Z.log2_unique (Zpos m) (d - 1)); [lia | lia |].
  replace (Z.succ (d - 1)) with d by lia. exact H.
Qed.

Lemma digits2_pos_shift (m m' : positive) (k : Z) :
  0 <= k -> Zpos m' = Zpos m * 2 ^ k ->
  Zpos (digits2_pos m') = Zpos (digits2_pos m) + k.
Proof.
  intros Hk Hm. apply digits2_pos_unique.
  pose proof (digits2_pos_bounds m) as [Hlo Hhi].
  assert (0 < Zpos (digits2_pos m)) by lia.
  replace (Zpos (digits2_pos m) + k - 1)
    with ((Zpos (digits2_pos m) - 1) + k) by lia.
  rewrite !Z.pow_add_r by lia. rewrite Hm.
  assert (0 < 2 ^ k) by (apply Z.pow_pos_nonneg; lia).
  split; [apply Z.mul_le_mono_nonneg_r | apply Z.mul_lt_mono_pos_r]; lia.
Qed.

Lemma iter_xO (m d : positive) :
  Zpos (Pos.iter xO m d) = Zpos m * 2 ^ Zpos d.
Proof.
  pose proof (shift_pos_correct d m) as H. unfold shift_pos in H.
  rewrite H. change (Z.pow_pos 2 d) with (2 ^ Zpos d). lia.
Qed.

End Digits.

Section Rounding.

Lemma iter_pos_nat {A : Type} (f : A -> A) (p : positive) :
  forall x, iter_pos f p x = Nat.iter (Pos.to_nat p) f x.
Proof.
  induction p as [p IH|p IH|]; intros x; cbn [iter_pos].
  - rewrite !IH, Pos2Nat.inj_xI.
    replace (Datatypes.S (2 * Pos.to_nat p))
      with (Pos.to_nat p + Datatypes.S (Pos.to_nat p))%nat by lia.
    rewrite Nat.iter_add, Nat.iter_succ_r. reflexivity.
  - rewrite !IH, Pos2Nat.inj_xO.
    replace (2 * Pos.to_nat p)%nat with (Pos.to_nat p + Pos.to_nat p)%nat by lia.
    rewrite Nat.iter_add. reflexivity.
  - reflexivity.
Qed.

Lemma shr_1_double (z : Z) :
  0 < z ->
  shr_1 {| shr_m := 2 * z; shr_r := false; shr_s := false |} =
    {| shr_m := z; shr_r := false; shr_s := false |}.
Proof. destruct z; [lia | reflexivity | lia]. Qed.

Lemma iter_shr_1_exact (n : nat) :
  forall z, 0 < z ->
    Nat.iter n shr_1
      {| shr_m := z * 2 ^ Z.of_nat n; shr_r := false; shr_s := false |} =
      {| shr_m := z; shr_r := false; shr_s := false |}.
Proof.
  induction n as [|n IH]; intros z Hz.
  - simpl. f_equal. lia.
  - rewrite Nat.iter_succ_r, Nat2Z.inj_succ, Z.pow_succ_r by lia.
    replace (z * (2 * 2 ^ Z.of_nat n)) with (2 * (z * 2 ^ Z.of_nat n)) by lia.
    rewrite shr_1_double; [apply IH, Hz|].
    apply Z.mul_pos_pos; [lia | apply Z.pow_pos_nonneg; lia].
Qed.

Lemma canonical_fexp (m : positive) (e : Z) :
  canonical_mantissa prec emax m e = true ->
  fexp prec emax (Zpos (digits2_pos m) + e) = e.
Proof. unfold canonical_mantissa. apply Z.eqb_eq. Qed.

(** A canonical mantissa needs no rounding. *)
Lemma binary_round_aux_canonical (sx : bool) (m : positive) (e : Z) :
  canonical_mantissa prec emax m e = true -> e <= emax - prec ->
  binary_round_aux prec emax sx (Zpos m) e loc_Exact = S754_finite sx m e.
Proof.
  intros Hc He. unfold binary_round_aux, shr_fexp. simpl Zdigits2.
  rewrite canonical_fexp, Z.sub_diag by exact Hc.
  cbn [shr shr_record_of_loc shr_m shr_r shr_s round_nearest_even
       loc_of_shr_record Zdigits2].
  rewrite canonical_fexp, Z.sub_diag by exact Hc.
  cbn [shr shr_m].
  apply Z.leb_le in He. rewrite He. reflexivity.
Qed.

(** Rounding a mantissa that has to be shifted to the left, or not at
    all. *)
Lemma binary_round_shl (sx : bool) (m m' : positive) (e e' : Z) :
  e' <= e -> Zpos m' = Zpos m * 2 ^ (e - e') ->
  canonical_mantissa prec emax m' e' = true -> e' <= emax - prec ->
  binary_round prec emax sx m e = S754_finite sx m' e'.
Proof.
  intros Hle Hm Hc He. unfold binary_round.
  assert (Hd : Zpos (digits2_pos m') = Zpos (digits2_pos m) + (e - e'))
    by (apply digits2_pos_shift; [lia | exact Hm]).
  assert (Hf : fexp prec emax (Zpos (digits2_pos m) + e) = e').
  { rewrite <- (canonical_fexp m' e' Hc). f_equal. lia. }
  rewrite Hf. clear Hf Hd. unfold shl_align.
  destruct (e' - e) as [|p|p] eqn:Hp; try lia.
  - assert (e = e') by lia. subst e'. rewrite Z.sub_diag in Hm.
    assert (m' = m) by (simpl in Hm; lia). subst m'.
    apply binary_round_aux_canonical; assumption.
  - replace (Pos.iter xO m p) with m'.
    + apply binary_round_aux_canonical; assumption.
    + apply Pos2Z.inj. rewrite iter_xO, Hm. f_equal. f_equal. lia.
Qed.

(** Rounding a mantissa whose low bits, to be shifted out, are zero. *)
Lemma binary_round_shr (sx : bool) (m m' : positive) (e e' : Z) :
  e < e' -> Zpos m = Zpos m' * 2 ^ (e' - e) ->
  canonical_mantissa prec emax m' e' = true -> e' <= emax - prec ->
  binary_round prec emax sx m e = S754_finite sx m' e'.
Proof.
  intros Hlt Hm Hc He. unfold binary_round.
  assert (Hd : Zpos (digits2_pos m) = Zpos (digits2_pos m') + (e' - e))
    by (apply digits2_pos_shift; [lia | exact Hm]).
  assert (Hf : fexp prec emax (Zpos (digits2_pos m) + e) = e').
  { rewrite <- (canonical_fexp m' e' Hc). f_equal. lia. }
  rewrite Hf. unfold shl_align.
  destruct (e' - e) as [|p|p] eqn:Hp; try lia.
  unfold binary_round_aux, shr_fexp. simpl Zdigits2.
  rewrite Hf, Hp. unfold shr. simpl shr_record_of_loc.
  rewrite iter_pos_nat, Hm, <- (positive_nat_Z p), iter_shr_1_exact by lia.
  cbn [shr shr_record_of_loc shr_m shr_r shr_s round_nearest_even
       loc_of_shr_record Zdigits2].
  replace (e + Z.of_nat (Pos.to_nat p)) with e' by lia.
  rewrite canonical_fexp, Z.sub_diag by exact Hc.
  cbn [shr shr_m].
  apply Z.leb_le in He. rewrite He. reflexivity.
Qed.

End Rounding.

Section Scaling.

Lemma binary_round_aligned (sx : bool) (m : positive) (e : Z) :
  binary_round prec emax sx m e =
    finish sx (aligned m e (fexp prec emax (Zpos (digits2_pos m) + e))).
Proof.
  unfold binary_round, aligned.
  set (E := fexp prec emax (Zpos (digits2_pos m) + e)).
  unfold shl_align.
  destruct (Z.leb_spec E e) as [Hle|Hgt].
  - assert (exists mz, Zpos mz = Zpos m * 2 ^ (e - E) /\
              (let '(mz', ez) :=
                 match E - e with
                 | Zneg d => (Pos.iter xO m d, E)
                 | _ => (m, e)
                 end in
               binary_round_aux prec emax sx (Zpos mz') ez loc_Exact) =
              binary_round_aux prec emax sx (Zpos mz) E loc_Exact)
      as (mz & Hmz & ->).
    { destruct (E - e) as [|p|p] eqn:Hp; try lia.
      - exists m. replace (e - E) with 0 by lia. replace e with E by lia.
        split; [simpl; lia | reflexivity].
      - exists (Pos.iter xO m p). rewrite iter_xO.
        replace (e - E) with (Zpos p) by lia. split; reflexivity. }
    unfold binary_round_aux, finish, shr_fexp at 1. simpl Zdigits2.
    rewrite (digits2_pos_shift m mz (e - E)) by (try assumption; lia).
    replace (Zpos (digits2_pos m) + (e - E) + E) with (Zpos (digits2_pos m) + e)
      by lia.
    fold E. rewrite Z.sub_diag. cbn [shr shr_record_of_loc]. rewrite Hmz.
    reflexivity.
  - destruct (E - e) as [|p|p] eqn:Hp; try lia.
    unfold binary_round_aux, finish, shr_fexp at 1. simpl Zdigits2.
    fold E. rewrite Hp. cbn [shr shr_record_of_loc].
    rewrite iter_pos_nat. replace (e + Zpos p) with E by lia.
    reflexivity.
Qed.

Lemma aligned_scale (m m' : positive) (e k E : Z) :
  0 <= k -> Zpos m' = Zpos m * 2 ^ k ->
  aligned m' (e - k) E = aligned m e E.
Proof.
  intros Hk Hm. unfold aligned.
  destruct (Z.leb_spec E (e - k)) as [H1|H1];
    destruct (Z.leb_spec E e) as [H2|H2]; try lia.
  - rewrite Hm, <- Z.mul_assoc, <- Z.pow_add_r by lia.
    replace (k + (e - k - E)) with (e - E) by lia. reflexivity.
  - f_equal.
    replace (Zpos m') with ((Zpos m * 2 ^ (e - E)) * 2 ^ Z.of_nat (Z.to_nat (E - (e - k)))).
    + apply iter_shr_1_exact.
      apply Z.mul_pos_pos; [lia | apply Z.pow_pos_nonneg; lia].
    + rewrite Z2Nat.id, Hm, <- Z.mul_assoc, <- Z.pow_add_r by lia.
      replace (e - E + (E - (e - k))) with k by lia. reflexivity.
  - f_equal.
    replace (Z.to_nat (E - (e - k))) with (Z.to_nat (E - e) + Z.to_nat k)%nat
      by lia.
    rewrite Nat.iter_add. f_equal.
    rewrite Hm.
    replace (2 ^ k) with (2 ^ Z.of_nat (Z.to_nat k))
      by (rewrite Z2Nat.id; [reflexivity | lia]).
    apply iter_shr_1_exact. lia.
Qed.

(** Rounding depends on the value only: zero bits appended to the mantissa,
    with the exponent lowered as much, change nothing. *)
Lemma binary_round_scale (sx : bool) (m m' : positive) (e k : Z) :
  0 <= k -> Zpos m' = Zpos m * 2 ^ k ->
  binary_round prec emax sx m' (e - k) = binary_round prec emax sx m e.
Proof.
  intros Hk Hm. rewrite !binary_round_aligned.
  rewrite (digits2_pos_shift m m' k) by assumption.
  replace (Zpos (digits2_pos m) + k + (e - k)) with (Zpos (digits2_pos m) + e)
    by lia.
  rewrite (aligned_scale m m' e k) by assumption. reflexivity.
Qed.

Lemma binary_normalize_scale (z k : Z) (s : bool) :
  0 <= k ->
  binary_normalize prec emax (z * 2 ^ k) (- k) s = binary_normalize prec emax z 0 s.
Proof.
  intros Hk.
  assert (Hp : 0 < 2 ^ k) by (apply Z.pow_pos_nonneg; lia).
  destruct z as [|z|z].
  - reflexivity.
  - destruct (Zpos z * 2 ^ k) as [|m|m] eqn:Hm; try lia.
    apply (binary_round_scale false z m 0 k); [assumption | lia].
  - destruct (Zneg z * 2 ^ k) as [|m|m] eqn:Hm; try lia.
    apply (binary_round_scale true z m 0 k); [assumption | lia].
Qed.

End Scaling.

Section Integers.

Lemma digits2_pos_le_53 (z : positive) :
  Zpos z < two53 -> 1 <= Zpos (digits2_pos z) <= 53.
Proof.
  intros Hz. pose proof (digits2_pos_bounds z) as [Hlo _].
  split; [lia|].
  destruct (Z_lt_le_dec 53 (Zpos (digits2_pos z))) as [Hd|]; [|lia].
  assert (2 ^ 53 <= 2 ^ (Zpos (digits2_pos z) - 1))
    by (apply Z.pow_le_mono_r; lia).
  unfold two53 in Hz. lia.
Qed.

Lemma mantissa_of_spec (z : positive) :
  Zpos z < two53 ->
  Zpos (mantissa_of z) = Zpos z * 2 ^ (53 - Zpos (digits2_pos z)).
Proof.
  intros Hz. pose proof (digits2_pos_le_53 z Hz).
  unfold mantissa_of. rewrite Z2Pos.id; [reflexivity|].
  apply Z.mul_pos_pos; [lia | apply Z.pow_pos_nonneg; lia].
Qed.

Lemma canonical_of (z : positive) :
  Zpos z < two53 ->
  canonical_mantissa prec emax (mantissa_of z) (exponent_of z) = true.
Proof.
  intros Hz. pose proof (digits2_pos_le_53 z Hz).
  unfold canonical_mantissa. apply Z.eqb_eq.
  rewrite (digits2_pos_shift z (mantissa_of z) (53 - Zpos (digits2_pos z)))
    by (try apply mantissa_of_spec; lia).
  unfold exponent_of, fexp, emin, prec, emax. lia.
Qed.

(** Rounding an integer below 2^53 that carries [k] more zero bits. *)
Lemma binary_round_scaled (sx : bool) (m z : positive) (k : Z) :
  0 <= k -> Zpos m = Zpos z * 2 ^ k -> Zpos z < two53 ->
  binary_round prec emax sx m (- k) =
    S754_finite sx (mantissa_of z) (exponent_of z).
Proof.
  intros Hk Hm Hz. pose proof (digits2_pos_le_53 z Hz) as Hd.
  pose proof (mantissa_of_spec z Hz) as Hmz.
  pose proof (canonical_of z Hz) as Hc.
  assert (He : exponent_of z <= emax - prec)
    by (unfold exponent_of, emax, prec; lia).
  destruct (Z_le_gt_dec (exponent_of z) (- k)) as [Hle|Hgt].
  - apply binary_round_shl; try assumption.
    rewrite Hmz, Hm, <- Z.mul_assoc, <- Z.pow_add_r
      by (unfold exponent_of in *; lia).
    f_equal. f_equal. unfold exponent_of. lia.
  - apply binary_round_shr; try assumption; [lia|].
    rewrite Hmz, Hm, <- Z.mul_assoc, <- Z.pow_add_r
      by (unfold exponent_of in *; lia).
    f_equal. f_equal. unfold exponent_of. lia.
Qed.

Lemma ofZ_pos (z : positive) :
  Zpos z < two53 ->
  Num.ofZ (Zpos z) = S754_finite false (mantissa_of z) (exponent_of z).
Proof.
  intros Hz. unfold Num.ofZ, binary_normalize.
  apply (binary_round_scaled false z z 0); [lia | simpl; lia | exact Hz].
Qed.

Lemma ofZ_neg (z : positive) :
  Zpos z < two53 ->
  Num.ofZ (Zneg z) = S754_finite true (mantissa_of z) (exponent_of z).
Proof.
  intros Hz. unfold Num.ofZ, binary_normalize.
  apply (binary_round_scaled true z z 0); [lia | simpl; lia | exact Hz].
Qed.

Lemma fst_shl_align (m : positive) (e e' : Z) :
  e' <= e -> Zpos (fst (shl_align m e e')) = Zpos m * 2 ^ (e - e').
Proof.
  intros Hle. unfold shl_align.
  destruct (e' - e) as [|p|p] eqn:Hp; try lia; simpl fst.
  - replace (e - e') with 0 by lia. simpl. lia.
  - rewrite iter_xO. f_equal. f_equal. lia.
Qed.

(** The integer a finite number of the canonical form stands for is
    recovered when its mantissa is aligned to a lower exponent. *)
Lemma aligned_mantissa (z : positive) (ez : Z) :
  Zpos z < two53 -> ez <= exponent_of z ->
  Zpos (fst (shl_align (mantissa_of z) (exponent_of z) ez)) =
    Zpos z * 2 ^ (- ez).
Proof.
  intros Hz Hle. pose proof (digits2_pos_le_53 z Hz) as Hd.
  rewrite fst_shl_align, mantissa_of_spec by assumption.
  rewrite <- Z.mul_assoc, <- Z.pow_add_r by (unfold exponent_of in *; lia).
  f_equal. f_equal. unfold exponent_of. lia.
Qed.

Lemma exponent_of_nonpos (z : positive) :
  Zpos z < two53 -> exponent_of z <= 0.
Proof.
  intros Hz. pose proof (digits2_pos_le_53 z Hz). unfold exponent_of. lia.
Qed.

Lemma add_finite_exact (sa sb : bool) (a b : positive) :
  Zpos a < two53 -> Zpos b < two53 ->
  Num.add (S754_finite sa (mantissa_of a) (exponent_of a))
          (S754_finite sb (mantissa_of b) (exponent_of b)) =
    Num.ofZ (cond_Zopp sa (Zpos a) + cond_Zopp sb (Zpos b)).
Proof.
  intros Ha Hb.
  pose proof (exponent_of_nonpos a Ha). pose proof (exponent_of_nonpos b Hb).
  unfold Num.add, SFadd.
  set (ez := Z.min (exponent_of a) (exponent_of b)).
  rewrite !aligned_mantissa by (try assumption; unfold ez; lia).
  unfold Num.ofZ.
  rewrite <- (binary_normalize_scale (cond_Zopp sa (Zpos a) + cond_Zopp sb (Zpos b)) (- ez))
    by (unfold ez; lia).
  rewrite Z.opp_involutive. f_equal.
  destruct sa, sb; unfold cond_Zopp; lia.
Qed.

Lemma sub_finite_exact (sa sb : bool) (a b : positive) :
  Zpos a < two53 -> Zpos b < two53 ->
  Num.sub (S754_finite sa (mantissa_of a) (exponent_of a))
          (S754_finite sb (mantissa_of b) (exponent_of b)) =
    Num.ofZ (cond_Zopp sa (Zpos a) - cond_Zopp sb (Zpos b)).
Proof.
  intros Ha Hb.
  pose proof (exponent_of_nonpos a Ha). pose proof (exponent_of_nonpos b Hb).
  unfold Num.sub, SFsub.
  set (ez := Z.min (exponent_of a) (exponent_of b)).
  rewrite !aligned_mantissa by (try assumption; unfold ez; lia).
  unfold Num.ofZ.
  rewrite <- (binary_normalize_scale (cond_Zopp sa (Zpos a) - cond_Zopp sb (Zpos b)) (- ez))
    by (unfold ez; lia).
  rewrite Z.opp_involutive. f_equal.
  destruct sa, sb; unfold cond_Zopp; lia.
Qed.

(** The form of the number of a non-zero integer. *)
Lemma ofZ_finite (z : Z) :
  z <> 0 -> Z.abs z < two53 ->
  Num.ofZ z =
    S754_finite (z <? 0) (mantissa_of (Z.to_pos (Z.abs z)))
      (exponent_of (Z.to_pos (Z.abs z))) /\
  cond_Zopp (z <? 0) (Zpos (Z.to_pos (Z.abs z))) = z /\
  Zpos (Z.to_pos (Z.abs z)) < two53.
Proof.
  intros Hz Hb. destruct z as [|z|z]; [congruence| |].
  - change (Z.to_pos (Z.abs (Zpos z))) with z.
    change (Zpos z <? 0) with false.
    change (Z.abs (Zpos z)) with (Zpos z) in Hb.
    rewrite ofZ_pos by exact Hb. auto.
  - change (Z.to_pos (Z.abs (Zneg z))) with z.
    change (Zneg z <? 0) with true.
    change (Z.abs (Zneg z)) with (Zpos z) in Hb.
    rewrite ofZ_neg by exact Hb. auto.
Qed.

(** The number of an integer below 2^53 is a valid one. *)
Lemma valid_ofZ (z : Z) : Z.abs z < two53 -> Num.valid (Num.ofZ z) = true.
Proof.
  intros Hz. destruct (Z.eq_dec z 0) as [->|Hnz]; [reflexivity|].
  destruct (ofZ_finite z Hnz Hz) as (-> & _ & Hb).
  unfold Num.valid, valid_binary, bounded.
  rewrite canonical_of by exact Hb.
  pose proof (exponent_of_nonpos _ Hb).
  apply Z.leb_le. unfold emax, prec. lia.
Qed.

(** The sum of two integers below 2^53 is their sum as an integer, rounded
    when it does not fit. *)
Lemma add_exact (a b : Z) :
  Z.abs a < two53 -> Z.abs b < two53 ->
  Num.add (Num.ofZ a) (Num.ofZ b) = Num.ofZ (a + b).
Proof.
  intros Ha Hb.
  destruct (Z.eq_dec a 0) as [->|Hna]; destruct (Z.eq_dec b 0) as [->|Hnb].
  - reflexivity.
  - destruct (ofZ_finite b Hnb Hb) as (Eb & _ & _). rewrite Z.add_0_l, Eb.
    reflexivity.
  - destruct (ofZ_finite a Hna Ha) as (Ea & _ & _). rewrite Z.add_0_r, Ea.
    reflexivity.
  - destruct (ofZ_finite a Hna Ha) as (Ea & Va & Ba).
    destruct (ofZ_finite b Hnb Hb) as (Eb & Vb & Bb).
    rewrite Ea, Eb, add_finite_exact; rewrite ?Va, ?Vb; auto.
Qed.

(** So is their difference. *)
Lemma sub_exact (a b : Z) :
  Z.abs a < two53 -> Z.abs b < two53 ->
  Num.sub (Num.ofZ a) (Num.ofZ b) = Num.ofZ (a - b).
Proof.
  intros Ha Hb.
  destruct (Z.eq_dec a 0) as [->|Hna]; destruct (Z.eq_dec b 0) as [->|Hnb].
  - reflexivity.
  - destruct b as [|b|b]; [congruence| |].
    + change (0 - Zpos b) with (Zneg b).
      rewrite ofZ_pos, ofZ_neg by exact Hb. reflexivity.
    + change (0 - Zneg b) with (Zpos b).
      rewrite ofZ_pos, ofZ_neg by exact Hb. reflexivity.
  - destruct (ofZ_finite a Hna Ha) as (Ea & _ & _). rewrite Z.sub_0_r, Ea.
    reflexivity.
  - destruct (ofZ_finite a Hna Ha) as (Ea & Va & Ba).
    destruct (ofZ_finite b Hnb Hb) as (Eb & Vb & Bb).
    rewrite Ea, Eb, sub_finite_exact; rewrite ?Va, ?Vb; auto.
Qed.

End Integers.

Section Comparison.

Lemma compare_canonical (a b : positive) :
  Zpos a < two53 -> Zpos b < two53 ->
  match exponent_of a ?= exponent_of b with
  | Lt => Lt
  | Gt => Gt
  | Eq => Pos.compare_cont Eq (mantissa_of a) (mantissa_of b)
  end = (Zpos a ?= Zpos b).
Proof.
  intros Ha Hb. symmetry.
  pose proof (digits2_pos_bounds a) as [Hla Hua].
  pose proof (digits2_pos_bounds b) as [Hlb Hub].
  pose proof (digits2_pos_le_53 a Ha) as Hda.
  pose proof (digits2_pos_le_53 b Hb) as Hdb.
  unfold exponent_of.
  destruct (Z.compare_spec (Zpos (digits2_pos a) - 53) (Zpos (digits2_pos b) - 53))
    as [He|He|He].
  - assert (Hd : Zpos (digits2_pos a) = Zpos (digits2_pos b)) by lia.
    change (Pos.compare_cont Eq (mantissa_of a) (mantissa_of b))
      with (Zpos (mantissa_of a) ?= Zpos (mantissa_of b)).
    rewrite !mantissa_of_spec, Hd by assumption.
    apply Zmult_compare_compat_r, Z.lt_gt, Z.pow_pos_nonneg; lia.
  - apply Z.compare_lt_iff.
    assert (2 ^ Zpos (digits2_pos a) <= 2 ^ (Zpos (digits2_pos b) - 1))
      by (apply Z.pow_le_mono_r; lia).
    lia.
  - apply Z.compare_gt_iff.
    assert (2 ^ Zpos (digits2_pos b) <= 2 ^ (Zpos (digits2_pos a) - 1))
      by (apply Z.pow_le_mono_r; lia).
    lia.
Qed.

(** Comparisons of integers below 2^53 are exact. *)
Lemma compare_exact (a b : Z) :
  Z.abs a < two53 -> Z.abs b < two53 ->
  SFcompare (Num.ofZ a) (Num.ofZ b) = Some (a ?= b).
Proof.
  intros Ha Hb.
  destruct a as [|a|a], b as [|b|b];
    rewrite ?ofZ_pos, ?ofZ_neg by exact Ha;
    rewrite ?ofZ_pos, ?ofZ_neg by exact Hb;
    try reflexivity.
  - exact (f_equal Some (compare_canonical a b Ha Hb)).
  - pose proof (compare_canonical a b Ha Hb) as H.
    change (Zneg a ?= Zneg b) with (CompOpp (Zpos a ?= Zpos b)).
    rewrite <- H. unfold SFcompare.
    destruct (exponent_of a ?= exponent_of b); reflexivity.
Qed.

Lemma leb_exact (a b : Z) :
  Z.abs a < two53 -> Z.abs b < two53 ->
  Num.leb (Num.ofZ a) (Num.ofZ b) = (a <=? b).
Proof.
  intros Ha Hb. unfold Num.leb, SFleb, Z.leb.
  rewrite compare_exact by assumption. destruct (a ?= b); reflexivity.
Qed.

Lemma ltb_exact (a b : Z) :
  Z.abs a < two53 -> Z.abs b < two53 ->
  Num.ltb (Num.ofZ a) (Num.ofZ b) = (a <? b).
Proof.
  intros Ha Hb. unfold Num.ltb, SFltb, Z.ltb.
  rewrite compare_exact by assumption. destruct (a ?= b); reflexivity.
Qed.

Lemma eqb_exact (a b : Z) :
  Z.abs a < two53 -> Z.abs b < two53 ->
  Num.eqb (Num.ofZ a) (Num.ofZ b) = (a =? b).
Proof.
  intros Ha Hb. unfold Num.eqb, SFeqb, Z.eqb.
  rewrite compare_exact by assumption.
  destruct a, b; simpl; try reflexivity;
    match goal with |- context [(?p ?= ?q)%positive] =>
      destruct (Pos.compare_spec p q); try reflexivity; subst;
      rewrite ?Pos.eqb_refl; try reflexivity
    end;
    symmetry; apply Pos.eqb_neq; lia.
Qed.

Lemma geb_exact (a b : Z) :
  Z.abs a < two53 -> Z.abs b < two53 ->
  Num.geb (Num.ofZ a) (Num.ofZ b) = (b <=? a).
Proof. intros Ha Hb. apply leb_exact; assumption. Qed.

Lemma gtb_exact (a b : Z) :
  Z.abs a < two53 -> Z.abs b < two53 ->
  Num.gtb (Num.ofZ a) (Num.ofZ b) = (b <? a).
Proof. intros Ha Hb. apply ltb_exact; assumption. Qed.

(** The sign of an integer. *)
Lemma sign_exact (z : Z) :
  Z.abs z < two53 -> math.sign (Num.ofZ z) = Num.ofZ (Z.sgn z).
Proof.
  intros Hz. unfold math.sign.
  change Num.zero with (Num.ofZ 0).
  rewrite gtb_exact, ltb_exact by (try assumption; reflexivity).
  destruct z; reflexivity.
Qed.

Lemma toZ_ofZ (z : Z) : Z.abs z < two53 -> Num.toZ (Num.ofZ z) = Some z.
Proof.
  intros Hz. destruct (Z.eq_dec z 0) as [->|Hnz]; [reflexivity|].
  destruct (ofZ_finite z Hnz Hz) as (E & V & B). rewrite E.
  set (p := Z.to_pos (Z.abs z)) in *.
  pose proof (digits2_pos_le_53 p B) as Hd.
  pose proof (mantissa_of_spec p B) as Hm.
  unfold Num.toZ, exponent_of.
  destruct (Z.leb_spec 0 (Zpos (digits2_pos p) - 53)) as [He|He].
  - rewrite Hm. replace (53 - Zpos (digits2_pos p)) with 0 by lia.
    replace (Zpos (digits2_pos p) - 53) with 0 by lia.
    rewrite !Z.pow_0_r, !Z.mul_1_r, V. reflexivity.
  - rewrite Hm.
    replace (- (Zpos (digits2_pos p) - 53)) with (53 - Zpos (digits2_pos p)) by lia.
    assert (0 < 2 ^ (53 - Zpos (digits2_pos p)))
      by (apply Z.pow_pos_nonneg; lia).
    rewrite Z.mod_mul, Z.div_mul by lia. simpl. rewrite V. reflexivity.
Qed.

End Comparison.

(** ** The quotient of two integers and its floor

    The quotient of two positive integers below 2^52 is rounded, but never
    up to the next integer: its floor is the quotient of the integers. *)

Section Quotient.

Lemma shr_m_of_loc (m : Z) (l : location) :
  shr_m (shr_record_of_loc m l) = m.
Proof. destruct l as [|[| |]]; reflexivity. Qed.

Lemma loc_of_shr_record_of_loc (m : Z) (l : location) :
  loc_of_shr_record (shr_record_of_loc m l) = l.
Proof. destruct l as [|[| |]]; reflexivity. Qed.

Lemma shr_m_shr_1 (mrs : shr_record) :
  0 < shr_m mrs -> shr_m (shr_1 mrs) = shr_m mrs / 2.
Proof.
  destruct mrs as [m r s]. simpl shr_m. intros Hm.
  rewrite <- Z.div2_div.
  destruct m as [|[p|p|]|]; try lia; reflexivity.
Qed.

Lemma round_nearest_even_cases (m : Z) (l : location) :
  round_nearest_even m l = m \/ round_nearest_even m l = m + 1.
Proof.
  destruct l as [|[| |]]; simpl; auto. destruct (Z.even m); auto.
Qed.

Lemma shr_fexp_53 (m : positive) (e : Z) (l : location) :
  Zpos (digits2_pos m) = 53 -> -1074 <= e ->
  shr_fexp prec emax (Zpos m) e l = (shr_record_of_loc (Zpos m) l, e).
Proof.
  intros Hd He. unfold shr_fexp. simpl Zdigits2. rewrite Hd.
  replace (fexp prec emax (53 + e) - e) with 0
    by (unfold fexp, emin, prec, emax; lia).
  reflexivity.
Qed.

Lemma shr_fexp_54 (m : positive) (e : Z) (l : location) :
  Zpos (digits2_pos m) = 54 -> -1074 <= e ->
  shr_fexp prec emax (Zpos m) e l =
    (shr_1 (shr_record_of_loc (Zpos m) l), e + 1).
Proof.
  intros Hd He. unfold shr_fexp. simpl Zdigits2. rewrite Hd.
  replace (fexp prec emax (54 + e) - e) with 1
    by (unfold fexp, emin, prec, emax; lia).
  reflexivity.
Qed.

Lemma digits_53 (m : positive) :
  2 ^ 52 <= Zpos m < 2 ^ 53 -> Zpos (digits2_pos m) = 53.
Proof. intros H. apply digits2_pos_unique. exact H. Qed.

Lemma digits_54 (m : positive) :
  2 ^ 53 <= Zpos m < 2 ^ 54 -> Zpos (digits2_pos m) = 54.
Proof. intros H. apply digits2_pos_unique. exact H. Qed.

(** A mantissa of 53 bits that is already rounded. *)
Lemma binary_round_aux_tail (sx : bool) (m : positive) (e : Z) :
  2 ^ 52 <= Zpos m < 2 ^ 53 -> -1074 <= e -> e <= emax - prec ->
  (let '(mrs'', e'') := shr_fexp prec emax (Zpos m) e loc_Exact in
   match shr_m mrs'' with
   | 0 => S754_zero sx
   | Zpos m0 =>
       if e'' <=? emax - prec then S754_finite sx m0 e''
       else S754_infinity sx
   | Zneg _ => S754_nan
   end) = S754_finite sx m e.
Proof.
  intros Hm He Hmax. rewrite shr_fexp_53 by (try apply digits_53; assumption).
  simpl shr_m. apply Z.leb_le in Hmax. rewrite Hmax. reflexivity.
Qed.

(** Rounding a mantissa of 53 or 54 bits with the position of the
    remainder: the result is the mantissa, cut to 53 bits, or the next
    one. *)
Lemma binary_round_aux_bracket (sx : bool) (Q : positive) (e : Z)
    (l : location) :
  2 ^ 52 <= Zpos Q <= 2 ^ 54 - 3 -> -1074 <= e -> e + 1 <= emax - prec ->
  exists (m : positive) (j : Z),
    (j = 0 \/ j = 1) /\
    binary_round_aux prec emax sx (Zpos Q) e l = S754_finite sx m (e + j) /\
    (Zpos m = Zpos Q / 2 ^ j \/ Zpos m = Zpos Q / 2 ^ j + 1).
Proof.
  intros HQ He Hmax. unfold binary_round_aux.
  destruct (Z_lt_le_dec (Zpos Q) (2 ^ 53)) as [H53|H54].
  - rewrite shr_fexp_53 by (try apply digits_53; lia).
    rewrite shr_m_of_loc, loc_of_shr_record_of_loc.
    destruct (round_nearest_even_cases (Zpos Q) l) as [-> | ->].
    + exists Q, 0. rewrite Z.add_0_r, Z.pow_0_r, Z.div_1_r.
      split; [auto|]. split; [|auto].
      apply binary_round_aux_tail; lia.
    + change (Zpos Q + 1) with (Zpos (Q + 1)).
      destruct (Z_lt_le_dec (Zpos (Q + 1)) (2 ^ 53)) as [Hs|Hs].
      * exists (Q + 1)%positive, 0. rewrite Z.add_0_r, Z.pow_0_r, Z.div_1_r.
        split; [auto|]. split; [|right; lia].
        apply binary_round_aux_tail; lia.
      * assert (HQ53 : Zpos (Q + 1) = 2 ^ 53) by lia.
        exists 4503599627370496%positive, 1. split; [auto|].
        assert (Zpos Q = 2 ^ 53 - 1) by lia.
        split; [|right; replace (Zpos Q) with (2 ^ 53 - 1) by lia; reflexivity].
        rewrite shr_fexp_54 by (try apply digits_54; lia).
        rewrite HQ53. simpl shr_m.
        assert (Hle : (e + 1 <=? emax - prec) = true) by (apply Z.leb_le; lia).
        rewrite Hle. reflexivity.
  - rewrite shr_fexp_54 by (try apply digits_54; lia).
    set (mrs := shr_1 (shr_record_of_loc (Zpos Q) l)).
    assert (Hm : shr_m mrs = Zpos Q / 2).
    { unfold mrs. rewrite shr_m_shr_1; rewrite shr_m_of_loc; lia. }
    assert (Hhalf : 2 ^ 52 <= Zpos Q / 2 <= 2 ^ 53 - 2).
    { split.
      - apply Z.div_le_lower_bound; lia.
      - assert (Zpos Q / 2 < 2 ^ 53 - 1)
          by (apply Z.div_lt_upper_bound; lia).
        lia. }
    rewrite Hm.
    destruct (Zpos Q / 2) as [|h|h] eqn:Hh; try lia.
    destruct (round_nearest_even_cases (Zpos h) (loc_of_shr_record mrs))
      as [-> | ->].
    + exists h, 1. rewrite Z.pow_1_r, Hh.
      split; [auto|]. split; [|auto].
      apply binary_round_aux_tail; lia.
    + change (Zpos h + 1) with (Zpos (h + 1)).
      exists (h + 1)%positive, 1. rewrite Z.pow_1_r, Hh.
      split; [auto|]. split; [|right; lia].
      apply binary_round_aux_tail; lia.
Qed.

End Quotient.

Section LargeIntegers.

(** Rounding a mantissa of 54 bits raises the exponent. *)
Lemma binary_round_aux_54 (sx : bool) (Q : positive) (e : Z) (l : location) :
  2 ^ 53 <= Zpos Q < 2 ^ 54 -> -1074 <= e -> e + 2 <= emax - prec ->
  exists (m : positive) (j : Z),
    binary_round_aux prec emax sx (Zpos Q) e l = S754_finite sx m (e + j) /\
    1 <= j <= 2.
Proof.
  intros HQ He Hmax. unfold binary_round_aux.
  rewrite shr_fexp_54 by (try apply digits_54; lia).
  set (mrs := shr_1 (shr_record_of_loc (Zpos Q) l)).
  assert (Hm : shr_m mrs = Zpos Q / 2).
  { unfold mrs. rewrite shr_m_shr_1; rewrite shr_m_of_loc; lia. }
  assert (Hhalf : 2 ^ 52 <= Zpos Q / 2 < 2 ^ 53).
  { split.
    - apply Z.div_le_lower_bound; lia.
    - apply Z.div_lt_upper_bound; lia. }
  rewrite Hm.
  destruct (Zpos Q / 2) as [|h|h] eqn:Hh; try lia.
  destruct (round_nearest_even_cases (Zpos h) (loc_of_shr_record mrs))
    as [-> | ->].
  - exists h, 1. split; [apply binary_round_aux_tail; lia | lia].
  - change (Zpos h + 1) with (Zpos (h + 1)).
    destruct (Z_lt_le_dec (Zpos (h + 1)) (2 ^ 53)) as [Hs|Hs].
    + exists (h + 1)%positive, 1.
      split; [apply binary_round_aux_tail; lia | lia].
    + assert (H53 : Zpos (h + 1) = 2 ^ 53) by lia.
      exists 4503599627370496%positive, 2. split; [|lia].
      rewrite shr_fexp_54 by (try apply digits_54; lia).
      rewrite H53. simpl shr_m.
      replace (e + 1 + 1) with (e + 2) by lia.
      assert (Hle : (e + 2 <=? emax - prec) = true) by (apply Z.leb_le; lia).
      rewrite Hle. reflexivity.
Qed.

(** The number of an integer from 2^53 to 2^54 has a positive exponent. *)
Lemma binary_round_large (sx : bool) (z : positive) :
  two53 <= Zpos z < 2 * two53 ->
  exists (m : positive) (e' : Z),
    binary_round prec emax sx z 0 = S754_finite sx m e' /\ 1 <= e'.
Proof.
  intros Hz. unfold binary_round.
  rewrite (digits_54 z) by (unfold two53 in Hz; lia).
  replace (fexp prec emax (54 + 0)) with 1 by reflexivity.
  cbn [shl_align Z.sub Z.add Z.opp Z.pos_sub].
  destruct (binary_round_aux_54 sx z 0 loc_Exact) as (m & j & Hr & Hj);
    [unfold two53 in Hz; lia | lia | unfold emax, prec; lia |].
  exists m, j. split; [exact Hr | lia].
Qed.

Lemma leb_large (z e : Z) :
  two53 <= z < 2 * two53 -> Z.abs e < two53 ->
  Num.leb (Num.ofZ z) (Num.ofZ e) = false.
Proof.
  intros Hz He. destruct z as [|z|z]; try (unfold two53 in Hz; lia).
  destruct (binary_round_large false z Hz) as (m & e' & Hr & He').
  unfold Num.ofZ at 1. cbn [binary_normalize]. rewrite Hr.
  destruct (Z.eq_dec e 0) as [->|Hnz]; [reflexivity|].
  destruct (ofZ_finite e Hnz He) as (-> & _ & Hb).
  pose proof (exponent_of_nonpos _ Hb) as Hexp.
  unfold Num.leb, SFleb, SFcompare.
  destruct (e <? 0); [reflexivity|].
  destruct (Z.compare_spec e' (exponent_of (Z.to_pos (Z.abs e))));
    (reflexivity || lia).
Qed.

Lemma geb_large (z e : Z) :
  two53 <= z < 2 * two53 -> Z.abs e < two53 ->
  Num.geb (Num.ofZ (- z)) (Num.ofZ e) = false.
Proof.
  intros Hz He. destruct z as [|z|z]; try (unfold two53 in Hz; lia).
  destruct (binary_round_large true z Hz) as (m & e' & Hr & He').
  unfold Num.ofZ at 1. cbn [binary_normalize Z.opp]. rewrite Hr.
  destruct (Z.eq_dec e 0) as [->|Hnz]; [reflexivity|].
  destruct (ofZ_finite e Hnz He) as (-> & _ & Hb).
  pose proof (exponent_of_nonpos _ Hb) as Hexp.
  unfold Num.geb, SFleb, SFcompare.
  destruct (e <? 0); [|reflexivity].
  destruct (Z.compare_spec (exponent_of (Z.to_pos (Z.abs e))) e');
    (reflexivity || lia).
Qed.

End LargeIntegers.

Section Division.

Lemma digits_mantissa_of (p : positive) :
  Zpos p < two53 -> Zpos (digits2_pos (mantissa_of p)) = 53.
Proof.
  intros Hp. pose proof (digits2_pos_le_53 p Hp).
  rewrite (digits2_pos_shift p (mantissa_of p) (53 - Zpos (digits2_pos p)))
    by (try apply mantissa_of_spec; lia).
  lia.
Qed.

(** The integer quotient and the remainder that the division of two
    canonical numbers rounds. *)
Lemma SFdiv_core_canonical (p q : positive) :
  Zpos p < two53 -> Zpos q < two53 ->
  SFdiv_core_binary prec emax
    (Zpos (mantissa_of p)) (exponent_of p)
    (Zpos (mantissa_of q)) (exponent_of q) =
    ((Zpos (mantissa_of p) * 2 ^ 53) / Zpos (mantissa_of q),
     exponent_of p - exponent_of q - 53,
     new_location (Zpos (mantissa_of q))
       ((Zpos (mantissa_of p) * 2 ^ 53) mod Zpos (mantissa_of q))).
Proof.
  intros Hp Hq.
  pose proof (digits2_pos_le_53 p Hp). pose proof (digits2_pos_le_53 q Hq).
  unfold SFdiv_core_binary. cbn [Zdigits2].
  rewrite !digits_mantissa_of by assumption.
  change IntDef.Z.min with Z.min.
  change IntDef.Z.shiftl with Z.shiftl.
  change IntDef.Z.div_eucl with Z.div_eucl.
  replace (Z.min (fexp prec emax (53 + exponent_of p - (53 + exponent_of q)))
             (exponent_of p - exponent_of q))
    with (exponent_of p - exponent_of q - 53)
    by (unfold fexp, emin, prec, emax, exponent_of; lia).
  replace (exponent_of p - exponent_of q - (exponent_of p - exponent_of q - 53))
    with 53 by lia.
  cbv iota. rewrite Z.shiftl_mul_pow2 by lia.
  unfold Z.div, Z.modulo.
  destruct (Z.div_eucl (Zpos (mantissa_of p) * 2 ^ 53) (Zpos (mantissa_of q)));
    reflexivity.
Qed.

Lemma mantissa_of_bounds (p : positive) :
  Zpos p < two53 -> 2 ^ 52 <= Zpos (mantissa_of p) < 2 ^ 53.
Proof.
  intros Hp. pose proof (digits_mantissa_of p Hp) as Hd.
  pose proof (digits2_pos_bounds (mantissa_of p)) as Hb.
  rewrite Hd in Hb. exact Hb.
Qed.

Lemma mantissa_of_even (p : positive) :
  Zpos p < two52 -> Zpos (mantissa_of p) <= 2 ^ 53 - 2.
Proof.
  intros Hp.
  assert (Hp53 : Zpos p < two53) by (unfold two52, two53 in *; lia).
  pose proof (digits2_pos_bounds p) as [Hlo Hhi].
  assert (Hd : 1 <= Zpos (digits2_pos p) <= 52).
  { split; [lia|].
    destruct (Z_lt_le_dec 52 (Zpos (digits2_pos p))) as [Hgt|]; [|lia].
    assert (2 ^ 52 <= 2 ^ (Zpos (digits2_pos p) - 1))
      by (apply Z.pow_le_mono_r; lia).
    unfold two52 in Hp. lia. }
  rewrite mantissa_of_spec by assumption.
  set (k := 53 - Zpos (digits2_pos p)).
  assert (Hk : 1 <= k) by (unfold k; lia).
  assert (Hpow : 2 ^ 53 = 2 ^ Zpos (digits2_pos p) * 2 ^ k)
    by (rewrite <- Z.pow_add_r by lia; f_equal; unfold k; lia).
  assert (2 <= 2 ^ k).
  { change 2 with (2 ^ 1) at 1. apply Z.pow_le_mono_r; lia. }
  rewrite Hpow. nia.
Qed.

Lemma quotient_bounds (mp mq : Z) :
  2 ^ 52 <= mp <= 2 ^ 53 - 2 -> 2 ^ 52 <= mq < 2 ^ 53 ->
  2 ^ 52 <= (mp * 2 ^ 53) / mq <= 2 ^ 54 - 3.
Proof.
  intros Hp Hq. split.
  - apply Z.div_le_lower_bound; [lia|]. nia.
  - assert ((mp * 2 ^ 53) / mq < 2 ^ 54 - 2)
      by (apply Z.div_lt_upper_bound; [lia | nia]).
    lia.
Qed.

(** The quotient of the mantissas is the quotient of the integers, scaled
    by a power of two. *)
Lemma quotient_mantissa (p q : positive) :
  Zpos p < two53 -> Zpos q < two53 ->
  (Zpos (mantissa_of p) * 2 ^ 53) / Zpos (mantissa_of q) =
    (Zpos p * 2 ^ (53 + Zpos (digits2_pos q) - Zpos (digits2_pos p))) / Zpos q.
Proof.
  intros Hp Hq.
  pose proof (digits2_pos_le_53 p Hp). pose proof (digits2_pos_le_53 q Hq).
  rewrite !mantissa_of_spec by assumption.
  set (t := 53 + Zpos (digits2_pos q) - Zpos (digits2_pos p)).
  set (c := 2 ^ (53 - Zpos (digits2_pos q))).
  assert (Hc : 0 < c) by (apply Z.pow_pos_nonneg; lia).
  replace (Zpos p * 2 ^ (53 - Zpos (digits2_pos p)) * 2 ^ 53)
    with (Zpos p * 2 ^ t * c).
  - apply Z.div_mul_cancel_r; lia.
  - unfold c, t. rewrite <- !Z.mul_assoc, <- !Z.pow_add_r by lia.
    f_equal. f_equal. lia.
Qed.

Lemma quotient_shift (p q t j : Z) :
  0 < q -> 0 <= j <= t ->
  (p * 2 ^ t) / q / 2 ^ j = (p * 2 ^ (t - j)) / q.
Proof.
  intros Hq Hj.
  assert (Hc : 0 < 2 ^ j) by (apply Z.pow_pos_nonneg; lia).
  rewrite Z.div_div by lia.
  replace (p * 2 ^ t) with (p * 2 ^ (t - j) * 2 ^ j).
  - apply Z.div_mul_cancel_r; lia.
  - rewrite <- Z.mul_assoc, <- Z.pow_add_r by lia. f_equal. f_equal. lia.
Qed.

(** A quotient computed with [T] more bits, and the next integer above
    it, have the floor of the quotient when the divisor is below 2^T. *)
Lemma floor_bracket (p q T X : Z) :
  0 <= p -> 0 <= T -> 0 < q < 2 ^ T -> X = (p * 2 ^ T) / q ->
  X / 2 ^ T = p / q /\ (X + 1) / 2 ^ T = p / q.
Proof.
  intros Hp HT Hq ->.
  assert (Hc : 0 < 2 ^ T) by (apply Z.pow_pos_nonneg; lia).
  pose proof (Z.div_mod p q ltac:(lia)) as Hpq.
  pose proof (Z.mod_pos_bound p q ltac:(lia)) as Hr.
  set (K := p / q) in *. set (r := p mod q) in *.
  pose proof (Z.div_mod (p * 2 ^ T) q ltac:(lia)) as HX.
  pose proof (Z.mod_pos_bound (p * 2 ^ T) q ltac:(lia)) as HXr.
  set (X := (p * 2 ^ T) / q) in *. set (xr := (p * 2 ^ T) mod q) in *.
  set (c := 2 ^ T) in *.
  assert (HY : K * c <= X /\ X + 1 < (K + 1) * c) by nia.
  split; symmetry.
  - apply Z.div_unique_pos with (r := X - K * c); lia.
  - apply Z.div_unique_pos with (r := X + 1 - K * c); lia.
Qed.

End Division.

Section FloorOfQuotient.

Lemma digits2_pos_le_52 (p : positive) :
  Zpos p < two52 -> 1 <= Zpos (digits2_pos p) <= 52.
Proof.
  intros Hp. pose proof (digits2_pos_bounds p) as [Hlo Hhi].
  split; [lia|].
  destruct (Z_lt_le_dec 52 (Zpos (digits2_pos p))) as [Hgt|]; [|lia].
  assert (2 ^ 52 <= 2 ^ (Zpos (digits2_pos p) - 1))
    by (apply Z.pow_le_mono_r; lia).
  unfold two52 in Hp. lia.
Qed.

(** The floor of the rounded quotient of two positive integers below 2^52
    is the quotient of the integers. *)
Lemma floor_div_finite (sg : bool) (p q : positive) :
  Zpos p < two52 -> Zpos q < two52 ->
  Math.floor
    (Num.div (S754_finite sg (mantissa_of p) (exponent_of p))
             (S754_finite sg (mantissa_of q) (exponent_of q))) =
    Num.ofZ (Zpos p / Zpos q).
Proof.
  intros Hp Hq. pose proof two53_double as Hdbl.
  assert (Hp53 : Zpos p < two53) by lia.
  assert (Hq53 : Zpos q < two53) by lia.
  pose proof (digits2_pos_le_52 p Hp) as Hdp.
  pose proof (digits2_pos_le_52 q Hq) as Hdq.
  pose proof (digits2_pos_bounds q) as [_ Hqd].
  unfold Num.div, SFdiv. rewrite SFdiv_core_canonical by assumption.
  rewrite xorb_nilpotent.
  pose proof (quotient_bounds (Zpos (mantissa_of p)) (Zpos (mantissa_of q))
                (conj (proj1 (mantissa_of_bounds p Hp53)) (mantissa_of_even p Hp))
                (mantissa_of_bounds q Hq53)) as HQ.
  pose proof (quotient_mantissa p q Hp53 Hq53) as HQv.
  destruct (Zpos (mantissa_of p) * 2 ^ 53 / Zpos (mantissa_of q))
    as [|Q|Q] eqn:HQe; try lia.
  destruct (binary_round_aux_bracket false Q
              (exponent_of p - exponent_of q - 53)
              (new_location (Zpos (mantissa_of q))
                 ((Zpos (mantissa_of p) * 2 ^ 53) mod Zpos (mantissa_of q)))
              HQ)
    as (m & j & Hj & Hround & Hm);
    [unfold exponent_of; lia | unfold exponent_of, emax, prec; lia |].
  rewrite Hround. unfold Math.floor.
  destruct (Z.leb_spec 0 (exponent_of p - exponent_of q - 53 + j)) as [Hge|Hlt];
    [unfold exponent_of in Hge; lia|].
  cbn [cond_Zopp]. rewrite Z.shiftr_div_pow2 by lia.
  change (binary_normalize prec emax ?z 0 false) with (Num.ofZ z).
  f_equal.
  set (t := 53 + Zpos (digits2_pos q) - Zpos (digits2_pos p)) in *.
  replace (- (exponent_of p - exponent_of q - 53 + j)) with (t - j)
    by (unfold exponent_of, t; lia).
  assert (Hshift : Zpos Q / 2 ^ j = (Zpos p * 2 ^ (t - j)) / Zpos q).
  { rewrite HQv. apply quotient_shift; unfold t; lia. }
  assert (Hlt2 : Zpos q < 2 ^ (t - j)).
  { apply Z.lt_le_trans with (2 ^ Zpos (digits2_pos q)); [exact Hqd|].
    apply Z.pow_le_mono_r; unfold t; lia. }
  destruct (floor_bracket (Zpos p) (Zpos q) (t - j) (Zpos Q / 2 ^ j))
    as [F0 F1];
    [lia | unfold t; lia | lia | exact Hshift |].
  destruct Hm as [-> | ->]; assumption.
Qed.

Lemma isNaN_ofZ (z : Z) : Z.abs z < two53 -> isNaN (Num.ofZ z) = false.
Proof.
  intros Hz. destruct (Z.eq_dec z 0) as [->|Hnz]; [reflexivity|].
  destruct (ofZ_finite z Hnz Hz) as (-> & _). reflexivity.
Qed.

(** The floor of the quotient of two integers of the same sign. *)
Lemma floor_div_exact (d s : Z) :
  Z.abs d < two52 -> Z.abs s < two52 -> Z.sgn d = Z.sgn s -> d <> 0 ->
  Math.floor (Num.div (Num.ofZ d) (Num.ofZ s)) = Num.ofZ (d / s).
Proof.
  intros Hd Hs Hsgn Hnz. pose proof two53_double as Hdbl.
  assert (Hsnz : s <> 0) by (destruct d, s; simpl in Hsgn; congruence).
  destruct (ofZ_finite d Hnz ltac:(lia)) as (-> & _ & _).
  destruct (ofZ_finite s Hsnz ltac:(lia)) as (-> & _ & _).
  destruct d as [|d|d], s as [|s|s]; try congruence; try discriminate Hsgn.
  - apply (floor_div_finite false d s); assumption.
  - change (Zneg d / Zneg s) with (- Zpos d / - Zpos s).
    rewrite Z.div_opp_opp by lia.
    apply (floor_div_finite true d s); assumption.
Qed.

End FloorOfQuotient.

(** ** Ranges of integers *)


Lemma index_at_exact (k : nat) :
  Z.of_nat k < two53 -> index_at k = Num.ofZ (Z.of_nat k).
Proof.
  induction k as [|k IH]; intros Hk; [reflexivity|].
  rewrite index_at_S, IH by lia. change Num.one with (Num.ofZ 1).
  rewrite add_exact by (unfold two53 in *; lia). f_equal. lia.
Qed.

Section Counting.

Variables a s e : Z.

(** The count by the direction of the step. *)
Lemma count_cases :
  (0 < s /\ a <= e /\ count a s e = (e - a) / s + 1) \/
  (s < 0 /\ e <= a /\ count a s e = (e - a) / s + 1) \/
  (count a s e = 0 /\ ~ (0 < s /\ a <= e) /\ ~ (s < 0 /\ e <= a)).
Proof.
  unfold count.
  destruct (Z.ltb_spec 0 s), (Z.leb_spec a e), (Z.ltb_spec s 0),
    (Z.leb_spec e a); simpl; try lia; auto.
Qed.

(** Going up: the values before the count do not pass the end, the one at
    the count does. *)
Lemma count_up (k : Z) :
  0 < s -> a <= e -> 0 <= k ->
  (k < (e - a) / s + 1 -> a <= a + k * s <= e) /\
  (k = (e - a) / s + 1 -> e < a + k * s) /\
  0 <= (e - a) / s.
Proof.
  intros Hpos Hle Hk.
  pose proof (Z.div_mod (e - a) s ltac:(lia)) as Hdm.
  pose proof (Z.mod_pos_bound (e - a) s Hpos) as Hr.
  set (q := (e - a) / s) in *. set (m := (e - a) mod s) in *.
  assert (0 <= q) by (apply Z.div_pos; lia).
  repeat split; intros; nia.
Qed.

(** Going down. *)
Lemma count_down (k : Z) :
  s < 0 -> e <= a -> 0 <= k ->
  (k < (e - a) / s + 1 -> e <= a + k * s <= a) /\
  (k = (e - a) / s + 1 -> a + k * s < e) /\
  0 <= (e - a) / s.
Proof.
  intros Hneg Hle Hk.
  pose proof (Z.div_mod (e - a) s ltac:(lia)) as Hdm.
  pose proof (Z.mod_neg_bound (e - a) s Hneg) as Hr.
  set (q := (e - a) / s) in *. set (m := (e - a) mod s) in *.
  assert (0 <= q).
  { unfold q. rewrite <- Z.div_opp_opp by lia. apply Z.div_pos; lia. }
  repeat split; intros; nia.
Qed.

Lemma count_nonneg : 0 <= count a s e.
Proof.
  destruct count_cases as [(H1 & H2 & ->) | [(H1 & H2 & ->) | (-> & _)]];
    [| |lia].
  - destruct (count_up 0 H1 H2 ltac:(lia)) as (_ & _ & H). lia.
  - destruct (count_down 0 H1 H2 ltac:(lia)) as (_ & _ & H). lia.
Qed.

End Counting.

Section IntegerRange.

Variables a s e : Z.
Hypothesis Ha : Z.abs a < two53.
Hypothesis Hs : Z.abs s < two53.
Hypothesis He : Z.abs e < two53.

Lemma value_at_exact (k : nat) :
  (forall j, (j < k)%nat -> Z.abs (a + Z.of_nat j * s) < two53) ->
  value_at (Num.ofZ a) (Num.ofZ s) k = Num.ofZ (a + Z.of_nat k * s).
Proof using Ha Hs He.
  induction k as [|k IH]; intros Hk.
  - simpl. f_equal. lia.
  - rewrite value_at_S, IH by (intros j Hj; apply Hk; lia).
    specialize (Hk k (Nat.lt_succ_diag_r k)).
    rewrite add_exact by lia. f_equal. lia.
Qed.

(** The values before the count lie between the start and the end. *)
Lemma count_values_bounded (j : Z) :
  0 <= j < count a s e -> Z.abs (a + j * s) < two53.
Proof using Ha Hs He.
  intros Hj.
  destruct (count_cases a s e) as [(H1 & H2 & E) | [(H1 & H2 & E) | (E & _)]];
    rewrite E in Hj; [| |lia].
  - destruct (count_up a s e j H1 H2 ltac:(lia)) as (H & _). lia.
  - destruct (count_down a s e j H1 H2 ltac:(lia)) as (H & _). lia.
Qed.

Lemma value_at_count (k : nat) :
  Z.of_nat k <= count a s e ->
  value_at (Num.ofZ a) (Num.ofZ s) k = Num.ofZ (a + Z.of_nat k * s).
Proof using Ha Hs He.
  intros Hk. apply value_at_exact. intros j Hj.
  apply count_values_bounded. lia.
Qed.

End IntegerRange.

Section IntegerTraversal.

Context {S : Type}.
Variable callback : number -> number -> Range -> S -> S.
Variables a s e : Z.
Hypothesis Ha : Z.abs a < two53.
Hypothesis Hs : Z.abs s < two53.
Hypothesis He : Z.abs e < two53.

Let n : nat := Z.to_nat (count a s e).

(** The traversal of a range of integers leaves the loop after [count]
    invocations. *)
Lemma Range_forEach_integers (fuel : nat) (s0 : S) :
  (n <= fuel)%nat ->
  Range_forEach callback fuel (intRange a s e) s0 =
    Returned
      (invoke callback (intRange a s e)
         (invocations (Num.ofZ a) (Num.ofZ s) n) s0).
Proof using Ha Hs He.
  intros Hfuel. unfold intRange.
  pose proof (count_nonneg a s e) as Hn.
  assert (Hg : Num.gtb (Num.ofZ s) Num.zero = (0 <? s))
    by (apply (gtb_exact s 0); [auto | reflexivity]).
  assert (Hl : Num.ltb (Num.ofZ s) Num.zero = (s <? 0))
    by (apply (ltb_exact s 0); [auto | reflexivity]).
  destruct (count_cases a s e)
    as [(H1 & H2 & E) | [(H1 & H2 & E) | (E & N1 & N2)]].
  - (* going up *)
    apply Z.ltb_lt in H1 as H1'. rewrite H1' in Hg.
    apply Range_forEach_returns; unfold continues; rewrite ?Hg.
    + left. reflexivity.
    + intros k Hk. rewrite (value_at_count a s e) by (auto; lia).
      destruct (count_up a s e (Z.of_nat k) H1 H2 ltac:(lia)) as (Hin & _).
      rewrite leb_exact by (auto; lia).
      apply Z.leb_le. lia.
    + rewrite (value_at_count a s e) by (auto; lia).
      destruct (count_up a s e (Z.of_nat n) H1 H2 ltac:(lia)) as (_ & Hout & _).
      destruct (count_up a s e (Z.of_nat n - 1) H1 H2 ltac:(lia)) as (Hin & _).
      destruct (Z_lt_le_dec (a + Z.of_nat n * s) two53) as [Hsmall|Hlarge].
      * rewrite leb_exact by (auto; lia). apply Z.leb_gt. lia.
      * apply leb_large; [lia | exact He].
    + exact Hfuel.
  - (* going down *)
    apply Z.ltb_lt in H1 as H1'. rewrite H1' in Hl.
    assert (Hg' : Num.gtb (Num.ofZ s) Num.zero = false)
      by (rewrite Hg; apply Z.ltb_ge; lia).
    apply Range_forEach_returns; unfold continues; rewrite ?Hg'.
    + right. exact Hl.
    + intros k Hk. rewrite (value_at_count a s e) by (auto; lia).
      destruct (count_down a s e (Z.of_nat k) H1 H2 ltac:(lia)) as (Hin & _).
      rewrite geb_exact by (auto; lia).
      apply Z.leb_le. lia.
    + rewrite (value_at_count a s e) by (auto; lia).
      destruct (count_down a s e (Z.of_nat n) H1 H2 ltac:(lia)) as (_ & Hout & _).
      destruct (count_down a s e (Z.of_nat n - 1) H1 H2 ltac:(lia)) as (Hin & _).
      destruct (Z_lt_le_dec (- two53) (a + Z.of_nat n * s)) as [Hsmall|Hlarge].
      * rewrite geb_exact by (auto; lia). apply Z.leb_gt. lia.
      * rewrite <- (Z.opp_involutive (a + Z.of_nat n * s)).
        apply geb_large; [lia | exact He].
    + exact Hfuel.
  - (* nothing to traverse *)
    assert (Hn0 : n = 0%nat) by lia. rewrite Hn0.
    destruct (Z.ltb_spec 0 s) as [Hpos|Hpos].
    + apply Range_forEach_returns; unfold continues; rewrite ?Hg.
      * left. reflexivity.
      * intros k Hk. lia.
      * simpl value_at. rewrite leb_exact by auto. apply Z.leb_gt. lia.
      * lia.
    + destruct (Z.ltb_spec s 0) as [Hneg|Hneg].
      * apply Range_forEach_returns; unfold continues; rewrite ?Hg.
        -- right. exact Hl.
        -- intros k Hk. lia.
        -- simpl value_at. rewrite geb_exact by auto. apply Z.leb_gt. lia.
        -- lia.
      * apply Range_forEach_no_direction; assumption.
Qed.

End IntegerTraversal.

(** ** The traversal, invocation by invocation *)



(** ** Scalars *)

Lemma Range_toArray_no_direction (a s e : number) :
  Num.gtb s Num.zero = false -> Num.ltb s Num.zero = false ->
  forall fuel, Range_toArray fuel (numRange a s e) = Some [].
Proof.
  intros Hg Hl fuel. unfold Range_toArray.
  rewrite Range_forEach_no_direction by assumption. reflexivity.
Qed.

(** C9, as amended: with a step of 0 and [start == end], [isScalar()] is
    false and [toScalar()] is [null]; the two agree. *)
Theorem Range_zero_step_not_scalar (a s e : number) :
  Num.eqb s Num.zero = true -> Num.eqb a e = true ->
  Range_isScalar (numRange a s e) = false /\
  forall fuel, Range_toScalar fuel (numRange a s e) = Some VNull.
Proof.
  intros Hs _. split.
  - apply eqb_zero_inv in Hs as [b ->]. unfold Range_isScalar.
    rewrite Range_size_zero_step. reflexivity.
  - intros fuel. apply eqb_zero_no_direction in Hs as [Hg Hl].
    unfold Range_toScalar. rewrite Range_toArray_no_direction by assumption.
    reflexivity.
Qed.

Lemma Range_zero_step_not_scalar_witness :
  Range_isScalar (intRange 3 0 3) = false /\
  forall fuel, Range_toScalar fuel (intRange 3 0 3) = Some VNull.
Proof.
  apply (Range_zero_step_not_scalar (Num.ofZ 3) (Num.ofZ 0) (Num.ofZ 3));
    reflexivity.
Defined.

(** C9, as stated, fails: with a step of 0 and [start == end], [isScalar()]
    is false, as [size()] is [[0]]. *)
Lemma Range_isScalar_zero_step :
  let r := numRange Num.zero Num.zero Num.zero in
  Num.eqb (Number (step r)) Num.zero = true /\
  Num.eqb (Number (start r)) (Number (end_ r)) = true /\
  Range_size r = [Num.zero] /\
  Range_isScalar r = false /\
  Range_toScalar 0 r = Some VNull /\
  ~ (Range_isScalar r = true).
Proof.
  cbv zeta. repeat (split; [reflexivity|]). discriminate.
Qed.

(** ** Termination *)

(** A value that the step does not change is never left. *)
Lemma value_at_stalled (x s : number) (k : nat) :
  Num.add x s = x -> value_at x s k = x.
Proof.
  intros H. induction k as [|k IH]; [reflexivity|].
  rewrite value_at_S, IH. exact H.
Qed.

Lemma Range_forEach_stalled {S : Type}
    (callback : number -> number -> Range -> S -> S) (a s e : number) :
  Num.gtb s Num.zero = true -> Num.leb a e = true -> Num.add a s = a ->
  forall fuel s0,
    Range_forEach callback fuel (numRange a s e) s0 =
      Running (invoke callback (numRange a s e) (invocations a s fuel) s0).
Proof.
  intros Hg Hle Hfix fuel s0.
  apply Range_forEach_running; [left; exact Hg|].
  intros k _. unfold continues. rewrite Hg, value_at_stalled; assumption.
Qed.

Lemma invoke_count (this : Range) (l : list (number * number)) (n : nat) :
  invoke (fun _ _ _ c => Datatypes.S c) this l n = (n + List.length l)%nat.
Proof.
  unfold invoke. revert n.
  induction l as [|xi l IH]; intros n; simpl; [lia | rewrite IH; lia].
Qed.

Lemma length_invocations (a s : number) (n : nat) :
  List.length (invocations a s n) = n.
Proof. unfold invocations. rewrite length_map, length_seq. reflexivity. Qed.

(** C8, as stated, fails: from 2^53 in steps of 1 towards 2^53 + 2, the sum
    [2^53 + 1] rounds to [2^53], so the value never moves, the guard holds
    for ever, the callback is invoked more than any number of times, and
    neither [forEach] nor [toArray] returns. *)
Lemma Range_forEach_never_returns :
  let r := intRange 9007199254740992 1 9007199254740994 in
  (Num.valid (Number (start r)) && isFinite (Number (start r)) = true /\
   Num.valid (Number (step r)) && isFinite (Number (step r)) = true /\
   Num.valid (Number (end_ r)) && isFinite (Number (end_ r)) = true) /\
  Num.add (Number (start r)) (Number (step r)) = Number (start r) /\
  (forall fuel,
     Range_forEach (fun _ _ _ c => Datatypes.S c) fuel r 0%nat = Running fuel) /\
  ~ (exists fuel, Range_toArray fuel r <> None).
Proof.
  cbv zeta.
  assert (Hg : Num.gtb (Num.ofZ 1) Num.zero = true) by reflexivity.
  assert (Hle : Num.leb (Num.ofZ 9007199254740992) (Num.ofZ 9007199254740994) = true)
    by (vm_compute; reflexivity).
  assert (Hfix : Num.add (Num.ofZ 9007199254740992) (Num.ofZ 1) =
                 Num.ofZ 9007199254740992) by (vm_compute; reflexivity).
  split; [repeat split|split; [exact Hfix|split]].
  - intros fuel. unfold intRange.
    rewrite Range_forEach_stalled by assumption.
    rewrite invoke_count, length_invocations. reflexivity.
  - intros [fuel H]. apply H. unfold Range_toArray, intRange.
    rewrite Range_forEach_stalled by assumption. reflexivity.
Qed.

(** ** Arrays filled by a traversal *)

Lemma list_set_length {A : Type} (arr : array A) (v : A) :
  list_set arr (List.length arr) v = (arr ++ [Some v])%list.
Proof. induction arr as [|x arr IH]; simpl; congruence. Qed.

Lemma array_index_ofZ (k : nat) :
  Z.of_nat k < max_array_length -> array_index (Num.ofZ (Z.of_nat k)) = Some k.
Proof.
  intros Hk. unfold array_index, max_array_length in *.
  rewrite toZ_ofZ by (unfold two53; lia).
  destruct (Z.leb_spec 0 (Z.of_nat k)); [|lia].
  destruct (Z.ltb_spec (Z.of_nat k) (2 ^ 32 - 1)); [|lia].
  simpl. rewrite Nat2Z.id. reflexivity.
Qed.

(** The array that the closures of [map] and [toArray] build: one element
    per invocation, in the order of the invocations. *)
Lemma invoke_array_set {A : Type} (f : number -> number -> Range -> A)
    (this : Range) (a s : number) (n : nat) :
  Z.of_nat n <= max_array_length ->
  invoke (fun value index obj arr => array_set arr index (f value index obj))
    this (invocations a s n) [] =
    List.map (fun k => Some (f (value_at a s k) (index_at k) this)) (seq 0 n).
Proof.
  induction n as [|n IH]; intros Hn; [reflexivity|].
  rewrite invocations_S, invoke_snoc, IH by lia.
  rewrite seq_S, map_app. simpl.
  unfold array_set.
  rewrite index_at_exact, array_index_ofZ
    by (unfold max_array_length, two53 in *; lia).
  rewrite <- (list_set_length (List.map _ (seq 0 n))).
  rewrite length_map, length_seq. reflexivity.
Qed.

(** C8, as amended: the traversal of a range whose start, step and end are
    integers below 2^53 in magnitude returns, after as many invocations as
    there are values from the start to the end, on the values
    [start + k * step], and so do [toArray], [map] and [valueOf]. *)
Theorem Range_forEach_terminates_on_integers {S : Type}
    (callback : number -> number -> Range -> S -> S) (a s e : Z) (s0 : S) :
  Z.abs a < two53 -> Z.abs s < two53 -> Z.abs e < two53 ->
  forall fuel, (Z.to_nat (count a s e) <= fuel)%nat ->
    Range_forEach callback fuel (intRange a s e) s0 =
      Returned
        (invoke callback (intRange a s e)
           (List.map
              (fun k => (Num.ofZ (a + Z.of_nat k * s), index_at k))
              (seq 0 (Z.to_nat (count a s e))))
           s0) /\
    Range_toArray fuel (intRange a s e) <> None /\
    Range_valueOf fuel (intRange a s e) <> None /\
    (forall (A : Type) (f : number -> number -> Range -> A),
       Range_map f fuel (intRange a s e) <> None).
Proof.
  intros Ha Hs He fuel Hfuel.
  pose proof (count_nonneg a s e) as Hn.
  split; [|split; [|split]].
  - rewrite Range_forEach_integers by assumption.
    f_equal. f_equal. unfold invocations. apply map_ext_in. intros k Hk.
    apply in_seq in Hk.
    rewrite (value_at_count a s e) by (auto; lia). reflexivity.
  - unfold Range_toArray. rewrite Range_forEach_integers by assumption.
    discriminate.
  - unfold Range_valueOf, Range_toArray.
    rewrite Range_forEach_integers by assumption. discriminate.
  - intros A f. unfold Range_map.
    rewrite Range_forEach_integers by assumption. discriminate.
Qed.

Lemma Range_forEach_terminates_on_integers_witness :
  Range_forEach (fun x i _ l => l ++ [(x, i)])%list 5 (intRange 2 (-1) (-2)) [] =
    Returned [(Num.ofZ 2, Num.ofZ 0); (Num.ofZ 1, Num.ofZ 1);
              (Num.ofZ 0, Num.ofZ 2); (Num.ofZ (-1), Num.ofZ 3);
              (Num.ofZ (-2), Num.ofZ 4)].
Proof.
  apply (Range_forEach_terminates_on_integers
           (fun x i _ l => l ++ [(x, i)])%list 2 (-1) (-2) []);
    vm_compute; (reflexivity || lia).
Defined.

(** ** Size and length *)

Lemma Range_toArray_returns (a s e : number) (n : nat) :
  Num.gtb s Num.zero = true \/ Num.ltb s Num.zero = true ->
  (forall k, (k < n)%nat -> continues s e (value_at a s k) = true) ->
  continues s e (value_at a s n) = false ->
  Z.of_nat n <= max_array_length ->
  forall fuel, (n <= fuel)%nat ->
    Range_toArray fuel (numRange a s e) =
      Some (List.map (fun k => Some (value_at a s k)) (seq 0 n)).
Proof.
  intros Hdir Hin Hout Hn fuel Hfuel. unfold Range_toArray.
  rewrite (Range_forEach_returns _ a s e n) by assumption.
  simpl returned. f_equal.
  apply (invoke_array_set (fun value _ _ => value)). exact Hn.
Qed.

(** C3, as stated, fails: for the range from 0 to 0.7 in steps of 0.1 the
    quotient [0.7 / 0.1] is rounded to 6.999999999999999, so [size()] is
    [[7]], while the sums 0.1, 0.2, ... reach 0.7 at the eighth value, so
    [toArray()] has 8 elements. *)
Lemma Range_size_differs_from_length :
  let r := numRange Num.zero (token_number "0.1") (token_number "0.7") in
  (Num.valid (Number (step r)) = true /\ Num.valid (Number (end_ r)) = true) /\
  Num.gtb (Number (step r)) Num.zero = true /\
  Num.leb (Number (start r)) (Number (end_ r)) = true /\
  Range_size r = [Num.ofZ 7] /\
  (forall fuel, (8 <= fuel)%nat ->
     exists arr, Range_toArray fuel r = Some arr /\ List.length arr = 8%nat) /\
  ~ (forall fuel arr,
       Range_toArray fuel r = Some arr ->
       Range_size r = [Num.ofZ (Z.of_nat (List.length arr))]).
Proof.
  cbv zeta.
  assert (Harr : forall fuel, (8 <= fuel)%nat ->
            Range_toArray fuel
              (numRange Num.zero (token_number "0.1") (token_number "0.7")) =
              Some (List.map
                      (fun k => Some (value_at Num.zero (token_number "0.1") k))
                      (seq 0 8))).
  { intros fuel Hfuel. apply Range_toArray_returns.
    - left. reflexivity.
    - intros k Hk. do 8 (destruct k as [|k]; [vm_compute; reflexivity|]). lia.
    - vm_compute. reflexivity.
    - vm_compute. discriminate.
    - exact Hfuel. }
  split; [split; vm_compute; reflexivity|].
  split; [reflexivity|]. split; [reflexivity|].
  split; [vm_compute; reflexivity|]. split.
  - intros fuel Hfuel. eexists. split; [apply Harr, Hfuel | reflexivity].
  - intros H. specialize (H 8%nat _ (Harr 8%nat (Nat.le_refl 8))).
    vm_compute in H. discriminate H.
Qed.



Section IntegerSize.

Variables a s e : Z.
Hypothesis Ha : Z.abs a < two53.
Hypothesis He : Z.abs e < two53.
Hypothesis Hs : Z.abs s < two52.
Hypothesis Hd : Z.abs (e - a) < two52.
Hypothesis Hdir : (0 < s /\ a <= e) \/ (s < 0 /\ e <= a).

Lemma quotient_bounded : 0 <= (e - a) / s < two52.
Proof using Hd Hdir.
  clear Ha He Hs.
  destruct Hdir as [[H1 H2] | [H1 H2]].
  - split; [apply Z.div_pos; lia|].
    apply Z.div_lt_upper_bound; [lia|]. nia.
  - rewrite <- Z.div_opp_opp by lia. split; [apply Z.div_pos; lia|].
    apply Z.div_lt_upper_bound; [lia|]. nia.
Qed.

Lemma count_direction : count a s e = (e - a) / s + 1.
Proof using Hdir.
  destruct (count_cases a s e) as [(_ & _ & E) | [(_ & _ & E) | (_ & N1 & N2)]];
    tauto.
Qed.

(** [size()] of a range of integers whose step points from the start to
    the end. *)
Lemma Range_size_integers :
  Range_size (intRange a s e) = [Num.ofZ ((e - a) / s + 1)].
Proof using Ha Hs He Hd Hdir.
  pose proof two53_double as H53.
  pose proof quotient_bounded as Hq.
  assert (Hsnz : s <> 0) by lia.
  unfold Range_size, intRange, numRange; cbn [start step end_ Number].
  rewrite sub_exact by lia.
  rewrite !sign_exact by lia.
  rewrite eqb_exact by (destruct (e - a), s; simpl; unfold two53; lia).
  change Num.zero with (Num.ofZ 0). change Num.one with (Num.ofZ 1).
  destruct (Z.eq_dec (e - a) 0) as [Hz|Hnz].
  - rewrite Hz. replace (Z.sgn s =? Z.sgn 0) with false
      by (symmetry; apply Z.eqb_neq; destruct s; simpl; lia).
    rewrite eqb_exact by (unfold two53; simpl; lia).
    simpl Z.eqb. cbv iota. rewrite Z.div_0_l by lia. reflexivity.
  - replace (Z.sgn s =? Z.sgn (e - a)) with true
      by (symmetry; apply Z.eqb_eq; destruct Hdir as [[? ?]|[? ?]];
          [rewrite !Z.sgn_pos by lia | rewrite !Z.sgn_neg by lia]; reflexivity).
    rewrite floor_div_exact by lia.
    rewrite add_exact by lia. rewrite isNaN_ofZ by lia. reflexivity.
Qed.

(** [toArray()] of such a range, when its values fit an array. *)
Lemma Range_toArray_integers (fuel : nat) :
  (e - a) / s + 1 <= max_array_length ->
  (Z.to_nat ((e - a) / s + 1) <= fuel)%nat ->
  Range_toArray fuel (intRange a s e) =
    Some (List.map (fun k => Some (Num.ofZ (a + Z.of_nat k * s)))
            (seq 0 (Z.to_nat ((e - a) / s + 1)))).
Proof using Ha Hs He Hdir.
  clear Hd.
  intros Hlen Hfuel. pose proof two53_double as H53.
  assert (Hs2 : Z.abs s < two53) by lia.
  pose proof (count_nonneg a s e) as Hn.
  unfold Range_toArray. rewrite <- count_direction in *.
  rewrite Range_forEach_integers by assumption.
  cbn [returned]. f_equal. unfold intRange.
  rewrite (invoke_array_set (fun value _ _ => value)) by lia.
  apply map_ext_in. intros k Hk. apply in_seq in Hk.
  rewrite (value_at_count a s e) by (try assumption; lia). reflexivity.
Qed.

End IntegerSize.

(** C3, as amended: for a range whose start and end are integers below 2^53
    in magnitude and whose step and [end - start] are integers below 2^52 in
    magnitude, with [step > 0] and [start <= end], or with [step < 0] and
    [start >= end], and with no more values than an array holds,
    [size()[0]] and the length of [toArray()] are both
    [floor((end - start) / step) + 1]. *)
Theorem Range_size_and_length_on_integers (a s e : Z) :
  Z.abs a < two53 -> Z.abs e < two53 ->
  Z.abs s < two52 -> Z.abs (e - a) < two52 ->
  (0 < s /\ a <= e) \/ (s < 0 /\ e <= a) ->
  (e - a) / s + 1 <= max_array_length ->
  Range_size (intRange a s e) = [Num.ofZ ((e - a) / s + 1)] /\
  forall fuel, (Z.to_nat ((e - a) / s + 1) <= fuel)%nat ->
    exists arr,
      Range_toArray fuel (intRange a s e) = Some arr /\
      arr = List.map (fun k => Some (Num.ofZ (a + Z.of_nat k * s)))
              (seq 0 (Z.to_nat ((e - a) / s + 1))) /\
      Z.of_nat (List.length arr) = (e - a) / s + 1.
Proof.
  intros Ha He Hs Hd Hdir Hlen. split.
  - apply Range_size_integers; assumption.
  - intros fuel Hfuel. eexists. split; [|split; [reflexivity|]].
    + apply Range_toArray_integers; assumption.
    + rewrite length_map, length_seq.
      pose proof (quotient_bounded a s e Hd Hdir) as [Hq _].
      apply Z2Nat.id. lia.
Qed.

Lemma Range_size_and_length_on_integers_witness :
  Range_size (intRange 2 (-1) (-2)) = [Num.ofZ 5] /\
  forall fuel, (5 <= fuel)%nat ->
    exists arr,
      Range_toArray fuel (intRange 2 (-1) (-2)) = Some arr /\
      arr = [Some (Num.ofZ 2); Some (Num.ofZ 1); Some (Num.ofZ 0);
             Some (Num.ofZ (-1)); Some (Num.ofZ (-2))] /\
      Z.of_nat (List.length arr) = 5.
Proof.
  apply (Range_size_and_length_on_integers 2 (-1) (-2));
    try (vm_compute; reflexivity).
  - right. lia.
  - vm_compute. discriminate.
Defined.

(** ** Text form and parsing *)

Lemma append_assoc (x y z : string) : ((x ++ y) ++ z = x ++ (y ++ z))%string.
Proof. induction x as [|c x IH]; simpl; congruence. Qed.

Lemma split_tokens_no_colon (t : string) :
  no_colon t = true -> split_tokens ":" t = (t, []).
Proof.
  induction t as [|c t IH]; simpl; [reflexivity|].
  intros H. apply andb_true_iff in H as [Hc Ht].
  rewrite (IH Ht). apply negb_true_iff in Hc. rewrite Hc. reflexivity.
Qed.

Lemma split_tokens_append (t rest : string) :
  no_colon t = true ->
  split_tokens ":" (t ++ String ":" rest) = (t, split ":" rest).
Proof.
  induction t as [|c t IH]; simpl.
  - intros _. unfold split. destruct (split_tokens ":" rest). reflexivity.
  - intros H. apply andb_true_iff in H as [Hc Ht].
    rewrite (IH Ht). apply negb_true_iff in Hc. rewrite Hc. reflexivity.
Qed.

Lemma split_no_colon (t : string) : no_colon t = true -> split ":" t = [t].
Proof. intros H. unfold split. rewrite split_tokens_no_colon by exact H. reflexivity. Qed.

Lemma split_append (t rest : string) :
  no_colon t = true -> split ":" (t ++ String ":" rest) = t :: split ":" rest.
Proof. intros H. unfold split at 1. rewrite split_tokens_append by exact H. reflexivity. Qed.

Section RoundTrip.

Variable format : number -> string.

Lemma Range_toString_numRange (a s e : number) :
  Range_toString format (numRange a s e) =
    (format a ++
     (if Num.neqb s Num.one then ":" ++ format s else "") ++
     ":" ++ format e)%string.
Proof.
  unfold Range_toString, numRange; cbn [start step end_ Number neq_number].
  destruct (Num.neqb s Num.one); [|reflexivity].
  rewrite append_assoc. reflexivity.
Qed.

Lemma Range_parse_toString (a s e : number) :
  reparses format a -> reparses format e -> (Num.neqb s Num.one = true -> reparses format s) ->
  Range_parse (VString (Range_toString format (numRange a s e))) =
    Ok (Some (numRange a s e)).
Proof.
  intros (Ca & Ra & Na) (Ce & Re & Ne) Hs.
  rewrite Range_toString_numRange, Range_parse_string. unfold tokens.
  destruct (Num.neqb s Num.one) eqn:Hone.
  - destruct (Hs eq_refl) as (Cs & Rs & Ns).
    change (format a ++ (":" ++ format s) ++ ":" ++ format e)%string
      with (format a ++ String ":" (format s ++ String ":" (format e)))%string.
    rewrite !split_append, split_no_colon by assumption.
    simpl List.map. rewrite Ra, Rs, Re. simpl existsb.
    rewrite Na, Ns, Ne. reflexivity.
  - change (format a ++ "" ++ ":" ++ format e)%string
      with (format a ++ String ":" (format e))%string.
    rewrite split_append, split_no_colon by assumption.
    simpl List.map. rewrite Ra, Re. simpl existsb. rewrite Na, Ne. simpl.
    apply negb_false_iff, eqb_one_inv in Hone. rewrite Hone. reflexivity.
Qed.

End RoundTrip.

(** C7: [toString()] is the text of the start, then [:] and the text of the
    step only when [step != 1], then [:] and the text of the end; when each
    text written is a numeral that converts back to the field it was written
    from, parsing the text gives a range with the same fields, hence with the
    same [toArray()]. *)
Theorem Range_toString_roundtrip (format : number -> string) (a s e : number) :
  Range_toString format (numRange a s e) =
    (format a ++
     (if Num.neqb s Num.one then ":" ++ format s else "") ++
     ":" ++ format e)%string /\
  (reparses format a -> reparses format e ->
   (Num.neqb s Num.one = true -> reparses format s) ->
   exists r,
     Range_parse (VString (Range_toString format (numRange a s e))) = Ok (Some r) /\
     r = numRange a s e /\
     forall fuel, Range_toArray fuel r = Range_toArray fuel (numRange a s e)).
Proof.
  split; [apply Range_toString_numRange|].
  intros Ha He Hs. exists (numRange a s e).
  split; [apply Range_parse_toString; assumption|]. split; reflexivity.
Qed.

Lemma Range_toString_roundtrip_witness :
  Range_toString format_integer (intRange 0 2 10) = "0:2:10" /\
  Range_toString format_integer (intRange 2 1 5) = "2:5" /\
  (exists r,
     Range_parse (VString (Range_toString format_integer (intRange 0 2 10))) =
       Ok (Some r) /\
     r = intRange 0 2 10 /\
     forall fuel, Range_toArray fuel r = Range_toArray fuel (intRange 0 2 10)) /\
  (exists r,
     Range_parse (VString (Range_toString format_integer (intRange 2 1 5))) =
       Ok (Some r) /\
     r = intRange 2 1 5 /\
     forall fuel, Range_toArray fuel r = Range_toArray fuel (intRange 2 1 5)).
Proof.
  pose proof (Range_toString_roundtrip format_integer
                (Num.ofZ 0) (Num.ofZ 2) (Num.ofZ 10)) as [T1 R1].
  pose proof (Range_toString_roundtrip format_integer
                (Num.ofZ 2) (Num.ofZ 1) (Num.ofZ 5)) as [T2 R2].
  split; [exact T1|]. split; [exact T2|]. split.
  - apply R1; intros; repeat split; vm_compute; reflexivity.
  - apply R2; intros; try discriminate; repeat split; vm_compute; reflexivity.
Defined.

(** * Further properties *)

(** ** Construction and cloning *)

Lemma Range_new_inv (with_new : bool) (a s e : value) (r : Range) :
  Range_new with_new a s e = Ok r ->
  exists x y z, r = numRange x y z.
Proof.
  unfold Range_new. destruct with_new; [|discriminate]. cbn [negb].
  destruct a as [| |b|x|t], s as [| |b'|y|t'], e as [| |b''|z|t''];
    cbn; intros H; try discriminate H; injection H as <-;
    eexists _, _, _; reflexivity.
Qed.

(** X1: a range that the constructor returns has three numeric fields, and
    [clone()] of it returns a range with the same three fields. *)
Theorem Range_clone_constructed (with_new : bool) (a s e : value) (r : Range) :
  Range_new with_new a s e = Ok r ->
  isNumber (start r) && isNumber (step r) && isNumber (end_ r) = true /\
  Range_clone r = Ok r.
Proof.
  intros H. apply Range_new_inv in H as (x & y & z & ->).
  split; reflexivity.
Qed.

Lemma Range_clone_constructed_witness :
  isNumber (start (numRange Num.zero Num.one (Num.ofZ 5))) &&
  isNumber (step (numRange Num.zero Num.one (Num.ofZ 5))) &&
  isNumber (end_ (numRange Num.zero Num.one (Num.ofZ 5))) = true /\
  Range_clone (numRange Num.zero Num.one (Num.ofZ 5)) =
    Ok (numRange Num.zero Num.one (Num.ofZ 5)).
Proof.
  apply (Range_clone_constructed true VUndefined VNull (VNumber (Num.ofZ 5))).
  reflexivity.
Defined.

(** ** Parsing *)

Lemma existsb_isNaN_false (n0 : number) (l : list number) :
  existsb isNaN (n0 :: l) = false ->
  isNaN n0 = false /\ existsb isNaN l = false.
Proof. simpl. intros H. apply orb_false_elim in H. exact H. Qed.

(** X2: [Range.parse] never throws, whatever it is given, and a range that
    it returns has three numeric fields none of which is NaN. *)
Theorem Range_parse_never_throws (str : value) :
  exists o, Range_parse str = Ok o /\
    forall r, o = Some r ->
      exists a s e, r = numRange a s e /\
        isNaN a = false /\ isNaN s = false /\ isNaN e = false.
Proof.
  destruct str as [| |b|x|t];
    try (exists None; split; [reflexivity | discriminate]).
  rewrite Range_parse_string.
  destruct (existsb isNaN _) eqn:Hnan;
    [exists None; split; [reflexivity | discriminate]|].
  destruct (List.map token_number (tokens t)) as [|n0 [|n1 [|n2 [|n3 l]]]];
    try (exists None; split; [reflexivity | discriminate]).
  - apply existsb_isNaN_false in Hnan as (H0 & Hnan).
    apply existsb_isNaN_false in Hnan as (H1 & _).
    eexists. split; [reflexivity|]. intros r [= <-].
    exists n0, Num.one, n1. repeat split; assumption.
  - apply existsb_isNaN_false in Hnan as (H0 & Hnan).
    apply existsb_isNaN_false in Hnan as (H1 & Hnan).
    apply existsb_isNaN_false in Hnan as (H2 & _).
    eexists. split; [reflexivity|]. intros r [= <-].
    exists n0, n1, n2. repeat split; assumption.
Qed.

Lemma length_split_tokens (s : string) :
  List.length (snd (split_tokens ":" s)) = colons s.
Proof.
  induction s as [|c s IH]; [reflexivity|].
  simpl. destruct (split_tokens ":" s) as [tok toks].
  destruct (Ascii.eqb c ":"); simpl in *; congruence.
Qed.

Lemma length_tokens (s : string) :
  List.length (tokens s) = Datatypes.S (colons s).
Proof.
  unfold tokens, split. rewrite <- length_split_tokens.
  destruct (split_tokens ":" s). reflexivity.
Qed.

Lemma numeric_tokens_existsb (s : string) :
  existsb isNaN (List.map token_number (tokens s)) = negb (numeric_tokens s).
Proof.
  unfold numeric_tokens. induction (tokens s) as [|tok l IH]; [reflexivity|].
  simpl. rewrite IH. destruct (isNaN (token_number tok)); reflexivity.
Qed.

(** X3: [Range.parse] returns a range for a text exactly when the text has
    one or two colons and every token between them converts to a number that
    is not NaN; for every other text it returns [null]. *)
Theorem Range_parse_some_iff (s : string) :
  ((exists r, Range_parse (VString s) = Ok (Some r)) <->
   (colons s = 1%nat \/ colons s = 2%nat) /\ numeric_tokens s = true) /\
  (Range_parse (VString s) = Ok None <->
   ~ ((colons s = 1%nat \/ colons s = 2%nat) /\ numeric_tokens s = true)).
Proof.
  pose proof (length_tokens s) as Hlen.
  rewrite <- (length_map token_number) in Hlen.
  rewrite Range_parse_string, numeric_tokens_existsb.
  destruct (numeric_tokens s); cbn [negb].
  - destruct (List.map token_number (tokens s)) as [|n0 [|n1 [|n2 [|n3 l]]]];
      simpl in Hlen; (split; split);
      [ intros [r H]; discriminate H | intros [[H|H] _]; lia
      | intros _ [[H|H] _]; lia | reflexivity
      | intros [r H]; discriminate H | intros [[H|H] _]; lia
      | intros _ [[H|H] _]; lia | reflexivity
      | intros _; split; [lia | reflexivity] | intros _; eexists; reflexivity
      | discriminate | intros H; exfalso; apply H; split; [lia | reflexivity]
      | intros _; split; [lia | reflexivity] | intros _; eexists; reflexivity
      | discriminate | intros H; exfalso; apply H; split; [lia | reflexivity]
      | intros [r H]; discriminate H | intros [[H|H] _]; lia
      | intros _ [[H|H] _]; lia | reflexivity ].
  - split; split.
    + intros [r H]. discriminate H.
    + intros [_ H]. discriminate H.
    + intros _ [_ H]. discriminate H.
    + reflexivity.
Qed.

(** ** What a traversal keeps *)

Section WhileInvariant.

Context {S : Type}.
Variable callback : number -> number -> Range -> S -> S.
Variable guard : number -> bool.
Variable this : Range.
Variable step : number.
Variable P : S -> Prop.

Hypothesis callback_keeps :
  forall x i st, guard x = true -> P st -> P (callback x i this st).

(** A property of the state that every guarded invocation keeps holds
    whenever the loop is left or interrupted. *)
Lemma Range_while_invariant (fuel : nat) :
  forall x i st, P st ->
    P (state_of (Range_while callback guard this step fuel x i st)).
Proof.
  induction fuel as [|fuel IH]; intros x i st Hst.
  - rewrite Range_while_O. destruct (guard x); exact Hst.
  - rewrite Range_while_S. destruct (guard x) eqn:Hg; [|exact Hst].
    apply IH. apply callback_keeps; assumption.
Qed.

End WhileInvariant.

Lemma Range_forEach_invariant {S : Type}
    (callback : number -> number -> Range -> S -> S) (a s e : number)
    (P : S -> Prop) :
  (forall x i st, towards s e x -> P st ->
     P (callback x i (numRange a s e) st)) ->
  forall fuel st, P st ->
    P (state_of (Range_forEach callback fuel (numRange a s e) st)).
Proof.
  intros Hcb fuel st Hst. unfold Range_forEach.
  cbn [start step end_ numRange Number].
  destruct (Num.gtb s Num.zero) eqn:Hg.
  - apply Range_while_invariant; [|exact Hst].
    intros x i st' Hx. apply Hcb. left. split; [exact Hg | exact Hx].
  - destruct (Num.ltb s Num.zero) eqn:Hl; [|exact Hst].
    apply Range_while_invariant; [|exact Hst].
    intros x i st' Hx. apply Hcb. right. split; [exact Hl | exact Hx].
Qed.

Lemma In_list_set {A : Type} (arr : array A) (n : nat) (v x : A) :
  In (Some x) (list_set arr n v) -> x = v \/ In (Some x) arr.
Proof.
  revert arr. induction n as [|n IH]; intros [|y arr]; simpl.
  - intros [[= ->]|[]]. left. reflexivity.
  - intros [[= ->]|H]; auto.
  - intros [H|H]; [discriminate|]. apply IH in H. exact H.
  - intros [H|H]; auto. apply IH in H as [H|H]; auto.
Qed.

Lemma In_array_set {A : Type} (arr : array A) (i : number) (v x : A) :
  In (Some x) (array_set arr i v) -> x = v \/ In (Some x) arr.
Proof.
  unfold array_set. destruct (array_index i); [apply In_list_set | auto].
Qed.

Lemma leb_not_NaN (x e : number) : Num.leb x e = true -> isNaN x = false.
Proof. destruct x; try reflexivity. discriminate. Qed.

Lemma geb_not_NaN (x e : number) : Num.geb x e = true -> isNaN x = false.
Proof.
  destruct x; try reflexivity. destruct e; discriminate.
Qed.

Lemma towards_not_NaN (s e x : number) : towards s e x -> isNaN x = false.
Proof.
  intros [[_ H]|[_ H]]; [apply (leb_not_NaN x e H) | apply (geb_not_NaN x e H)].
Qed.

(** X4: whatever the fields, no element of the array that [toArray()]
    returns lies beyond the end: with a positive step every element is at most
    [end], with a negative step at least [end]; so no element is NaN. *)
Theorem Range_toArray_within_end (a s e : number) (fuel : nat)
    (arr : array number) (x : number) :
  Range_toArray fuel (numRange a s e) = Some arr ->
  In (Some x) arr ->
  towards s e x /\ isNaN x = false.
Proof.
  unfold Range_toArray.
  match goal with |- returned ?o = _ -> _ => set (out := o) end.
  intros Harr Hin.
  assert (H : towards s e x).
  { assert (Hinv : forall y, In (Some y) (state_of out) -> towards s e y).
    { apply (Range_forEach_invariant _ a s e
               (fun st => forall y, In (Some y) st -> towards s e y)).
      - intros x' i st Hx Hst y Hy.
        apply In_array_set in Hy as [-> | Hy]; [exact Hx | apply Hst, Hy].
      - intros y []. }
    destruct out as [st|st]; [|discriminate Harr].
    injection Harr as <-. apply Hinv. exact Hin. }
  split; [exact H | apply (towards_not_NaN s e x H)].
Qed.

Lemma Range_toArray_within_end_witness :
  towards Num.one (Num.ofZ 3) (Num.ofZ 2) /\ isNaN (Num.ofZ 2) = false.
Proof.
  apply (Range_toArray_within_end (Num.ofZ 1) Num.one (Num.ofZ 3) 5
           [Some (Num.ofZ 1); Some (Num.ofZ 2); Some (Num.ofZ 3)]).
  - reflexivity.
  - right. left. reflexivity.
Defined.

(** ** Mapping *)

Section WhileSimulation.

Context {S T : Type}.
Variable callback1 : number -> number -> Range -> S -> S.
Variable callback2 : number -> number -> Range -> T -> T.
Variable guard : number -> bool.
Variable this : Range.
Variable step : number.
Variable R : S -> T -> Prop.

Hypothesis callbacks_keep :
  forall x i st1 st2, R st1 st2 ->
    R (callback1 x i this st1) (callback2 x i this st2).

(** Two loops over the same values leave together, in related states. *)
Lemma Range_while_simulation (fuel : nat) :
  forall x i st1 st2, R st1 st2 ->
    match Range_while callback1 guard this step fuel x i st1,
          Range_while callback2 guard this step fuel x i st2 with
    | Returned st1', Returned st2' => R st1' st2'
    | Running st1', Running st2' => R st1' st2'
    | _, _ => False
    end.
Proof.
  induction fuel as [|fuel IH]; intros x i st1 st2 Hst.
  - rewrite !Range_while_O. destruct (guard x); exact Hst.
  - rewrite !Range_while_S. destruct (guard x); [|exact Hst].
    apply IH. apply callbacks_keep. exact Hst.
Qed.

End WhileSimulation.

Lemma Range_forEach_simulation {S T : Type}
    (callback1 : number -> number -> Range -> S -> S)
    (callback2 : number -> number -> Range -> T -> T)
    (this : Range) (R : S -> T -> Prop) :
  (forall x i st1 st2, R st1 st2 ->
     R (callback1 x i this st1) (callback2 x i this st2)) ->
  forall fuel st1 st2, R st1 st2 ->
    match Range_forEach callback1 fuel this st1,
          Range_forEach callback2 fuel this st2 with
    | Returned st1', Returned st2' => R st1' st2'
    | Running st1', Running st2' => R st1' st2'
    | _, _ => False
    end.
Proof.
  intros Hcb fuel st1 st2 Hst. unfold Range_forEach.
  destruct (Num.gtb _ _); [apply Range_while_simulation; assumption|].
  destruct (Num.ltb _ _); [apply Range_while_simulation; assumption|].
  exact Hst.
Qed.

Lemma list_set_map {A B : Type} (g : A -> B) (arr : array A) (n : nat) (v : A) :
  list_set (array_map g arr) n (g v) = array_map g (list_set arr n v).
Proof.
  revert arr. induction n as [|n IH]; intros [|y arr]; simpl;
    try reflexivity.
  - f_equal. apply (IH []).
  - f_equal. apply IH.
Qed.

Lemma array_set_map {A B : Type} (g : A -> B) (arr : array A) (i : number)
    (v : A) :
  array_set (array_map g arr) i (g v) = array_map g (array_set arr i v).
Proof.
  unfold array_set. destruct (array_index i); [apply list_set_map | reflexivity].
Qed.

(** X5: for a callback that looks at the value only, [map(callback)] is
    [toArray()] with the callback applied to every element, on every range
    and whether the traversal returns or not. *)
Theorem Range_map_toArray {A : Type} (g : number -> A) (this : Range)
    (fuel : nat) :
  Range_map (fun value _ _ => g value) fuel this =
    option_map (array_map g) (Range_toArray fuel this).
Proof.
  unfold Range_map, Range_toArray.
  pose proof (Range_forEach_simulation
                (fun value index (_ : Range) array =>
                   array_set array index (g value))
                (fun value index (_ : Range) array =>
                   array_set array index value)
                this (fun st1 st2 => st1 = array_map g st2)) as H.
  specialize (H (fun x i st1 st2 E =>
                   eq_trans (f_equal (fun st => array_set st i (g x)) E)
                            (array_set_map g st2 i x))
                fuel [] [] eq_refl).
  destruct (Range_forEach
              (fun value index (_ : Range) array =>
                 array_set array index (g value)) fuel this []) as [st1|st1],
           (Range_forEach
              (fun value index (_ : Range) array =>
                 array_set array index value) fuel this []) as [st2|st2];
    try contradiction; simpl; [f_equal; exact H | reflexivity].
Qed.

(** ** Nothing to traverse *)

Lemma Range_forEach_nothing {S : Type}
    (callback : number -> number -> Range -> S -> S) (a s e : number) :
  (Num.gtb s Num.zero = true -> Num.leb a e = false) ->
  (Num.ltb s Num.zero = true -> Num.geb a e = false) ->
  forall fuel s0, Range_forEach callback fuel (numRange a s e) s0 = Returned s0.
Proof.
  intros Hup Hdown fuel s0. unfold Range_forEach.
  cbn [start step end_ numRange Number].
  destruct (Num.gtb s Num.zero).
  - destruct fuel; [rewrite Range_while_O | rewrite Range_while_S];
      rewrite Hup; reflexivity.
  - destruct (Num.ltb s Num.zero); [|reflexivity].
    destruct fuel; [rewrite Range_while_O | rewrite Range_while_S];
      rewrite Hdown; reflexivity.
Qed.

Lemma isNaN_inv (x : number) : isNaN x = true -> x = Num.nan.
Proof. destruct x; try discriminate. reflexivity. Qed.

Lemma leb_NaN (x : number) :
  Num.leb Num.nan x = false /\ Num.leb x Num.nan = false.
Proof. split; [reflexivity | destruct x; reflexivity]. Qed.

Lemma sub_NaN (x : number) :
  Num.sub Num.nan x = Num.nan /\ Num.sub x Num.nan = Num.nan.
Proof. split; [reflexivity | destruct x; reflexivity]. Qed.

Lemma Range_size_NaN_difference (a s e : number) :
  Num.sub e a = Num.nan -> Range_size (numRange a s e) = [Num.zero].
Proof.
  intros Hd. unfold Range_size, numRange; simpl. rewrite Hd.
  destruct s as [[]|[]| |[] m ex]; reflexivity.
Qed.

Lemma Range_size_NaN_step (a e : number) :
  Range_size (numRange a Num.nan e) = [Num.zero].
Proof.
  unfold Range_size, numRange; simpl.
  destruct (Num.sub e a) as [sd|sd| |sd md ed]; try destruct sd; reflexivity.
Qed.

(** X6: a range one of whose fields is NaN is empty for every operation:
    [size()] is [[0]], [forEach] invokes nothing and returns at once,
    [toArray()] is the empty array, [isScalar()] is false and [toScalar()]
    is [null]. *)
Theorem Range_NaN_field_empty (a s e : number) :
  isNaN a = true \/ isNaN s = true \/ isNaN e = true ->
  Range_size (numRange a s e) = [Num.zero] /\
  Range_isScalar (numRange a s e) = false /\
  forall fuel,
    (forall (S : Type) (callback : number -> number -> Range -> S -> S) (s0 : S),
       Range_forEach callback fuel (numRange a s e) s0 = Returned s0) /\
    Range_toArray fuel (numRange a s e) = Some [] /\
    Range_toScalar fuel (numRange a s e) = Some VNull.
Proof.
  intros H.
  assert (Hsize : Range_size (numRange a s e) = [Num.zero]).
  { destruct H as [H | [H | H]]; apply isNaN_inv in H; subst.
    - apply Range_size_NaN_difference, sub_NaN.
    - apply Range_size_NaN_step.
    - apply Range_size_NaN_difference, sub_NaN. }
  assert (Hnone : forall (S : Type)
            (callback : number -> number -> Range -> S -> S) fuel s0,
            Range_forEach callback fuel (numRange a s e) s0 = Returned s0).
  { intros S callback. apply Range_forEach_nothing.
    - intros Hg. destruct H as [H | [H | H]]; apply isNaN_inv in H; subst.
      + apply leb_NaN.
      + discriminate Hg.
      + apply leb_NaN.
    - intros Hl. destruct H as [H | [H | H]]; apply isNaN_inv in H; subst.
      + apply leb_NaN.
      + discriminate Hl.
      + apply leb_NaN. }
  split; [exact Hsize|]. split.
  - unfold Range_isScalar. rewrite Hsize. reflexivity.
  - intros fuel. split; [intros S callback s0; apply Hnone|].
    unfold Range_toScalar, Range_toArray. rewrite Hnone. split; reflexivity.
Qed.

Lemma Range_NaN_field_empty_witness :
  Range_size (numRange Num.zero Num.nan (Num.ofZ 5)) = [Num.zero] /\
  Range_toArray 3 (numRange Num.zero Num.nan (Num.ofZ 5)) = Some [].
Proof.
  destruct (Range_NaN_field_empty Num.zero Num.nan (Num.ofZ 5)) as (H1 & _ & H2).
  - right. left. reflexivity.
  - split; [exact H1 | apply (H2 3%nat)].
Defined.

(** ** Ranges of integers, whatever the direction *)

Section IntegerRanges.

Variables a s e : Z.
Hypothesis Ha : Z.abs a < two53.
Hypothesis He : Z.abs e < two53.
Hypothesis Hs : Z.abs s < two53.

Lemma length_values : Z.of_nat (List.length (values a s e)) = count a s e.
Proof using Type.
  unfold values. rewrite length_map, length_seq.
  apply Z2Nat.id, count_nonneg.
Qed.

Lemma Range_map_values {A : Type} (f : number -> number -> Range -> A)
    (fuel : nat) :
  count a s e <= max_array_length ->
  (Z.to_nat (count a s e) <= fuel)%nat ->
  Range_map f fuel (intRange a s e) =
    Some (List.map
            (fun k => Some (f (Num.ofZ (a + Z.of_nat k * s))
                              (Num.ofZ (Z.of_nat k)) (intRange a s e)))
            (seq 0 (Z.to_nat (count a s e)))).
Proof using Ha Hs He.
  intros Hlen Hfuel. pose proof (count_nonneg a s e) as Hn.
  unfold Range_map. rewrite Range_forEach_integers by assumption.
  cbn [returned]. f_equal. unfold intRange.
  rewrite invoke_array_set by lia.
  apply map_ext_in. intros k Hk. apply in_seq in Hk.
  rewrite (value_at_count a s e) by (try assumption; lia).
  rewrite index_at_exact by (unfold max_array_length, two53 in *; lia).
  reflexivity.
Qed.

Lemma Range_toArray_values (fuel : nat) :
  count a s e <= max_array_length ->
  (Z.to_nat (count a s e) <= fuel)%nat ->
  Range_toArray fuel (intRange a s e) = Some (array_of (values a s e)).
Proof using Ha Hs He.
  intros Hlen Hfuel.
  pose proof (Range_map_values (fun value _ _ => value) fuel Hlen Hfuel) as H.
  unfold Range_map in H. unfold Range_toArray. rewrite H.
  unfold array_of, values. rewrite map_map. reflexivity.
Qed.

End IntegerRanges.


Section IntegerSizes.

Variables a s e : Z.
Hypothesis Ha : Z.abs a < two53.
Hypothesis He : Z.abs e < two53.
Hypothesis Hs : Z.abs s < two52.
Hypothesis Hd : Z.abs (e - a) < two52.

(** [size()] of a range of integers counts its values, also when there is
    none. *)
Lemma Range_size_count :
  Range_size (intRange a s e) = [Num.ofZ (count a s e)].
Proof using Ha He Hs Hd.
  pose proof two53_double as H53.
  destruct (count_cases a s e)
    as [(H1 & H2 & E) | [(H1 & H2 & E) | (E & N1 & N2)]]; rewrite E.
  - apply Range_size_integers; auto.
  - apply Range_size_integers; auto.
  - destruct (Z.eq_dec s 0) as [->|Hsnz];
      [apply (Range_size_zero_step (Num.ofZ a) (Num.ofZ e) false)|].
    assert (Hdnz : e - a <> 0) by lia.
    assert (Hsgn : Z.sgn s <> Z.sgn (e - a))
      by (pose proof (Z.sgn_spec s); pose proof (Z.sgn_spec (e - a)); lia).
    unfold Range_size, intRange, numRange; cbn [start step end_ Number].
    rewrite sub_exact by lia.
    rewrite !sign_exact by lia.
    rewrite eqb_exact by (destruct (e - a), s; simpl; unfold two53; lia).
    apply Z.eqb_neq in Hsgn. rewrite Hsgn.
    change Num.zero with (Num.ofZ 0).
    rewrite eqb_exact by (simpl; lia).
    apply Z.eqb_neq in Hdnz. rewrite Hdnz. reflexivity.
Qed.

Lemma count_bounded : 0 <= count a s e <= two52.
Proof using Hd.
  clear Ha He Hs.
  destruct (count_cases a s e)
    as [(H1 & H2 & E) | [(H1 & H2 & E) | (E & N1 & N2)]]; rewrite E.
  - pose proof (quotient_bounded a s e Hd (or_introl (conj H1 H2))). lia.
  - pose proof (quotient_bounded a s e Hd (or_intror (conj H1 H2))). lia.
  - unfold two52. lia.
Qed.

Lemma Range_isScalar_count :
  Range_isScalar (intRange a s e) = (count a s e =? 1).
Proof using Ha He Hs Hd.
  pose proof two53_double as H53. pose proof count_bounded as Hc.
  unfold Range_isScalar. rewrite Range_size_count.
  change Num.one with (Num.ofZ 1).
  apply eqb_exact; [lia | unfold two53; simpl; lia].
Qed.

End IntegerSizes.

Lemma values_one (a s e : Z) : count a s e = 1 -> values a s e = [a].
Proof.
  intros H. unfold values. rewrite H. simpl. f_equal. lia.
Qed.

Lemma Range_toScalar_count (a s e : Z) (fuel : nat) :
  Z.abs a < two53 -> Z.abs s < two53 -> Z.abs e < two53 ->
  count a s e <= max_array_length ->
  (Z.to_nat (count a s e) <= fuel)%nat ->
  Range_toScalar fuel (intRange a s e) =
    Some (if count a s e =? 1 then VNumber (Num.ofZ a) else VNull).
Proof.
  intros Ha Hs He Hlen Hfuel. unfold Range_toScalar.
  rewrite Range_toArray_values by assumption.
  destruct (Z.eqb_spec (count a s e) 1) as [H1|H1].
  - rewrite values_one by exact H1. reflexivity.
  - pose proof (length_values a s e) as Hl.
    assert (Hne : List.length (array_of (values a s e)) <> 1%nat)
      by (unfold array_of; rewrite length_map; lia).
    apply Nat.eqb_neq in Hne. rewrite Hne. reflexivity.
Qed.

(** X7: for every range of integers (start and end below 2^53, step and
    [end - start] below 2^52 in magnitude), whatever the direction of the
    step and also when the step is 0, [size()] is the number of values that
    [toArray()] returns. *)
Theorem Range_size_counts_values (a s e : Z) (fuel : nat) :
  Z.abs a < two53 -> Z.abs e < two53 ->
  Z.abs s < two52 -> Z.abs (e - a) < two52 ->
  count a s e <= max_array_length ->
  (Z.to_nat (count a s e) <= fuel)%nat ->
  Range_toArray fuel (intRange a s e) = Some (array_of (values a s e)) /\
  Range_size (intRange a s e) =
    [Num.ofZ (Z.of_nat (List.length (array_of (values a s e))))].
Proof.
  intros Ha He Hs Hd Hlen Hfuel. pose proof two53_double as H53. split.
  - apply Range_toArray_values; (assumption || lia).
  - unfold array_of. rewrite length_map, length_values.
    apply Range_size_count; assumption.
Qed.

Lemma Range_size_counts_values_witness :
  Range_toArray 4 (intRange 5 1 2) = Some (array_of (values 5 1 2)) /\
  Range_size (intRange 5 1 2) =
    [Num.ofZ (Z.of_nat (List.length (array_of (values 5 1 2))))].
Proof.
  apply (Range_size_counts_values 5 1 2 4); vm_compute; (reflexivity || lia || discriminate).
Defined.

(** X8: on a range of integers (same bounds), [isScalar()] is true exactly
    when the range has one value, and [toScalar()] is then the start and is
    [null] otherwise; so [isScalar()] is true exactly when [toScalar()] is
    not [null]. *)
Theorem Range_isScalar_toScalar (a s e : Z) (fuel : nat) :
  Z.abs a < two53 -> Z.abs e < two53 ->
  Z.abs s < two52 -> Z.abs (e - a) < two52 ->
  count a s e <= max_array_length ->
  (Z.to_nat (count a s e) <= fuel)%nat ->
  Range_isScalar (intRange a s e) = (count a s e =? 1) /\
  Range_toScalar fuel (intRange a s e) =
    Some (if count a s e =? 1 then VNumber (Num.ofZ a) else VNull).
Proof.
  intros Ha He Hs Hd Hlen Hfuel. pose proof two53_double as H53. split.
  - apply Range_isScalar_count; assumption.
  - apply Range_toScalar_count; (assumption || lia).
Qed.

Lemma Range_isScalar_toScalar_witness :
  Range_isScalar (intRange 7 (-2) 7) = true /\
  Range_toScalar 1 (intRange 7 (-2) 7) = Some (VNumber (Num.ofZ 7)).
Proof.
  apply (Range_isScalar_toScalar 7 (-2) 7 1);
    vm_compute; (reflexivity || lia || discriminate).
Defined.

(** X9: [map(callback)] on a range of integers below 2^53 returns, without
    holes and in order, the results of [callback(start + k * step, k, range)]
    for [k] from 0 to the number of values. *)
Theorem Range_map_on_integers {A : Type} (f : number -> number -> Range -> A)
    (a s e : Z) (fuel : nat) :
  Z.abs a < two53 -> Z.abs s < two53 -> Z.abs e < two53 ->
  count a s e <= max_array_length ->
  (Z.to_nat (count a s e) <= fuel)%nat ->
  Range_map f fuel (intRange a s e) =
    Some (List.map
            (fun k => Some (f (Num.ofZ (a + Z.of_nat k * s))
                              (Num.ofZ (Z.of_nat k)) (intRange a s e)))
            (seq 0 (Z.to_nat (count a s e)))).
Proof.
  intros Ha Hs He. apply Range_map_values; assumption.
Qed.

Lemma Range_map_on_integers_witness :
  Range_map (fun x i _ => (x, i)) 3 (intRange 1 2 5) =
    Some [Some (Num.ofZ 1, Num.ofZ 0); Some (Num.ofZ 3, Num.ofZ 1);
          Some (Num.ofZ 5, Num.ofZ 2)].
Proof.
  apply (Range_map_on_integers (fun x i _ => (x, i)) 1 2 5 3);
    vm_compute; (reflexivity || lia || discriminate).
Defined.

(** ** Where an array starts and stops *)

Section Ends.

Variables a s e : Z.
Hypothesis Ha : Z.abs a < two53.
Hypothesis Hs : Z.abs s < two53.
Hypothesis He : Z.abs e < two53.
Hypothesis Hdir : (0 < s /\ a <= e) \/ (s < 0 /\ e <= a).

Let q : Z := (e - a) / s.






End Ends.



(** ** The sign of a rounded number *)

Section Shifts.

Lemma shr_1_nonneg (mrs : shr_record) :
  0 <= shr_m mrs -> 0 <= shr_m (shr_1 mrs).
Proof.
  destruct mrs as [m r s]. simpl shr_m.
  destruct m as [|[p|p|]|p]; simpl; lia.
Qed.

Lemma shr_m_shr_1_nonneg (mrs : shr_record) :
  0 <= shr_m mrs -> shr_m (shr_1 mrs) = shr_m mrs / 2.
Proof.
  destruct mrs as [m r s]. simpl shr_m. intros Hm.
  rewrite <- Z.div2_div.
  destruct m as [|[p|p|]|]; try lia; reflexivity.
Qed.

Lemma shr_m_iter (n : nat) (mrs : shr_record) :
  0 <= shr_m mrs ->
  shr_m (Nat.iter n shr_1 mrs) = shr_m mrs / 2 ^ Z.of_nat n.
Proof.
  intros Hm. induction n as [|n IH].
  - simpl. rewrite Z.div_1_r. reflexivity.
  - rewrite Nat.iter_succ, shr_m_shr_1_nonneg.
    + rewrite IH, Nat2Z.inj_succ, Z.pow_succ_r by lia.
      rewrite Z.div_div by (try apply Z.pow_pos_nonneg; lia).
      f_equal. lia.
    + rewrite IH. apply Z.div_pos; [exact Hm | apply Z.pow_pos_nonneg; lia].
Qed.

Lemma shr_m_shr (mrs : shr_record) (e n : Z) :
  0 <= shr_m mrs ->
  shr_m (fst (shr mrs e n)) = shr_m mrs / 2 ^ Z.max 0 n /\
  snd (shr mrs e n) = e + Z.max 0 n.
Proof.
  intros Hm. unfold shr. destruct n as [|p|p]; simpl fst; simpl snd.
  - simpl. rewrite Z.div_1_r. split; [reflexivity | lia].
  - rewrite iter_pos_nat, shr_m_iter, positive_nat_Z by exact Hm.
    split; [f_equal; f_equal; lia | lia].
  - simpl. rewrite Z.div_1_r. split; [reflexivity | lia].
Qed.

Lemma Zdigits2_pos (m : Z) : 0 < m -> 2 ^ (Zdigits2 m - 1) <= m < 2 ^ Zdigits2 m.
Proof.
  destruct m as [|p|p]; try lia. intros _. apply digits2_pos_bounds.
Qed.

(** The mantissa and the exponent after the shift that brings a positive
    mantissa to the exponent of its format: the mantissa stays positive when
    the exponent is not below the smallest one, or when the number is in the
    normal range. *)
Lemma shr_fexp_positive (m e : Z) (l : location) :
  0 < m -> min_exponent <= e \/ min_exponent <= Zdigits2 m + e - prec ->
  0 < shr_m (fst (shr_fexp prec emax m e l)) /\
  min_exponent <= snd (shr_fexp prec emax m e l).
Proof.
  intros Hm Hcond. unfold shr_fexp.
  pose proof (Zdigits2_pos m Hm) as [Hlo Hhi].
  assert (Hd : 0 < Zdigits2 m) by (destruct m; simpl; lia).
  set (d := Zdigits2 m) in *.
  destruct (shr_m_shr (shr_record_of_loc m l) e
              (fexp prec emax (d + e) - e)) as [-> ->];
    [rewrite shr_m_of_loc; lia|].
  rewrite shr_m_of_loc.
  unfold fexp. change (SpecFloat.emin prec emax) with min_exponent.
  change IntDef.Z.max with Z.max. change IntDef.Z.sub with Z.sub.
  change IntDef.Z.add with Z.add.
  destruct (Z.max_spec 0 (Z.max (d + e - prec) min_exponent - e)) as [[H1 ->]|[H1 ->]].
  - assert (Hn : Z.max (d + e - prec) min_exponent - e = d - prec)
      by (unfold min_exponent, prec, emax in *; lia).
    rewrite Hn. split; [|unfold min_exponent, prec, emax in *; lia].
    apply Z.div_str_pos. split; [apply Z.pow_pos_nonneg; lia|].
    apply Z.le_trans with (2 ^ (d - 1)); [|exact Hlo].
    apply Z.pow_le_mono_r; unfold prec; lia.
  - rewrite Z.pow_0_r, Z.div_1_r. split; [exact Hm|].
    unfold min_exponent, prec, emax in *. lia.
Qed.

Lemma shr_fexp_nonneg (m e : Z) (l : location) :
  0 <= m -> 0 <= shr_m (fst (shr_fexp prec emax m e l)).
Proof.
  intros Hm. unfold shr_fexp.
  destruct (shr_m_shr (shr_record_of_loc m l) e
              (fexp prec emax (Zdigits2 m + e) - e)) as [-> _];
    rewrite shr_m_of_loc; try exact Hm.
  apply Z.div_pos; [exact Hm | apply Z.pow_pos_nonneg; lia].
Qed.

Lemma round_nearest_even_le (m : Z) (l : location) :
  m <= round_nearest_even m l.
Proof. destruct (round_nearest_even_cases m l) as [-> | ->]; lia. Qed.

End Shifts.

Section Signs.

(** A rounded number is not NaN and keeps the sign it is given. *)
Lemma binary_round_aux_sign (sx : bool) (m e : Z) (l : location) :
  0 <= m -> has_sign sx (binary_round_aux prec emax sx m e l).
Proof.
  intros Hm. unfold binary_round_aux.
  pose proof (shr_fexp_nonneg m e l Hm) as H1.
  destruct (shr_fexp prec emax m e l) as [mrs' e'] eqn:E1. simpl fst in H1.
  pose proof (round_nearest_even_le (shr_m mrs') (loc_of_shr_record mrs')) as H2.
  pose proof (shr_fexp_nonneg _ e' loc_Exact (Z.le_trans _ _ _ H1 H2)) as H3.
  destruct (shr_fexp prec emax _ e' loc_Exact) as [mrs'' e''].
  simpl fst in H3.
  destruct (shr_m mrs'') as [|p|p]; [reflexivity| |lia].
  destruct (e'' <=? emax - prec); reflexivity.
Qed.

(** A rounded number is not zero either when its mantissa is positive and
    its exponent is not below the smallest one, or the number is in the
    normal range. *)
Lemma binary_round_aux_strictly (sx : bool) (m e : Z) (l : location) :
  0 < m -> min_exponent <= e \/ min_exponent <= Zdigits2 m + e - prec ->
  strictly sx (binary_round_aux prec emax sx m e l).
Proof.
  intros Hm Hcond. unfold binary_round_aux.
  pose proof (shr_fexp_positive m e l Hm Hcond) as [H1 He1].
  destruct (shr_fexp prec emax m e l) as [mrs' e'] eqn:E1.
  simpl fst in H1. simpl snd in He1.
  pose proof (round_nearest_even_le (shr_m mrs') (loc_of_shr_record mrs')) as H2.
  pose proof (shr_fexp_positive _ e' loc_Exact
                (Z.lt_le_trans _ _ _ H1 H2) (or_introl He1)) as [H3 _].
  destruct (shr_fexp prec emax _ e' loc_Exact) as [mrs'' e''].
  simpl fst in H3.
  destruct (shr_m mrs'') as [|p|p]; [lia| |lia].
  destruct (e'' <=? emax - prec); reflexivity.
Qed.

Lemma shl_align_fexp_spec (m : positive) (e : Z) :
  let '(mz, ez) :=
    shl_align m e (fexp prec emax (Zpos (digits2_pos m) + e)) in
  ez <= e /\ Zpos mz = Zpos m * 2 ^ (e - ez) /\
  (min_exponent <= e -> min_exponent <= ez).
Proof.
  unfold shl_align.
  set (E := fexp prec emax (Zpos (digits2_pos m) + e)).
  assert (HE : min_exponent <= E).
  { unfold E, fexp. change (SpecFloat.emin prec emax) with min_exponent.
    change IntDef.Z.max with Z.max. lia. }
  destruct (E - e) as [|p|p] eqn:Hp.
  - rewrite Z.sub_diag. simpl. split; [lia|]. split; [lia | auto].
  - rewrite Z.sub_diag. simpl. split; [lia|]. split; [lia | auto].
  - split; [lia|]. split; [|intros _; exact HE].
    rewrite iter_xO. f_equal. f_equal. lia.
Qed.

Lemma binary_round_sign (sx : bool) (m : positive) (e : Z) :
  has_sign sx (binary_round prec emax sx m e).
Proof.
  unfold binary_round.
  destruct (shl_align m e _) as [mz ez].
  apply binary_round_aux_sign. lia.
Qed.

Lemma binary_round_strictly (sx : bool) (m : positive) (e : Z) :
  min_exponent <= e \/ min_exponent <= Zpos (digits2_pos m) + e - prec ->
  strictly sx (binary_round prec emax sx m e).
Proof.
  intros Hcond. unfold binary_round.
  pose proof (shl_align_fexp_spec m e) as H.
  destruct (shl_align m e _) as [mz ez]. destruct H as (Hle & Hmz & Hmin).
  apply binary_round_aux_strictly; [lia|].
  destruct Hcond as [Hc|Hc]; [left; auto|right].
  simpl Zdigits2.
  rewrite (digits2_pos_shift m mz (e - ez)) by (try assumption; lia). lia.
Qed.

Lemma binary_normalize_not_NaN (z e : Z) (s : bool) :
  isNaN (binary_normalize prec emax z e s) = false.
Proof.
  destruct z as [|p|p]; [reflexivity| |];
    [pose proof (binary_round_sign false p e) as H
    |pose proof (binary_round_sign true p e) as H];
    unfold binary_normalize; destruct (binary_round _ _ _ _ _);
    simpl in *; (reflexivity || contradiction).
Qed.

Lemma binary_normalize_sign (z e : Z) (s : bool) :
  0 < z -> has_sign false (binary_normalize prec emax z e s).
Proof.
  destruct z as [|p|p]; try lia. intros _. apply binary_round_sign.
Qed.

Lemma binary_normalize_strictly (z e : Z) (s : bool) :
  z <> 0 -> min_exponent <= e \/ min_exponent <= Zdigits2 z + e - prec ->
  strictly (z <? 0) (binary_normalize prec emax z e s).
Proof.
  destruct z as [|p|p]; [congruence| |]; intros _ Hcond;
    apply binary_round_strictly; exact Hcond.
Qed.

End Signs.

(** ** Sums, quotients and floors by sign *)

Lemma has_sign_not_NaN (sx : bool) (x : number) :
  has_sign sx x -> isNaN x = false.
Proof. destruct x; simpl; (reflexivity || contradiction). Qed.

Lemma strictly_has_sign (sx : bool) (x : number) :
  strictly sx x -> has_sign sx x.
Proof. destruct x; simpl; intros H; (exact H || contradiction). Qed.

Lemma gtb_zero_inv (x : number) :
  Num.gtb x Num.zero = true <-> strictly false x.
Proof.
  destruct x as [[]|[]| |[] m e]; simpl; split; intros H;
    (reflexivity || discriminate || contradiction).
Qed.

Lemma ltb_zero_inv (x : number) :
  Num.ltb x Num.zero = true <-> strictly true x.
Proof.
  destruct x as [[]|[]| |[] m e]; simpl; split; intros H;
    (reflexivity || discriminate || contradiction).
Qed.

Lemma leb_zero_has_sign (x : number) :
  has_sign false x -> Num.leb Num.zero x = true.
Proof.
  destruct x as [[]|[]| |[] m e]; simpl; intros H;
    (reflexivity || discriminate || contradiction).
Qed.

Lemma strictly_not_zero (sx : bool) (x : number) :
  strictly sx x -> x <> Num.zero /\ isNaN x = false.
Proof.
  destruct x; simpl; intros H; try contradiction; split;
    (discriminate || reflexivity).
Qed.

(** The sum of a number that is not NaN and a finite number is not NaN. *)
Lemma add_not_NaN (x s : number) :
  isNaN x = false -> isFinite s = true -> isNaN (Num.add x s) = false.
Proof.
  destruct x as [sx|sx| |sx mx ex], s as [ss|ss| |ss ms es];
    try discriminate; intros _ _; try reflexivity.
  - destruct sx, ss; reflexivity.
  - apply binary_normalize_not_NaN.
Qed.

(** Adding one to a number that is not negative gives a positive number. *)
Lemma add_one_strictly (x : number) :
  has_sign false x -> strictly false (Num.add x Num.one).
Proof.
  destruct x as [sx|sx| |sx mx ex]; simpl; intros H; subst;
    try contradiction; try reflexivity.
  unfold Num.add, SFadd, Num.one.
  set (ez := Z.min ex (-52)).
  rewrite !fst_shl_align by (unfold ez; lia). unfold cond_Zopp.
  set (M := Zpos mx * 2 ^ (ex - ez) + 4503599627370496 * 2 ^ (-52 - ez)).
  assert (Hp1 : 0 < 2 ^ (ex - ez)) by (apply Z.pow_pos_nonneg; unfold ez; lia).
  assert (Hp2 : 0 < 2 ^ (-52 - ez)) by (apply Z.pow_pos_nonneg; unfold ez; lia).
  assert (HM : 2 ^ (- ez) <= M).
  { unfold M. replace (- ez) with (52 + (-52 - ez)) by lia.
    rewrite Z.pow_add_r by (unfold ez; lia).
    change (2 ^ 52) with 4503599627370496. nia. }
  assert (HM0 : 0 < M).
  { apply Z.lt_le_trans with (2 ^ (- ez)); [|exact HM].
    apply Z.pow_pos_nonneg; unfold ez; lia. }
  replace false with (M <? 0) at 1 by (apply Z.ltb_ge; lia).
  apply binary_normalize_strictly; [lia|].
  right. pose proof (Zdigits2_pos M HM0) as [_ Hhi].
  assert (- ez < Zdigits2 M).
  { apply (Z.pow_lt_mono_r_iff 2); [lia | destruct M; simpl; lia | lia]. }
  unfold min_exponent, emax, prec. lia.
Qed.

(** The floor of a number that is not negative is not negative. *)
Lemma floor_has_sign (x : number) :
  has_sign false x -> has_sign false (Math.floor x).
Proof.
  destruct x as [sx|sx| |sx mx ex]; simpl; intros H; subst;
    try contradiction; try reflexivity.
  destruct (0 <=? ex); [reflexivity|].
  unfold cond_Zopp.
  pose proof (Z.shiftr_nonneg (Zpos mx) (- ex)) as Hn.
  destruct (Z.shiftr (Zpos mx) (- ex)) as [|p|p] eqn:E;
    [reflexivity | apply binary_round_sign | lia].
Qed.

(** The quotient of two numbers of the same strict sign, the divisor
    finite, is not negative. *)
Lemma div_has_sign (sx : bool) (d s : number) :
  strictly sx d -> strictly sx s -> isFinite s = true ->
  has_sign false (Num.div d s).
Proof.
  destruct d as [sd|sd| |sd md ed], s as [ss|ss| |ss ms es]; simpl;
    intros Hd Hs Hf; try contradiction; try discriminate;
    rewrite Hd, Hs; clear Hd Hs sd ss.
  - apply xorb_nilpotent.
  - unfold Num.div, SFdiv.
    destruct (SFdiv_core_binary prec emax (Zpos md) ed (Zpos ms) es)
      as [[mz ez] lz] eqn:E.
    rewrite xorb_nilpotent.
    apply binary_round_aux_sign.
    unfold SFdiv_core_binary in E.
    match type of E with
    | (let '(q, r) := Z.div_eucl ?n ?m in _) = _ =>
        pose proof (Z_div_mod n m ltac:(lia)) as Hdm;
        assert (Hn : 0 <= n);
        [|destruct (Z.div_eucl n m) as [q r]]
    end.
    + match goal with
      |- 0 <= match ?s with _ => _ end =>
          destruct s eqn:Es; try lia;
          rewrite Z.shiftl_mul_pow2 by lia;
          apply Z.mul_nonneg_nonneg; [lia | apply Z.pow_nonneg; lia]
      end.
    + injection E as <- _ _. destruct Hdm as [Hq Hr]. nia.
Qed.

Lemma div_same_sign (sx : bool) (d s : number) :
  strictly sx d -> strictly sx s ->
  isNaN (Num.div d s) = true \/ has_sign false (Num.div d s).
Proof.
  intros Hd Hs. destruct (isFinite s) eqn:Hf.
  - right. apply (div_has_sign sx); assumption.
  - destruct d as [sd|sd| |sd md ed], s as [ss|ss| |ss ms es]; simpl in *;
      try contradiction; try discriminate; subst.
    + left. reflexivity.
    + right. apply xorb_nilpotent.
Qed.

Lemma sign_cases (x : number) :
  (strictly false x /\ math.sign x = Num.one) \/
  (strictly true x /\ math.sign x = Num.neg_one) \/
  ((isNaN x = true \/ exists b, x = S754_zero b) /\ math.sign x = Num.zero).
Proof.
  destruct x as [b|[]| |[] m e];
    first [ left; split; reflexivity
          | right; left; split; reflexivity
          | right; right; split;
            [ first [left; reflexivity | right; eexists; reflexivity]
            | first [reflexivity | destruct b; reflexivity] ] ].
Qed.

Lemma div_no_sign (d s : number) :
  isNaN d = true \/ (exists b, d = S754_zero b) ->
  isNaN s = true \/ (exists b, s = S754_zero b) ->
  Num.div d s = Num.nan.
Proof.
  intros [Hd | [bd ->]] [Hs | [bs ->]];
    try (apply isNaN_inv in Hd; subst);
    try (apply isNaN_inv in Hs; subst); try reflexivity.
Qed.

(** [size()] written out. *)
Lemma Range_size_unfold (this : Range) :
  let s := Number (step this) in
  let d := Num.sub (Number (end_ this)) (Number (start this)) in
  Range_size this =
    [NaN_to_zero
       (if Num.eqb (math.sign s) (math.sign d)
        then Num.add (Math.floor (Num.div d s)) Num.one
        else if Num.eqb d Num.zero then Num.one else Num.zero)].
Proof. reflexivity. Qed.

Lemma NaN_to_zero_positive (q : number) :
  isNaN q = true \/ has_sign false q ->
  let len := NaN_to_zero (Num.add (Math.floor q) Num.one) in
  isNaN len = false /\ Num.leb Num.zero len = true.
Proof.
  intros [Hq | Hq]; cbv zeta.
  - apply isNaN_inv in Hq. subst. split; reflexivity.
  - apply floor_has_sign, add_one_strictly in Hq.
    pose proof (has_sign_not_NaN _ _ (strictly_has_sign _ _ Hq)) as Hn.
    unfold NaN_to_zero. rewrite Hn. split; [exact Hn|].
    apply leb_zero_has_sign, strictly_has_sign, Hq.
Qed.

(** X11: whatever the fields, the length that [size()] returns is not NaN
    and is not negative. *)
Theorem Range_size_not_negative (this : Range) :
  exists len, Range_size this = [len] /\
    isNaN len = false /\ Num.leb Num.zero len = true.
Proof.
  eexists. split; [apply Range_size_unfold|]. cbv zeta.
  set (s := Number (step this)).
  set (d := Num.sub (Number (end_ this)) (Number (start this))).
  destruct (sign_cases s) as [[Hs ->] | [[Hs ->] | [Hs ->]]],
           (sign_cases d) as [[Hd ->] | [[Hd ->] | [Hd ->]]];
    try (change (Num.eqb Num.one Num.neg_one) with false);
    try (change (Num.eqb Num.one Num.zero) with false);
    try (change (Num.eqb Num.neg_one Num.one) with false);
    try (change (Num.eqb Num.neg_one Num.zero) with false);
    try (change (Num.eqb Num.zero Num.one) with false);
    try (change (Num.eqb Num.zero Num.neg_one) with false);
    try (change (Num.eqb Num.one Num.one) with true);
    try (change (Num.eqb Num.neg_one Num.neg_one) with true);
    try (change (Num.eqb Num.zero Num.zero) with true);
    cbv iota;
    try (destruct (Num.eqb d Num.zero); split; reflexivity).
  - apply NaN_to_zero_positive, (div_same_sign false); assumption.
  - apply NaN_to_zero_positive, (div_same_sign true); assumption.
  - rewrite div_no_sign by assumption. split; reflexivity.
Qed.

(** ** A range without end *)

Lemma value_at_not_NaN (a s : number) (k : nat) :
  isNaN a = false -> isFinite s = true -> isNaN (value_at a s k) = false.
Proof.
  intros Ha Hs. induction k as [|k IH]; [exact Ha|].
  rewrite value_at_S. apply add_not_NaN; assumption.
Qed.

Lemma continues_infinite_end (s x : number) (b : bool) :
  strictly b s -> isNaN x = false ->
  continues s (S754_infinity b) x = true.
Proof.
  unfold continues.
  destruct s as [ss|ss| |ss ms es]; simpl; intros Hs Hx; try contradiction;
    subst; destruct b, x as [sx|[]| |sx mx ex]; try discriminate; reflexivity.
Qed.

Lemma strictly_direction (b : bool) (s : number) :
  strictly b s ->
  Num.gtb s Num.zero = true \/ Num.ltb s Num.zero = true.
Proof.
  destruct s as [ss|ss| |ss ms es]; simpl; intros Hs; try contradiction;
    subst; destruct b; auto.
Qed.

(** X12: a range whose end is the infinity that its finite, non-zero step
    points to never finishes its traversal: whatever the bound, [forEach] is
    still running and [toArray()] has not returned; with a finite start,
    [size()] is [[Infinity]]. *)
Theorem Range_forEach_infinite_end {S : Type}
    (callback : number -> number -> Range -> S -> S) (a s : number) (b : bool) :
  isNaN a = false -> isFinite s = true -> strictly b s ->
  (forall fuel s0,
     Range_forEach callback fuel (numRange a s (S754_infinity b)) s0 =
       Running (invoke callback (numRange a s (S754_infinity b))
                  (invocations a s fuel) s0)) /\
  (forall fuel, Range_toArray fuel (numRange a s (S754_infinity b)) = None) /\
  (isFinite a = true ->
   Range_size (numRange a s (S754_infinity b)) = [Num.infinity]).
Proof.
  intros Ha Hf Hs.
  assert (Hrun : forall (T : Type) (cb : number -> number -> Range -> T -> T)
            fuel t0,
            Range_forEach cb fuel (numRange a s (S754_infinity b)) t0 =
              Running (invoke cb (numRange a s (S754_infinity b))
                         (invocations a s fuel) t0)).
  { intros T cb fuel t0. apply Range_forEach_running.
    - apply (strictly_direction b), Hs.
    - intros k _. apply continues_infinite_end; [exact Hs|].
      apply value_at_not_NaN; assumption. }
  split; [apply Hrun|]. split.
  - intros fuel. unfold Range_toArray. rewrite Hrun. reflexivity.
  - intros Hfa.
    destruct a as [sa|sa| |sa ma ea], s as [ss|ss| |ss ms es];
      simpl in Hs; try contradiction; try discriminate; subst;
      destruct b; reflexivity.
Qed.

Lemma Range_forEach_infinite_end_witness :
  (forall fuel,
     Range_forEach (fun _ _ _ c => Datatypes.S c) fuel
       (numRange Num.zero Num.one Num.infinity) 0%nat =
       Running (invoke (fun _ _ _ c => Datatypes.S c)
                  (numRange Num.zero Num.one Num.infinity)
                  (invocations Num.zero Num.one fuel) 0%nat)) /\
  Range_size (numRange Num.zero Num.one Num.infinity) = [Num.infinity].
Proof.
  destruct (Range_forEach_infinite_end (fun _ _ _ c => Datatypes.S c)
              Num.zero Num.one false) as (H1 & _ & H2);
    try reflexivity.
  split; [intros fuel; apply H1 | apply H2; reflexivity].
Defined.

(** ** Comparison and difference of finite numbers *)

Section FiniteNumbers.

Lemma valid_finite_inv (s : bool) (m : positive) (e : Z) :
  Num.valid (S754_finite s m e) = true ->
  min_exponent <= e /\ Zpos (digits2_pos m) <= prec /\
  (e = min_exponent \/ Zpos (digits2_pos m) = prec).
Proof.
  unfold Num.valid, valid_binary, bounded, canonical_mantissa, fexp.
  change (SpecFloat.emin prec emax) with min_exponent.
  intros H. apply andb_prop in H as [H _]. apply Z.eqb_eq in H.
  change IntDef.Z.max with Z.max in H. change IntDef.Z.sub with Z.sub in H.
  change IntDef.Z.add with Z.add in H.
  lia.
Qed.

(** Two finite numbers in the canonical form compare as the integers they
    stand for in units of the smaller exponent. *)
Lemma compare_finite (s1 s2 : bool) (m1 m2 : positive) (e1 e2 : Z) :
  Num.valid (S754_finite s1 m1 e1) = true ->
  Num.valid (S754_finite s2 m2 e2) = true ->
  SFcompare (S754_finite s1 m1 e1) (S754_finite s2 m2 e2) =
    Some (cond_Zopp s1 (Zpos m1 * 2 ^ (e1 - Z.min e1 e2)) ?=
          cond_Zopp s2 (Zpos m2 * 2 ^ (e2 - Z.min e1 e2))).
Proof.
  intros H1 H2.
  apply valid_finite_inv in H1 as (Hmin1 & Hd1 & Hn1).
  apply valid_finite_inv in H2 as (Hmin2 & Hd2 & Hn2).
  pose proof (digits2_pos_bounds m1) as [Hlo1 Hhi1].
  pose proof (digits2_pos_bounds m2) as [Hlo2 Hhi2].
  assert (Hp1 : 0 < 2 ^ (e1 - Z.min e1 e2)) by (apply Z.pow_pos_nonneg; lia).
  assert (Hp2 : 0 < 2 ^ (e2 - Z.min e1 e2)) by (apply Z.pow_pos_nonneg; lia).
  assert (Hcmp : match e1 ?= e2 with
                 | Eq => Pos.compare_cont Eq m1 m2
                 | Lt => Lt
                 | Gt => Gt
                 end =
                 (Zpos m1 * 2 ^ (e1 - Z.min e1 e2) ?=
                  Zpos m2 * 2 ^ (e2 - Z.min e1 e2))).
  { symmetry. destruct (Z.compare_spec e1 e2) as [He|He|He].
    - subst e2. rewrite Z.min_id, Z.sub_diag. simpl Z.pow.
      rewrite !Z.mul_1_r. reflexivity.
    - apply Z.compare_lt_iff.
      rewrite Z.min_l, Z.sub_diag by lia. simpl Z.pow. rewrite Z.mul_1_r.
      assert (Hd : Zpos (digits2_pos m2) = prec) by lia.
      rewrite Hd in Hlo2.
      assert (Hup : 2 ^ Zpos (digits2_pos m1) <= 2 ^ prec)
        by (apply Z.pow_le_mono_r; lia).
      assert (H2e : 2 ^ 1 <= 2 ^ (e2 - e1)) by (apply Z.pow_le_mono_r; lia).
      change (2 ^ prec) with (2 * 2 ^ (prec - 1)) in Hup.
      change (2 ^ 1) with 2 in H2e. nia.
    - apply Z.compare_gt_iff.
      rewrite Z.min_r, Z.sub_diag by lia. simpl Z.pow. rewrite Z.mul_1_r.
      assert (Hd : Zpos (digits2_pos m1) = prec) by lia.
      rewrite Hd in Hlo1.
      assert (Hup : 2 ^ Zpos (digits2_pos m2) <= 2 ^ prec)
        by (apply Z.pow_le_mono_r; lia).
      assert (H2e : 2 ^ 1 <= 2 ^ (e1 - e2)) by (apply Z.pow_le_mono_r; lia).
      change (2 ^ prec) with (2 * 2 ^ (prec - 1)) in Hup.
      change (2 ^ 1) with 2 in H2e. nia. }
  unfold SFcompare. change IntDef.Z.compare with Z.compare.
  destruct s1, s2; unfold cond_Zopp; f_equal.
  - rewrite Z.compare_opp, (Z.compare_antisym (Zpos m1 * _)), <- Hcmp.
    destruct (e1 ?= e2); reflexivity.
  - symmetry. apply Z.compare_lt_iff. lia.
  - symmetry. apply Z.compare_gt_iff. lia.
  - exact Hcmp.
Qed.

Lemma compare_zero_strictly (b : bool) (x : number) :
  strictly b x -> SFcompare x Num.zero = Some (if b then Lt else Gt).
Proof.
  destruct x as [sx|sx| |sx mx ex]; simpl; intros H; try contradiction;
    subst; reflexivity.
Qed.

(** The difference of two finite numbers has the sign of their
    comparison: it is a zero when they are equal, negative when the first is
    the smaller and positive when it is the larger. *)
Lemma sub_compare (x y : number) :
  finite_number x = true -> finite_number y = true ->
  exists c,
    SFcompare x y = Some c /\ SFcompare y x = Some (CompOpp c) /\
    match c with
    | Eq => exists b, Num.sub x y = S754_zero b
    | Lt => strictly true (Num.sub x y)
    | Gt => strictly false (Num.sub x y)
    end.
Proof.
  unfold finite_number. intros Hx Hy.
  apply andb_prop in Hx as [Vx Fx]. apply andb_prop in Hy as [Vy Fy].
  destruct x as [sx|sx| |sx mx ex], y as [sy|sy| |sy my ey];
    try discriminate.
  - exists Eq. repeat split. destruct sx, sy; simpl; eauto.
  - exists (if sy then Gt else Lt). destruct sy; repeat split.
  - exists (if sx then Lt else Gt). destruct sx; repeat split.
  - eexists. split; [apply compare_finite; assumption|]. split.
    + rewrite compare_finite, (Z.min_comm ey ex) by assumption.
      f_equal. apply Z.compare_antisym.
    + pose proof (valid_finite_inv _ _ _ Vx) as (Hminx & _).
      pose proof (valid_finite_inv _ _ _ Vy) as (Hminy & _).
      unfold Num.sub, SFsub.
      rewrite !fst_shl_align by lia.
      set (ez := Z.min ex ey).
      set (X := cond_Zopp sx (Zpos mx * 2 ^ (ex - ez))).
      set (Y := cond_Zopp sy (Zpos my * 2 ^ (ey - ez))).
      destruct (Z.compare_spec X Y) as [E|E|E].
      * exists false. replace (X - Y) with 0 by lia. reflexivity.
      * replace true with (X - Y <? 0) by (apply Z.ltb_lt; lia).
        apply binary_normalize_strictly; [lia | left; unfold ez; lia].
      * replace false with (X - Y <? 0) by (apply Z.ltb_ge; lia).
        apply binary_normalize_strictly; [lia | left; unfold ez; lia].
Qed.

End FiniteNumbers.

(** ** Empty ranges *)

Lemma list_set_not_nil {A : Type} (arr : array A) (n : nat) (v : A) :
  list_set arr n v <> [].
Proof. destruct n, arr; discriminate. Qed.

Lemma array_set_not_nil {A : Type} (arr : array A) (i : number) (v : A) :
  arr <> [] -> array_set arr i v <> [].
Proof.
  intros H. unfold array_set.
  destruct (array_index i); [apply list_set_not_nil | exact H].
Qed.

Lemma ltb_gtb_zero (s : number) :
  Num.ltb s Num.zero = true -> Num.gtb s Num.zero = false.
Proof. destruct s as [b|b| |b m e]; try destruct b; cbv; congruence. Qed.

(** An array that [toArray()] returns for a range whose start is on the
    way to the end has an element. *)
Lemma Range_toArray_not_nil (a s e : number) (fuel : nat) (arr : array number) :
  towards s e a -> Range_toArray fuel (numRange a s e) = Some arr -> arr <> [].
Proof.
  intros Ht. unfold Range_toArray, Range_forEach.
  cbn [start step end_ numRange Number].
  assert (Hloop : forall guard, guard a = true ->
            returned
              (Range_while
                 (fun value index (_ : Range) array =>
                    array_set array index value)
                 guard (numRange a s e) s fuel a Num.zero []) = Some arr ->
            arr <> []).
  { intros guard Hg. destruct fuel as [|fuel].
    - rewrite Range_while_O, Hg. discriminate.
    - rewrite Range_while_S, Hg.
      change (array_set [] Num.zero a) with [Some a].
      pose proof (Range_while_invariant
                    (fun value index (_ : Range) array =>
                       array_set array index value)
                    guard (numRange a s e) s (fun st => st <> [])
                    (fun x i st _ Hst => array_set_not_nil st i x Hst)
                    fuel (Num.add a s) (Num.add Num.zero Num.one) [Some a]
                    ltac:(discriminate)) as Hinv.
      cbv beta in Hinv.
      match type of Hinv with
      | state_of ?o <> _ => destruct o as [st|st]; [|discriminate]
      end.
      intros [= <-]. exact Hinv. }
  destruct Ht as [[Hg Hle] | [Hl Hge]].
  - rewrite Hg. apply Hloop. exact Hle.
  - rewrite (ltb_gtb_zero s Hl), Hl. apply Hloop. exact Hge.
Qed.

Lemma Range_toArray_empty_iff (a s e : number) (fuel : nat) :
  Range_toArray fuel (numRange a s e) = Some [] <-> ~ towards s e a.
Proof.
  split.
  - intros H Ht. apply (Range_toArray_not_nil a s e fuel [] Ht H). reflexivity.
  - intros Hn. unfold Range_toArray. rewrite Range_forEach_nothing.
    + reflexivity.
    + intros Hg. destruct (Num.leb a e) eqn:Hle; [|reflexivity].
      exfalso. apply Hn. left. split; assumption.
    + intros Hl. destruct (Num.geb a e) eqn:Hge; [|reflexivity].
      exfalso. apply Hn. right. split; assumption.
Qed.

Lemma sign_strictly (b : bool) (x : number) :
  strictly b x -> math.sign x = if b then Num.neg_one else Num.one.
Proof.
  destruct x as [sx|sx| |sx mx ex]; simpl; intros H; try contradiction;
    subst; destruct b; reflexivity.
Qed.

Lemma eqb_zero_strictly (b : bool) (x : number) :
  strictly b x -> Num.eqb x Num.zero = false.
Proof.
  intros H. unfold Num.eqb, SFeqb. rewrite (compare_zero_strictly b x H).
  destruct b; reflexivity.
Qed.

Lemma NaN_to_zero_strictly (b : bool) (x : number) :
  strictly b x -> NaN_to_zero x <> Num.zero.
Proof.
  intros H. destruct (strictly_not_zero b x H) as [Hz Hn].
  unfold NaN_to_zero. rewrite Hn. exact Hz.
Qed.

Section EmptyRange.

Variables a s e : number.
Hypothesis Ha : finite_number a = true.
Hypothesis Hs : isFinite s = true.
Hypothesis He : finite_number e = true.

Lemma Range_size_zero_iff : 
  Range_size (numRange a s e) = [Num.zero] <-> ~ towards s e a.
Proof using Ha Hs He.
  rewrite Range_size_unfold. cbv zeta. cbn [start step end_ numRange Number].
  destruct (sub_compare e a He Ha) as (c & Hea & Hae & Hd).
  unfold towards, Num.leb, Num.geb, SFleb. rewrite Hea, Hae.
  set (d := Num.sub e a) in *.
  destruct (sign_cases s) as [[Hss Es] | [[Hss Es] | [Hss Es]]]; rewrite Es.
  - (* a positive step *)
    apply gtb_zero_inv in Hss as Hg. rewrite Hg, (gtb_ltb_zero s Hg).
    destruct c; simpl CompOpp; cbv iota.
    + destruct Hd as [b Hd]. rewrite Hd.
      replace (math.sign (S754_zero b)) with Num.zero by (destruct b; reflexivity).
      replace (Num.eqb (S754_zero b) Num.zero) with true by (destruct b; reflexivity).
      split; [discriminate | intros H; exfalso; apply H; auto].
    + rewrite (sign_strictly true d Hd), (eqb_zero_strictly true d Hd).
      split; [intros _ [[_ H]|[H _]]; discriminate | reflexivity].
    + rewrite (sign_strictly false d Hd).
      split; [|intros H; exfalso; apply H; auto].
      intros H. exfalso. injection H as H. revert H.
      apply (NaN_to_zero_strictly false), add_one_strictly, floor_has_sign.
      apply (div_has_sign false); assumption.
  - (* a negative step *)
    apply ltb_zero_inv in Hss as Hl. rewrite Hl, (ltb_gtb_zero s Hl).
    destruct c; simpl CompOpp; cbv iota.
    + destruct Hd as [b Hd]. rewrite Hd.
      replace (math.sign (S754_zero b)) with Num.zero by (destruct b; reflexivity).
      replace (Num.eqb (S754_zero b) Num.zero) with true by (destruct b; reflexivity).
      split; [discriminate | intros H; exfalso; apply H; auto].
    + rewrite (sign_strictly true d Hd).
      split; [|intros H; exfalso; apply H; auto].
      intros H. exfalso. injection H as H. revert H.
      apply (NaN_to_zero_strictly false), add_one_strictly, floor_has_sign.
      apply (div_has_sign true); assumption.
    + rewrite (sign_strictly false d Hd), (eqb_zero_strictly false d Hd).
      split; [intros _ [[H _]|[_ H]]; discriminate | reflexivity].
  - (* no direction *)
    assert (Hg : Num.gtb s Num.zero = false).
    { destruct Hss as [Hn | [b ->]]; [apply isNaN_inv in Hn; subst|];
        reflexivity. }
    assert (Hl : Num.ltb s Num.zero = false).
    { destruct Hss as [Hn | [b ->]]; [apply isNaN_inv in Hn; subst|];
        reflexivity. }
    rewrite Hg, Hl.
    split; [intros _ [[H _]|[H _]]; discriminate | intros _].
    destruct c.
    + destruct Hd as [b Hd].
      rewrite (div_no_sign d s) by (rewrite ?Hd; eauto).
      rewrite Hd. destruct b; reflexivity.
    + rewrite (sign_strictly true d Hd), (eqb_zero_strictly true d Hd).
      reflexivity.
    + rewrite (sign_strictly false d Hd), (eqb_zero_strictly false d Hd).
      reflexivity.
Qed.

End EmptyRange.

(** X13: for a range whose start, step and end are finite numbers,
    [size()] is [[0]] exactly when [toArray()] returns the empty array, which
    is when the step is 0 or points away from the end. *)
Theorem Range_size_zero_iff_empty (a s e : number) :
  finite_number a = true -> isFinite s = true -> finite_number e = true ->
  (Range_size (numRange a s e) = [Num.zero] <-> ~ towards s e a) /\
  (forall fuel,
     Range_toArray fuel (numRange a s e) = Some [] <-> ~ towards s e a).
Proof.
  intros Ha Hs He. split.
  - apply Range_size_zero_iff; assumption.
  - intros fuel. apply Range_toArray_empty_iff.
Qed.

Lemma Range_size_zero_iff_empty_witness :
  (Range_size (numRange (token_number "0.5") (token_number "-0.1") Num.one) =
     [Num.zero] <->
   ~ towards (token_number "-0.1") Num.one (token_number "0.5")) /\
  (forall fuel,
     Range_toArray fuel
       (numRange (token_number "0.5") (token_number "-0.1") Num.one) = Some [] <->
     ~ towards (token_number "-0.1") Num.one (token_number "0.5")).
Proof.
  apply (Range_size_zero_iff_empty (token_number "0.5") (token_number "-0.1")
           Num.one); vm_compute; reflexivity.
Defined.

(** ** Tokens of decimal digits *)

Module Numerals.

Import StringNumericLiteral.

Lemma isDigit_not_space (c : ascii) : isDigit c = true -> isWhiteSpace c = false.
Proof.
  intros H. destruct c as [[] [] [] [] [] [] [] []];
    (reflexivity || discriminate H).
Qed.

Lemma isDigit_not_colon (c : ascii) : isDigit c = true -> Ascii.eqb c ":" = false.
Proof.
  intros H. destruct c as [[] [] [] [] [] [] [] []];
    (reflexivity || discriminate H).
Qed.

Lemma isDigit_digitIn (c : ascii) :
  isDigit c = true -> digitIn 10 c = Some (Z.of_N (N_of_ascii c) - 48).
Proof.
  unfold isDigit, digitIn, digitValue. intros H. rewrite H.
  apply andb_prop in H as [H1 H2]. apply Z.leb_le in H1, H2.
  destruct (Z.ltb_spec (Z.of_N (N_of_ascii c) - 48) 10); [reflexivity | lia].
Qed.

Lemma isDigit_radixOf (c : ascii) : isDigit c = true -> radixOf c = None.
Proof.
  intros H. destruct c as [[] [] [] [] [] [] [] []];
    (reflexivity || discriminate H).
Qed.

Lemma isDigit_splitSign (c : ascii) (s : string) :
  isDigit c = true -> splitSign (String c s) = (false, String c s).
Proof.
  intros H. destruct c as [[] [] [] [] [] [] [] []];
    (reflexivity || discriminate H).
Qed.

Lemma isDigit_not_Infinity (c : ascii) (s : string) :
  isDigit c = true -> String.eqb (String c s) "Infinity" = false.
Proof.
  intros H. destruct c as [[] [] [] [] [] [] [] []];
    (reflexivity || discriminate H).
Qed.

Lemma all_digits_trimEnd (s : string) : all_digits s = true -> trimEnd s = s.
Proof.
  induction s as [|c s IH]; [reflexivity|]. simpl.
  intros H. apply andb_prop in H as [Hc Hs]. rewrite (IH Hs).
  rewrite (isDigit_not_space c Hc). destruct s; reflexivity.
Qed.

Lemma numeral_inv (ds : string) :
  numeral ds = true ->
  exists c s, ds = String c s /\ isDigit c = true /\ all_digits s = true /\
              all_digits ds = true.
Proof.
  unfold numeral. destruct ds as [|c s]; [discriminate|]. simpl.
  intros H. apply andb_prop in H as [Hc Hs]. exists c, s.
  rewrite Hc, Hs. auto.
Qed.

Lemma trimEnd_cons (c : ascii) (s : string) :
  trimEnd (String c s) =
    match trimEnd s with
    | EmptyString => if isWhiteSpace c then EmptyString else String c EmptyString
    | t => String c t
    end.
Proof. reflexivity. Qed.

Lemma trimStart_cons (c : ascii) (s : string) :
  isWhiteSpace c = false -> trimStart (String c s) = String c s.
Proof. intros H. simpl. rewrite H. reflexivity. Qed.

Lemma numeral_trim (neg : bool) (ds : string) :
  numeral ds = true -> trim (integer_token neg ds) = integer_token neg ds.
Proof.
  intros H. destruct (numeral_inv ds H) as (c & s & -> & Hc & Hs & Hall).
  unfold trim, integer_token. destruct neg.
  - rewrite trimStart_cons by reflexivity.
    rewrite trimEnd_cons, (all_digits_trimEnd _ Hall). reflexivity.
  - rewrite trimStart_cons by (apply isDigit_not_space, Hc).
    apply all_digits_trimEnd, Hall.
Qed.

Lemma numeral_not_prefixed (c : ascii) (s : string) :
  all_digits (String c s) = true -> nonDecimalLiteral (String c s) = None.
Proof.
  simpl. intros H. apply andb_prop in H as [_ Hs].
  destruct s as [|p r]; [destruct c as [[] [] [] [] [] [] [] []]; reflexivity|].
  simpl in Hs. apply andb_prop in Hs as [Hp _].
  unfold nonDecimalLiteral. rewrite (isDigit_radixOf p Hp).
  destruct c as [[] [] [] [] [] [] [] []]; reflexivity.
Qed.

Lemma digits_numeral (s : string) :
  all_digits s = true ->
  forall acc count,
    digits 10 s acc count =
      (numeral_value_from acc s, count + Z.of_nat (String.length s), "").
Proof.
  induction s as [|c s IH]; intros H acc count.
  - simpl. rewrite Z.add_0_r. reflexivity.
  - simpl in H. apply andb_prop in H as [Hc Hs].
    cbn [digits]. rewrite (isDigit_digitIn c Hc), (IH Hs).
    cbn [numeral_value_from String.length]. do 2 f_equal. lia.
Qed.

Lemma numeral_unsigned (ds : string) :
  numeral ds = true ->
  unsignedDecimalLiteral ds = Some (numeral_value ds, 0).
Proof.
  intros H. destruct (numeral_inv ds H) as (c & s & E & _ & _ & Hall).
  unfold unsignedDecimalLiteral. rewrite (digits_numeral ds Hall).
  assert (Hlen : (0 <? 0 + Z.of_nat (String.length ds)) = true)
    by (apply Z.ltb_lt; subst ds; simpl String.length; lia).
  rewrite Hlen. reflexivity.
Qed.

Lemma numeral_value_from_nonneg (s : string) :
  all_digits s = true -> forall acc, 0 <= acc -> 0 <= numeral_value_from acc s.
Proof.
  induction s as [|c s IH]; intros H acc Hacc; [exact Hacc|].
  simpl in H. apply andb_prop in H as [Hc Hs]. simpl.
  apply (IH Hs). unfold isDigit in Hc. apply andb_prop in Hc as [H1 _].
  apply Z.leb_le in H1. lia.
Qed.

Lemma decimalValue_integer (neg : bool) (v : Z) :
  0 <= v ->
  decimalValue neg v 0 =
    if v =? 0 then S754_zero neg else Num.ofZ (cond_Zopp neg v).
Proof.
  intros Hv. unfold decimalValue. destruct (Z.eqb_spec v 0); [reflexivity|].
  simpl Z.leb. cbv iota. rewrite Z.pow_0_r, Z.mul_1_r.
  unfold Num.ofZ. destruct v as [|p|p]; [congruence| |lia].
  destruct neg; reflexivity.
Qed.

(** A token of decimal digits, with or without a minus sign, converts to the
    number of the integer that it spells. *)
Lemma token_number_integer (neg : bool) (ds : string) :
  numeral ds = true ->
  token_number (integer_token neg ds) = integer_number neg ds.
Proof.
  intros H. destruct (numeral_inv ds H) as (c & s & E & Hc & Hs & Hall).
  unfold token_number, Number, StringToNumber.
  rewrite (numeral_trim neg ds H).
  assert (Hsplit : nonDecimalLiteral (integer_token neg ds) = None /\
                   splitSign (integer_token neg ds) = (neg, ds)).
  { unfold integer_token. destruct neg; [split; reflexivity|]. subst ds.
    split; [apply numeral_not_prefixed, Hall | apply isDigit_splitSign, Hc]. }
  destruct Hsplit as [Hnd Hsp].
  assert (Hne : exists c' s', integer_token neg ds = String c' s')
    by (unfold integer_token; destruct neg; subst ds; eauto).
  destruct Hne as (c' & s' & Et). rewrite Et in *. rewrite Hnd, Hsp.
  assert (Hinf : String.eqb ds "Infinity" = false)
    by (subst ds; apply isDigit_not_Infinity, Hc).
  rewrite Hinf, (numeral_unsigned ds H).
  apply decimalValue_integer, numeral_value_from_nonneg; [exact Hall | lia].
Qed.

Lemma integer_token_no_colon (neg : bool) (ds : string) :
  all_digits ds = true -> no_colon (integer_token neg ds) = true.
Proof.
  intros H.
  assert (Hds : no_colon ds = true).
  { induction ds as [|c s IH]; [reflexivity|].
    simpl in H. apply andb_prop in H as [Hc Hs]. simpl.
    rewrite (isDigit_not_colon c Hc), (IH Hs). reflexivity. }
  unfold integer_token. destruct neg; [simpl; exact Hds | exact Hds].
Qed.

Lemma integer_number_not_NaN (neg : bool) (ds : string) :
  isNaN (integer_number neg ds) = false.
Proof.
  unfold integer_number. destruct (numeral_value ds =? 0); [reflexivity|].
  apply binary_normalize_not_NaN.
Qed.

End Numerals.

(** X14: [Range.parse] of a text of two or three integers written in decimal
    digits, each with or without a minus sign, and separated by colons,
    returns the range of these integers (each rounded to the nearest number
    when it has more than 53 bits), with step 1 when there are two. *)
Theorem Range_parse_integers (n0 n1 n2 : bool) (d0 d1 d2 : string) :
  numeral d0 = true -> numeral d1 = true -> numeral d2 = true ->
  Range_parse
    (VString (integer_token n0 d0 ++ ":" ++ integer_token n2 d2)) =
    Ok (Some (numRange (integer_number n0 d0) Num.one (integer_number n2 d2))) /\
  Range_parse
    (VString (integer_token n0 d0 ++ ":" ++ integer_token n1 d1 ++ ":" ++
              integer_token n2 d2)) =
    Ok (Some (numRange (integer_number n0 d0) (integer_number n1 d1)
                (integer_number n2 d2))).
Proof.
  intros H0 H1 H2.
  destruct (Numerals.numeral_inv d0 H0) as (_ & _ & _ & _ & _ & A0).
  destruct (Numerals.numeral_inv d1 H1) as (_ & _ & _ & _ & _ & A1).
  destruct (Numerals.numeral_inv d2 H2) as (_ & _ & _ & _ & _ & A2).
  pose proof (Numerals.integer_token_no_colon n0 d0 A0) as C0.
  pose proof (Numerals.integer_token_no_colon n1 d1 A1) as C1.
  pose proof (Numerals.integer_token_no_colon n2 d2 A2) as C2.
  rewrite !Range_parse_string. unfold tokens.
  change (integer_token n0 d0 ++ ":" ++ integer_token n2 d2)
    with (integer_token n0 d0 ++ String ":" (integer_token n2 d2)).
  change (integer_token n0 d0 ++ ":" ++ integer_token n1 d1 ++ ":" ++
          integer_token n2 d2)
    with (integer_token n0 d0 ++
          String ":" (integer_token n1 d1 ++ String ":" (integer_token n2 d2))).
  rewrite !split_append, !split_no_colon by assumption.
  cbn [List.map existsb].
  rewrite !Numerals.token_number_integer by assumption.
  rewrite !Numerals.integer_number_not_NaN. split; reflexivity.
Qed.

Lemma Range_parse_integers_witness :
  Range_parse (VString "0:10") =
    Ok (Some (numRange Num.zero Num.one (Num.ofZ 10))) /\
  Range_parse (VString "0:-2:10") =
    Ok (Some (numRange Num.zero (Num.ofZ (-2)) (Num.ofZ 10))).
Proof.
  apply (Range_parse_integers false true false "0" "2" "10"); reflexivity.
Defined.

(** ** Binary fractions

    A range whose fields are integers divided by the same power of two, such
    as a step of 0.5 or 0.25, behaves as the range of the integers: the
    numbers have the mantissas of the integers and exponents lowered by [k],
    and no operation of the range rounds differently. *)

Section Shifted.

Variable k : Z.

Lemma compare_shifted (x y : number) :
  SFcompare (shifted k x) (shifted k y) = SFcompare x y.
Proof.
  destruct x as [sx|sx| |sx mx ex], y as [sy|sy| |sy my ey]; try reflexivity.
  unfold shifted, SFcompare. change IntDef.Z.compare with Z.compare.
  replace (ex - k ?= ey - k) with (ex ?= ey); [reflexivity|].
  destruct (Z.compare_spec ex ey); symmetry;
    [apply Z.compare_eq_iff | apply Z.compare_lt_iff | apply Z.compare_gt_iff];
    lia.
Qed.

Lemma shifted_zero : shifted k Num.zero = Num.zero.
Proof. reflexivity. Qed.

Lemma leb_shifted (x y : number) :
  Num.leb (shifted k x) (shifted k y) = Num.leb x y.
Proof. unfold Num.leb, SFleb. rewrite compare_shifted. reflexivity. Qed.

Lemma ltb_shifted (x y : number) :
  Num.ltb (shifted k x) (shifted k y) = Num.ltb x y.
Proof. unfold Num.ltb, SFltb. rewrite compare_shifted. reflexivity. Qed.

Lemma eqb_shifted (x y : number) :
  Num.eqb (shifted k x) (shifted k y) = Num.eqb x y.
Proof. unfold Num.eqb, SFeqb. rewrite compare_shifted. reflexivity. Qed.

Lemma sign_shifted (x : number) : math.sign (shifted k x) = math.sign x.
Proof. destruct x as [sx|sx| |[] mx ex]; reflexivity. Qed.

Lemma div_shifted (x y : number) :
  Num.div (shifted k x) (shifted k y) = Num.div x y.
Proof.
  destruct x as [sx|sx| |sx mx ex], y as [sy|sy| |sy my ey]; try reflexivity.
  unfold shifted, Num.div, SFdiv, SFdiv_core_binary.
  change IntDef.Z.sub with Z.sub. change IntDef.Z.add with Z.add.
  change IntDef.Z.min with Z.min.
  replace (Zdigits2 (Zpos mx) + (ex - k) - (Zdigits2 (Zpos my) + (ey - k)))
    with (Zdigits2 (Zpos mx) + ex - (Zdigits2 (Zpos my) + ey)) by lia.
  replace (ex - k - (ey - k)) with (ex - ey) by lia.
  reflexivity.
Qed.

End Shifted.

Section Scaled.

Variable k : Z.
Hypothesis Hk : 0 <= k <= max_scale.

Lemma binary_normalize_shift (z j e : Z) (s : bool) :
  0 <= j ->
  binary_normalize prec emax (z * 2 ^ j) (e - j) s =
    binary_normalize prec emax z e s.
Proof using Type.
  clear Hk. intros Hj.
  assert (Hp : 0 < 2 ^ j) by (apply Z.pow_pos_nonneg; lia).
  destruct z as [|z|z].
  - reflexivity.
  - destruct (Zpos z * 2 ^ j) as [|m|m] eqn:Hm; try lia.
    apply (binary_round_scale false z m e j); [assumption | lia].
  - destruct (Zneg z * 2 ^ j) as [|m|m] eqn:Hm; try lia.
    apply (binary_round_scale true z m e j); [assumption | lia].
Qed.

Lemma digits_mantissa_of_53 (p : positive) :
  Zpos p < two53 -> Zpos (digits2_pos (mantissa_of p)) = 53.
Proof using Type.
  clear Hk. intros Hp. pose proof (digits2_pos_le_53 p Hp).
  rewrite (digits2_pos_shift p (mantissa_of p) (53 - Zpos (digits2_pos p)))
    by (try apply mantissa_of_spec; lia).
  lia.
Qed.

Lemma binary_round_fraction (sx : bool) (p : positive) :
  Zpos p < two53 ->
  binary_round prec emax sx p (- k) =
    S754_finite sx (mantissa_of p) (exponent_of p - k).
Proof using Hk.
  intros Hp. pose proof (digits2_pos_le_53 p Hp) as Hd.
  pose proof (exponent_of_nonpos p Hp) as He.
  apply binary_round_shl.
  - lia.
  - rewrite mantissa_of_spec by exact Hp. do 2 f_equal.
    unfold exponent_of. lia.
  - unfold canonical_mantissa. apply Z.eqb_eq.
    rewrite digits_mantissa_of_53 by exact Hp.
    unfold exponent_of, fexp, emin, prec, emax, max_scale in *. lia.
  - unfold exponent_of, prec, emax in *. lia.
Qed.

(** A fraction has the mantissa of its integer. *)
Lemma scaled_shifted (z : Z) :
  Z.abs z < two53 -> scaled z k = shifted k (Num.ofZ z).
Proof using Hk.
  intros Hz. destruct z as [|p|p].
  - reflexivity.
  - rewrite ofZ_pos by exact Hz. apply binary_round_fraction. exact Hz.
  - rewrite ofZ_neg by exact Hz. apply binary_round_fraction. exact Hz.
Qed.

Lemma scaled_aligned (p : positive) (ez : Z) :
  Zpos p < two53 -> ez <= exponent_of p ->
  Zpos (fst (shl_align (mantissa_of p) (exponent_of p - k) (ez - k))) =
    Zpos p * 2 ^ (- ez).
Proof using Type.
  clear Hk. intros Hp Hle. pose proof (digits2_pos_le_53 p Hp) as Hd.
  rewrite fst_shl_align, mantissa_of_spec by (try assumption; lia).
  rewrite <- Z.mul_assoc, <- Z.pow_add_r by (unfold exponent_of in *; lia).
  do 2 f_equal. unfold exponent_of. lia.
Qed.

Lemma add_fraction_finite (sa sb : bool) (a b : positive) :
  Zpos a < two53 -> Zpos b < two53 ->
  Num.add (S754_finite sa (mantissa_of a) (exponent_of a - k))
          (S754_finite sb (mantissa_of b) (exponent_of b - k)) =
    scaled (cond_Zopp sa (Zpos a) + cond_Zopp sb (Zpos b)) k.
Proof using Type.
  clear Hk. intros Ha Hb.
  pose proof (exponent_of_nonpos a Ha). pose proof (exponent_of_nonpos b Hb).
  unfold Num.add, SFadd.
  set (ez := Z.min (exponent_of a) (exponent_of b)).
  replace (Z.min (exponent_of a - k) (exponent_of b - k)) with (ez - k)
    by (unfold ez; lia).
  rewrite !scaled_aligned by (try assumption; unfold ez; lia).
  unfold scaled.
  rewrite <- (binary_normalize_shift
                (cond_Zopp sa (Zpos a) + cond_Zopp sb (Zpos b)) (- ez) (- k))
    by (unfold ez; lia).
  f_equal; [destruct sa, sb; unfold cond_Zopp; lia | lia].
Qed.

Lemma sub_fraction_finite (sa sb : bool) (a b : positive) :
  Zpos a < two53 -> Zpos b < two53 ->
  Num.sub (S754_finite sa (mantissa_of a) (exponent_of a - k))
          (S754_finite sb (mantissa_of b) (exponent_of b - k)) =
    scaled (cond_Zopp sa (Zpos a) - cond_Zopp sb (Zpos b)) k.
Proof using Type.
  clear Hk. intros Ha Hb.
  pose proof (exponent_of_nonpos a Ha). pose proof (exponent_of_nonpos b Hb).
  unfold Num.sub, SFsub.
  set (ez := Z.min (exponent_of a) (exponent_of b)).
  replace (Z.min (exponent_of a - k) (exponent_of b - k)) with (ez - k)
    by (unfold ez; lia).
  rewrite !scaled_aligned by (try assumption; unfold ez; lia).
  unfold scaled.
  rewrite <- (binary_normalize_shift
                (cond_Zopp sa (Zpos a) - cond_Zopp sb (Zpos b)) (- ez) (- k))
    by (unfold ez; lia).
  f_equal; [destruct sa, sb; unfold cond_Zopp; lia | lia].
Qed.

(** Sums and differences of fractions of integers below 2^53 are the
    fractions of the sums and the differences. *)
Lemma add_scaled (a b : Z) :
  Z.abs a < two53 -> Z.abs b < two53 ->
  Num.add (scaled a k) (scaled b k) = scaled (a + b) k.
Proof using Hk.
  intros Ha Hb. rewrite (scaled_shifted a Ha), (scaled_shifted b Hb).
  destruct (Z.eq_dec a 0) as [->|Hna]; destruct (Z.eq_dec b 0) as [->|Hnb].
  - reflexivity.
  - rewrite Z.add_0_l, scaled_shifted by exact Hb.
    destruct (ofZ_finite b Hnb Hb) as (-> & _). reflexivity.
  - rewrite Z.add_0_r, scaled_shifted by exact Ha.
    destruct (ofZ_finite a Hna Ha) as (-> & _). reflexivity.
  - destruct (ofZ_finite a Hna Ha) as (-> & Va & Ba).
    destruct (ofZ_finite b Hnb Hb) as (-> & Vb & Bb).
    cbn [shifted]. rewrite add_fraction_finite, Va, Vb by assumption.
    reflexivity.
Qed.

Lemma sub_scaled (a b : Z) :
  Z.abs a < two53 -> Z.abs b < two53 ->
  Num.sub (scaled a k) (scaled b k) = scaled (a - b) k.
Proof using Hk.
  intros Ha Hb. rewrite (scaled_shifted a Ha), (scaled_shifted b Hb).
  destruct (Z.eq_dec a 0) as [->|Hna]; destruct (Z.eq_dec b 0) as [->|Hnb].
  - reflexivity.
  - assert (Hnb' : Z.abs (- b) < two53) by lia.
    replace (0 - b) with (- b) by lia. rewrite scaled_shifted by exact Hnb'.
    destruct b as [|b|b]; [congruence| |]; simpl Z.opp;
      rewrite ofZ_pos, ofZ_neg by exact Hb; reflexivity.
  - rewrite Z.sub_0_r, scaled_shifted by exact Ha.
    destruct (ofZ_finite a Hna Ha) as (-> & _). reflexivity.
  - destruct (ofZ_finite a Hna Ha) as (-> & Va & Ba).
    destruct (ofZ_finite b Hnb Hb) as (-> & Vb & Bb).
    cbn [shifted]. rewrite sub_fraction_finite, Va, Vb by assumption.
    reflexivity.
Qed.

Lemma leb_scaled (a b : Z) :
  Z.abs a < two53 -> Z.abs b < two53 ->
  Num.leb (scaled a k) (scaled b k) = (a <=? b).
Proof using Hk.
  intros Ha Hb. rewrite !scaled_shifted, leb_shifted by assumption.
  apply leb_exact; assumption.
Qed.

Lemma gtb_scaled_zero (s : Z) :
  Z.abs s < two53 -> Num.gtb (scaled s k) Num.zero = (0 <? s).
Proof using Hk.
  intros Hs. rewrite scaled_shifted by exact Hs.
  unfold Num.gtb. rewrite <- (shifted_zero k), ltb_shifted.
  apply (ltb_exact 0 s); [reflexivity | exact Hs].
Qed.

Lemma ltb_scaled_zero (s : Z) :
  Z.abs s < two53 -> Num.ltb (scaled s k) Num.zero = (s <? 0).
Proof using Hk.
  intros Hs. rewrite scaled_shifted by exact Hs.
  rewrite <- (shifted_zero k), ltb_shifted.
  apply (ltb_exact s 0); [exact Hs | reflexivity].
Qed.

End Scaled.

Lemma eqb_shifted_zero (k : Z) (x : number) :
  Num.eqb (shifted k x) Num.zero = Num.eqb x Num.zero.
Proof. destruct x as [sx|sx| |[] mx ex]; reflexivity. Qed.

Lemma two51_bounds : two52 = 2 * two51 /\ 0 < two51.
Proof. split; reflexivity. Qed.

Section FractionRange.

Variables a s e k : Z.
Hypothesis Hk : 0 <= k <= max_scale.
Hypothesis Ha : Z.abs a < two51.
Hypothesis Hs : Z.abs s < two51.
Hypothesis He : Z.abs e < two51.

(** The values up to the one that leaves the loop stay below 2^52. *)
Lemma fraction_values_bounded (j : Z) :
  0 <= j <= count a s e -> Z.abs (a + j * s) < two52.
Proof using Ha Hs He.
  clear Hk. intros Hj. destruct two51_bounds as [H52 H51].
  destruct (Z.eq_dec j 0) as [->|Hj0]; [rewrite Z.mul_0_l, Z.add_0_r; lia|].
  destruct (count_cases a s e) as [(H1 & H2 & E) | [(H1 & H2 & E) | (E & _)]];
    rewrite E in Hj; [| |lia].
  - destruct (count_up a s e (j - 1) H1 H2 ltac:(lia)) as (H & _). nia.
  - destruct (count_down a s e (j - 1) H1 H2 ltac:(lia)) as (H & _). nia.
Qed.

Lemma value_at_scaled (j : nat) :
  Z.of_nat j <= count a s e ->
  value_at (scaled a k) (scaled s k) j = scaled (a + Z.of_nat j * s) k.
Proof using Hk Ha Hs He.
  destruct two51_bounds as [H52 H51]. pose proof two53_double as H53.
  induction j as [|j IH]; intros Hj.
  - simpl. f_equal. lia.
  - rewrite value_at_S, IH by lia.
    pose proof (fraction_values_bounded (Z.of_nat j) ltac:(lia)).
    rewrite add_scaled by (try exact Hk; lia). f_equal. lia.
Qed.

Lemma Range_forEach_fractions {S : Type}
    (callback : number -> number -> Range -> S -> S) (fuel : nat) (s0 : S) :
  (Z.to_nat (count a s e) <= fuel)%nat ->
  Range_forEach callback fuel (scaledRange a s e k) s0 =
    Returned
      (invoke callback (scaledRange a s e k)
         (invocations (scaled a k) (scaled s k) (Z.to_nat (count a s e))) s0).
Proof using Hk Ha Hs He.
  set (n := Z.to_nat (count a s e)).
  intros Hfuel. unfold scaledRange.
  destruct two51_bounds as [H52 H51]. pose proof two53_double as H53.
  pose proof (count_nonneg a s e) as Hn.
  assert (Hg : Num.gtb (scaled s k) Num.zero = (0 <? s))
    by (apply gtb_scaled_zero; [exact Hk | lia]).
  assert (Hl : Num.ltb (scaled s k) Num.zero = (s <? 0))
    by (apply ltb_scaled_zero; [exact Hk | lia]).
  assert (Hguard : forall j, (j <= n)%nat ->
            Num.leb (value_at (scaled a k) (scaled s k) j) (scaled e k) =
              (a + Z.of_nat j * s <=? e) /\
            Num.geb (value_at (scaled a k) (scaled s k) j) (scaled e k) =
              (e <=? a + Z.of_nat j * s)).
  { intros j Hj.
    pose proof (fraction_values_bounded (Z.of_nat j) ltac:(lia)).
    rewrite value_at_scaled by lia. unfold Num.geb.
    rewrite !leb_scaled by (try exact Hk; lia). split; reflexivity. }
  destruct (count_cases a s e)
    as [(H1 & H2 & E) | [(H1 & H2 & E) | (E & N1 & N2)]].
  - apply Z.ltb_lt in H1 as H1'. rewrite H1' in Hg.
    apply Range_forEach_returns; unfold continues; rewrite ?Hg.
    + left. reflexivity.
    + intros j Hj. rewrite (proj1 (Hguard j ltac:(lia))).
      destruct (count_up a s e (Z.of_nat j) H1 H2 ltac:(lia)) as (Hin & _).
      apply Z.leb_le. lia.
    + rewrite (proj1 (Hguard n ltac:(lia))).
      destruct (count_up a s e (Z.of_nat n) H1 H2 ltac:(lia)) as (_ & Hout & _).
      apply Z.leb_gt. lia.
    + exact Hfuel.
  - apply Z.ltb_lt in H1 as H1'. rewrite H1' in Hl.
    assert (Hg' : Num.gtb (scaled s k) Num.zero = false)
      by (rewrite Hg; apply Z.ltb_ge; lia).
    apply Range_forEach_returns; unfold continues; rewrite ?Hg'.
    + right. exact Hl.
    + intros j Hj. rewrite (proj2 (Hguard j ltac:(lia))).
      destruct (count_down a s e (Z.of_nat j) H1 H2 ltac:(lia)) as (Hin & _).
      apply Z.leb_le. lia.
    + rewrite (proj2 (Hguard n ltac:(lia))).
      destruct (count_down a s e (Z.of_nat n) H1 H2 ltac:(lia))
        as (_ & Hout & _).
      apply Z.leb_gt. lia.
    + exact Hfuel.
  - assert (Hn0 : n = 0%nat) by (unfold n; lia). rewrite Hn0.
    apply Range_forEach_nothing.
    + rewrite Hg. intros Hpos. apply Z.ltb_lt in Hpos.
      rewrite leb_scaled by (try exact Hk; lia). apply Z.leb_gt. lia.
    + rewrite Hl. intros Hneg. apply Z.ltb_lt in Hneg.
      unfold Num.geb. rewrite leb_scaled by (try exact Hk; lia).
      apply Z.leb_gt. lia.
Qed.

Lemma Range_toArray_fractions (fuel : nat) :
  count a s e <= max_array_length ->
  (Z.to_nat (count a s e) <= fuel)%nat ->
  Range_toArray fuel (scaledRange a s e k) =
    Some (List.map (fun z => Some (scaled z k)) (values a s e)).
Proof using Hk Ha Hs He.
  set (n := Z.to_nat (count a s e)).
  intros Hlen Hfuel. pose proof (count_nonneg a s e) as Hn.
  unfold Range_toArray. rewrite Range_forEach_fractions by exact Hfuel.
  cbn [returned]. f_equal. unfold scaledRange.
  rewrite (invoke_array_set (fun value _ _ => value)) by (unfold n; lia).
  unfold values. rewrite map_map. apply map_ext_in.
  intros j Hj. apply in_seq in Hj.
  rewrite value_at_scaled by (unfold n in Hj; lia). reflexivity.
Qed.

(** [size()] of the range of the fractions is [size()] of the range of the
    integers. *)
Lemma Range_size_fractions :
  Range_size (scaledRange a s e k) = Range_size (intRange a s e).
Proof using Hk Ha Hs He.
  destruct two51_bounds as [H52 H51]. pose proof two53_double as H53.
  unfold Range_size, scaledRange, intRange, numRange.
  cbn [start step end_ Number].
  rewrite sub_scaled, sub_exact by (try exact Hk; lia).
  rewrite (scaled_shifted k Hk s), (scaled_shifted k Hk (e - a)) by lia.
  rewrite !sign_shifted, div_shifted, eqb_shifted_zero. reflexivity.
Qed.

End FractionRange.

(** X15: a range of binary fractions, whose start, step and end are integers
    of magnitude below 2^51 divided by the same power of two [2 ^ k] (a step
    such as 0.5, 0.25 or 0.125), behaves as the range of the integers:
    [toArray()] returns the fractions [(start + j * step) / 2 ^ k] of the
    values of that range, exactly, and [size()] is their number. *)
Theorem Range_of_binary_fractions (a s e k : Z) (fuel : nat) :
  0 <= k <= max_scale ->
  Z.abs a < two51 -> Z.abs s < two51 -> Z.abs e < two51 ->
  count a s e <= max_array_length ->
  (Z.to_nat (count a s e) <= fuel)%nat ->
  Range_toArray fuel (scaledRange a s e k) =
    Some (List.map (fun z => Some (scaled z k)) (values a s e)) /\
  Range_size (scaledRange a s e k) =
    [Num.ofZ (Z.of_nat (List.length (values a s e)))].
Proof.
  intros Hk Ha Hs He Hlen Hfuel.
  destruct two51_bounds as [H52 H51]. pose proof two53_double as H53.
  split.
  - apply Range_toArray_fractions; assumption.
  - rewrite Range_size_fractions, length_values by assumption.
    apply Range_size_count; lia.
Qed.

Lemma Range_of_binary_fractions_witness :
  Range_toArray 5 (numRange Num.zero (token_number "0.25") Num.one) =
    Some [Some Num.zero; Some (token_number "0.25"); Some (token_number "0.5");
          Some (token_number "0.75"); Some Num.one] /\
  Range_size (numRange Num.zero (token_number "0.25") Num.one) = [Num.ofZ 5].
Proof.
  apply (Range_of_binary_fractions 0 1 4 2 5);
    vm_compute; (reflexivity || lia || discriminate || (split; discriminate)).
Defined.
